(** * Offline PMTiles plugin for MapLibre: a shallow embedding

    The development follows the JavaScript sources:
    - [src/pmtiles_adapter.js]  (class [BlobSource]),
    - [src/db.js]               (the Dexie tables [files] and [styles]),
    - the plugin module         (class [OfflinePlugin]: protocol handler,
                                 [downloadMap], [loadMap], [_cleanup], ...).

    Conventions of the embedding.
    - JavaScript strings are Rocq strings (sequences of 8-bit code units).
    - JavaScript numbers are modelled by [JsNum]: NaN, the two infinities and
      exact rationals.  Byte counts, HTTP statuses and zoom levels are
      integers far below 2^53, where IEEE doubles are exact; quotients are
      kept exact instead of being rounded to the nearest double.
    - An [async] function is a function in the monad [M]: it threads the
      world (remote server, IndexedDB, reported events) and either returns a
      value or throws a [JsError]; [await] is sequencing.  The only loop of
      the program ([while] in [downloadMap]) is bounded by fuel, and running
      out of fuel is a third, distinct outcome. *)

From Stdlib Require Import ZArith QArith Qround Qabs List String Ascii Bool Lia DecimalString DecimalPos.
From stdpp Require Import base option gmap strings list sorting.

Local Open Scope Z_scope.
Set Warnings "-register-all".

(** ** JavaScript values *)

Definition Blob := list Byte.byte.

Record JsError := mkError { err_name : string; err_message : string }.

(** [new Error(msg)] *)
Definition Error (msg : string) : JsError := mkError "Error" msg.
(** The [TypeError] raised when a property that is not a function is called. *)
Definition TypeError (msg : string) : JsError := mkError "TypeError" msg.

Inductive JsNum :=
| NaN
| Inf (neg : bool)
| Fin (q : Q).

Definition num_of_Z (z : Z) : JsNum := Fin (inject_Z z).

Inductive JsVal :=
| VUndefined
| VNull
| VBool (b : bool)
| VNum (n : JsNum)
| VStr (s : string)
| VArr (items : list JsVal)
| VObj (fields : list (string * JsVal)).

(** Truthiness ([ToBoolean]). *)
Definition num_truthy (n : JsNum) : bool :=
  match n with
  | NaN => false
  | Inf _ => true
  | Fin q => negb (Qnum q =? 0)
  end.

Definition str_truthy (s : string) : bool :=
  match s with EmptyString => false | _ => true end.

Definition truthy (v : JsVal) : bool :=
  match v with
  | VUndefined | VNull => false
  | VBool b => b
  | VNum n => num_truthy n
  | VStr s => str_truthy s
  | VArr _ | VObj _ => true
  end.

(** [a || b] on numbers. *)
Definition num_or (a b : JsNum) : JsNum := if num_truthy a then a else b.

(** Property lookup in an object literal: the last binding of a key wins,
    as in [JSON.parse]. *)
Fixpoint assoc_get (k : string) (fields : list (string * JsVal)) : option JsVal :=
  match fields with
  | [] => None
  | (k', v) :: rest =>
      match assoc_get k rest with
      | Some w => Some w
      | None => if String.eqb k k' then Some v else None
      end
  end.

(** [v.k] for a data property [k] of a value that came out of [JSON.parse]
    (or a primitive): anything that is not an object with that key yields
    [undefined].  The caller guards against [null] and [undefined]. *)
Definition get_prop (v : JsVal) (k : string) : JsVal :=
  match v with
  | VObj fields => default VUndefined (assoc_get k fields)
  | _ => VUndefined
  end.

(** [typeof v] restricted to the two answers the program tests for. *)
Definition typeof_string (v : JsVal) : bool :=
  match v with VStr _ => true | _ => false end.
Definition typeof_object (v : JsVal) : bool :=
  match v with VNull | VArr _ | VObj _ => true | _ => false end.

(** ** Strings *)

(** [String.prototype.split] with a one-character separator: always at
    least one component. *)
Fixpoint split (sep : ascii) (s : string) : list string :=
  match s with
  | EmptyString => [EmptyString]
  | String c rest =>
      if Ascii.eqb c sep then EmptyString :: split sep rest
      else match split sep rest with
           | [] => [String c EmptyString]
           | p :: ps => String c p :: ps
           end
  end.

Definition drop_string (n : nat) (s : string) : string :=
  String.substring n (String.length s - n) s.

(** [s.replace(pat, '')] with a string pattern: only the first occurrence
    is removed, wherever it is. *)
Fixpoint remove_first (pat s : string) : string :=
  if String.prefix pat s then drop_string (String.length pat) s
  else match s with
       | EmptyString => EmptyString
       | String c rest => String c (remove_first pat rest)
       end.

(** [s.startsWith(p)] *)
Definition startsWith (s p : string) : bool := String.prefix p s.

(** White space and line terminators among the 8-bit code units. *)
Definition is_space (c : ascii) : bool :=
  match N_of_ascii c with
  | 9%N | 10%N | 11%N | 12%N | 13%N | 32%N | 160%N => true
  | _ => false
  end.

Fixpoint trim_start (s : string) : string :=
  match s with
  | String c rest => if is_space c then trim_start rest else s
  | EmptyString => EmptyString
  end.

Fixpoint trim_end (s : string) : string :=
  match s with
  | EmptyString => EmptyString
  | String c rest =>
      match trim_end rest with
      | EmptyString => if is_space c then EmptyString else String c EmptyString
      | r => String c r
      end
  end.

Definition trim (s : string) : string := trim_end (trim_start s).

(** Decimal rendering of an integer, as in a template literal. *)
Definition string_of_Z (z : Z) : string := NilZero.string_of_int (Z.to_int z).

(** ** Numbers from strings *)

Definition digit_value (c : ascii) : option Z :=
  let n := Z.of_N (N_of_ascii c) in
  if (48 <=? n) && (n <=? 57) then Some (n - 48)
  else if (97 <=? n) && (n <=? 122) then Some (n - 87)
  else if (65 <=? n) && (n <=? 90) then Some (n - 55)
  else None.

(** The longest prefix of radix-[r] digits, and what follows it. *)
Fixpoint read_digits (r : Z) (s : string) : list Z * string :=
  match s with
  | EmptyString => ([], EmptyString)
  | String c rest =>
      match digit_value c with
      | Some d =>
          if d <? r then let '(ds, tl) := read_digits r rest in (d :: ds, tl)
          else ([], s)
      | None => ([], s)
      end
  end.

Definition digits_value (r : Z) (ds : list Z) : Z :=
  fold_left (fun acc d => acc * r + d) ds 0.

Definition read_sign (s : string) : bool * string :=
  match s with
  | String "-" rest => (true, rest)
  | String "+" rest => (false, rest)
  | _ => (false, s)
  end.

Definition strip_hex_prefix (s : string) : option string :=
  match s with
  | String "0" (String "x" rest) | String "0" (String "X" rest) => Some rest
  | _ => None
  end.

(** [parseInt(s, radix)]; [radix = None] is a call with one argument.  The
    result is an integer or NaN, which is [None] here. *)
Definition parseInt (s : string) (radix : option Z) : option Z :=
  let '(neg, body) := read_sign (trim_start s) in
  let r0 := default 0 radix in
  if negb (r0 =? 0) && ((r0 <? 2) || (36 <? r0)) then None
  else
    let strip := (r0 =? 0) || (r0 =? 16) in
    let r := if r0 =? 0 then 10 else r0 in
    let '(r, body) :=
      match (if strip then strip_hex_prefix body else None) with
      | Some rest => (16, rest)
      | None => (r, body)
      end in
    match read_digits r body with
    | ([], _) => None
    | (ds, _) =>
        let v := digits_value r ds in
        Some (if neg then - v else v)
    end.

(** [isNaN] on the result of [parseInt]. *)
Definition isNaN (n : option Z) : bool :=
  match n with None => true | Some _ => false end.

(** The result of [parseInt] as a number. *)
Definition num_of_int (n : option Z) : JsNum :=
  match n with None => NaN | Some z => num_of_Z z end.

Definition radix_literal (s : string) : option JsNum :=
  let lit (r : Z) (rest : string) :=
    match read_digits r rest with
    | (d :: ds, EmptyString) => Some (num_of_Z (digits_value r (d :: ds)))
    | _ => Some NaN
    end in
  match s with
  | String "0" (String "x" rest) | String "0" (String "X" rest) => lit 16 rest
  | String "0" (String "o" rest) | String "0" (String "O" rest) => lit 8 rest
  | String "0" (String "b" rest) | String "0" (String "B" rest) => lit 2 rest
  | _ => None
  end.

Definition pow10 (e : Z) : Q := Qpower (10 # 1) e.

(** The exponent part of a decimal literal: [Some 0] when there is none,
    [None] when it is malformed or followed by anything. *)
Definition read_exponent (s : string) : option Z :=
  match s with
  | EmptyString => Some 0
  | String "e" rest | String "E" rest =>
      let '(neg, body) := read_sign rest in
      match read_digits 10 body with
      | (d :: ds, EmptyString) =>
          let v := digits_value 10 (d :: ds) in Some (if neg then - v else v)
      | _ => None
      end
  | _ => None
  end.

(** [Number(s)] on a string ([StringToNumber]). *)
Definition Number (s : string) : JsNum :=
  let t := trim s in
  match t with
  | EmptyString => num_of_Z 0
  | _ =>
    match radix_literal t with
    | Some n => n
    | None =>
      let '(neg, body) := read_sign t in
      if String.eqb body "Infinity" then Inf neg
      else
        let '(ip, r1) := read_digits 10 body in
        let '(fp, r2) :=
          match r1 with
          | String "." rest => read_digits 10 rest
          | _ => ([], r1)
          end in
        match ip, fp with
        | [], [] => NaN
        | _, _ =>
            match read_exponent r2 with
            | None => NaN
            | Some e =>
                let m := digits_value 10 (ip ++ fp) in
                let q := (inject_Z m * pow10 (e - Z.of_nat (length fp)))%Q in
                Fin (Qred (if neg then (- q)%Q else q))
            end
        end
    end
  end.

(** ** Arithmetic and formatting *)

Definition Qsign_neg (q : Q) : bool := Qnum q <? 0.

(** [a / b] *)
Definition num_div (a b : JsNum) : JsNum :=
  match a, b with
  | NaN, _ | _, NaN => NaN
  | Inf _, Inf _ => NaN
  | Inf n, Fin q => Inf (xorb n (Qsign_neg q))
  | Fin _, Inf _ => num_of_Z 0
  | Fin p, Fin q =>
      if Qnum q =? 0 then
        if Qnum p =? 0 then NaN else Inf (Qsign_neg p)
      else Fin (Qred (p / q)%Q)
  end.

(** [a * b] *)
Definition num_mul (a b : JsNum) : JsNum :=
  match a, b with
  | NaN, _ | _, NaN => NaN
  | Inf n, Inf m => Inf (xorb n m)
  | Inf n, Fin q | Fin q, Inf n =>
      if Qnum q =? 0 then NaN else Inf (xorb n (Qsign_neg q))
  | Fin p, Fin q => Fin (Qred (p * q)%Q)
  end.

(** The result of [x.toFixed(f)]: a string, kept in structured form.
    [FxDec neg n f] is the string of sign [neg] and digits [n / 10^f]. *)
Inductive Fixed :=
| FxNaN
| FxInf (neg : bool)
| FxDec (neg : bool) (n : Z) (f : nat).

(** [x.toFixed(f)]: the integer [n] with [n / 10^f] closest to [|x|], the
    larger one on a tie. *)
Definition toFixed (x : JsNum) (f : nat) : Fixed :=
  match x with
  | NaN => FxNaN
  | Inf neg => FxInf neg
  | Fin q =>
      let a := Qabs q in
      FxDec (Qsign_neg q) (Qfloor (a * pow10 (Z.of_nat f) + (1 # 2))%Q) f
  end.

Fixpoint pad_zeros (width : nat) (s : string) : string :=
  match width with
  | O => s
  | S w => if (String.length s <? S w)%nat then pad_zeros w ("0" +:+ s) else s
  end.

Definition render_fixed (x : Fixed) : string :=
  match x with
  | FxNaN => "NaN"
  | FxInf neg => if neg then "-Infinity" else "Infinity"
  | FxDec neg n f =>
      let p := 10 ^ Z.of_nat f in
      let int_part := string_of_Z (n / p) in
      let frac := pad_zeros f (string_of_Z (n mod p)) in
      (if neg then "-" else "") +:+ int_part +:+
      (match f with O => "" | _ => "." +:+ frac end)
  end.


(** [String(v)] / template-literal interpolation.  How a number prints is
    left to the host ([num_str]); arrays join their elements with commas,
    [null] and [undefined] elements printing as the empty string. *)
Section ToString.
Variable num_str : JsNum -> string.

Fixpoint to_string (v : JsVal) : string :=
  match v with
  | VUndefined => "undefined"
  | VNull => "null"
  | VBool b => if b then "true" else "false"
  | VNum n => num_str n
  | VStr s => s
  | VObj _ => "[object Object]"
  | VArr items =>
      let elem (x : JsVal) : string :=
        match x with
        | VUndefined | VNull => ""
        | _ => to_string x
        end in
      (fix join (l : list JsVal) : string :=
         match l with
         | [] => ""
         | [x] => elem x
         | x :: rest => elem x +:+ "," +:+ join rest
         end) items
  end.

(** [Number(v)] on any value ([ToNumber]). *)
Definition to_number (v : JsVal) : JsNum :=
  match v with
  | VUndefined => NaN
  | VNull => num_of_Z 0
  | VBool b => num_of_Z (if b then 1 else 0)
  | VNum n => n
  | VStr s => Number s
  | VArr _ => Number (to_string v)
  | VObj _ => NaN
  end.

(** [parseInt(v)] on any value: the argument is first turned into a string. *)
Definition parseInt_val (v : JsVal) (radix : option Z) : option Z :=
  parseInt (to_string v) radix.
End ToString.

(** [x > 0] *)
Definition num_pos (n : JsNum) : bool :=
  match n with
  | NaN => false
  | Inf neg => negb neg
  | Fin q => 0 <? Qnum q
  end.

(** [a === b] when [b] is a string or [undefined] (the only uses in the
    program); objects and arrays are never identical to those. *)
Definition strict_eq_prim (a b : JsVal) : bool :=
  match a, b with
  | VUndefined, VUndefined => true
  | VStr s, VStr t => String.eqb s t
  | _, _ => false
  end.

(** ** [src/pmtiles_adapter.js] *)

(** [Blob.prototype.slice(start, end)]: both ends are clamped to the blob,
    negative ones counting from its end. *)
Definition blob_size (b : Blob) : Z := Z.of_nat (length b).

Definition clamp_index (size i : Z) : Z :=
  if i <? 0 then Z.max (size + i) 0 else Z.min i size.

Definition blob_slice (b : Blob) (start stop : Z) : Blob :=
  let size := blob_size b in
  let rs := clamp_index size start in
  let re := clamp_index size stop in
  let span := Z.max (re - rs) 0 in
  take (Z.to_nat span) (drop (Z.to_nat rs) b).

(** [blob.arrayBuffer()]: the promise is rejected when the host cannot read
    the blob's data ([fault]), and otherwise gives all its bytes. *)
Definition arrayBuffer (fault : option JsError) (b : Blob) : JsError + Blob :=
  match fault with
  | Some e => inl e
  | None => inr b
  end.

Record BlobSource := { bs_blob : Blob; bs_key : string }.

(** [new BlobSource(blob, key)] *)
Definition new_BlobSource (blob : Blob) (key : string) : BlobSource :=
  {| bs_blob := blob;
     bs_key := if str_truthy key then key else "blob_source" |}.

Definition getKey (src : BlobSource) : string := bs_key src.

(** [getBytes(offset, length)], returning the [data] of the result. *)
Definition getBytes (fault : option JsError) (src : BlobSource)
    (offset length : Z) : JsError + Blob :=
  let slice := blob_slice (bs_blob src) offset (offset + length) in
  arrayBuffer fault slice.

(** ** Records of the two Dexie tables ([src/db.js]) *)

Record FileRecord := { file_name : string; file_blob : Blob; file_date : Z }.
Record StyleRecord := { style_name : string; style_doc : JsVal; style_date : Z }.

Record Db := {
  files : gmap string FileRecord;
  styles : gmap string StyleRecord
}.

(** ** The network *)

Record Request := {
  req_url : string;
  (** [Some n] for the header [Range: bytes=n-] *)
  req_range : option Z
}.

Record Response := {
  status : Z;
  (** [response.headers.get('Content-Range')] *)
  content_range : option string;
  (** [await response.blob()] *)
  resp_blob : JsError + Blob;
  (** [await response.json()] *)
  resp_json : JsError + JsVal
}.

(** [response.ok] *)
Definition response_ok (r : Response) : bool :=
  (200 <=? status r) && (status r <=? 299).

(** ** The archive reader (package [pmtiles]) *)

Record Header := {
  minZoom : JsNum;
  maxZoom : JsNum;
  minLon : JsNum;
  minLat : JsNum;
  maxLon : JsNum;
  maxLat : JsNum;
  tileType : JsNum
}.

(** ** The rendering engine's style *)

Record SourceSpec := {
  src_type : string;
  src_url : string;
  src_tileSize : Z;
  src_attribution : JsVal
}.

Record MapState := {
  (** layer objects, bottom to top *)
  map_layers : list JsVal;
  map_sources : gmap string SourceSpec
}.

(** ** The host: everything the program calls but does not define *)

Record Host := {
  Server : Type;
  (** [fetch(url, { headers })]: a network error or a response, and the
      server afterwards *)
  fetch_step : Server -> Request -> (JsError + Response) * Server;
  (** why Dexie would reject [db.files.put(rec)], [db.files.get(name)], ... *)
  files_put_fault : Db -> FileRecord -> option JsError;
  files_get_fault : Db -> string -> option JsError;
  styles_put_fault : Db -> StyleRecord -> option JsError;
  styles_get_fault : Db -> string -> option JsError;
  (** [JSON.parse] *)
  JSON_parse : string -> JsError + JsVal;
  (** [Number.prototype.toString] *)
  num_str : JsNum -> string;
  (** [new PMTiles(source)]: [getHeader()], [getMetadata()], [getZxy(z,x,y)] *)
  pm_getHeader : BlobSource -> JsError + Header;
  pm_getMetadata : BlobSource -> JsError + JsVal;
  pm_getZxy : BlobSource -> option Z -> option Z -> option Z -> JsError + option Blob;
  (** style validation in the rendering engine: of a layer against the
      style's sources, and of a source *)
  layer_valid : JsVal -> gmap string SourceSpec -> bool;
  source_valid : SourceSpec -> bool
}.
Existing Class Host.

(** ** Observable effects *)

Inductive Code := START | PROGRESS | COMPLETE | ERROR | ERROR_QUOTA.

Definition code_str (c : Code) : string :=
  match c with
  | START => "START"
  | PROGRESS => "PROGRESS"
  | COMPLETE => "COMPLETE"
  | ERROR => "ERROR"
  | ERROR_QUOTA => "ERROR_QUOTA"
  end.

(** The object handed to [onProgress]. *)
Record Status := {
  st_code : Code;
  st_message : string;
  st_progress : option Fixed
}.

Inductive Effect :=
| EFetch (req : Request) (res : JsError + Response)
| EProgress (s : Status)
| ELog (line : string)
| EErrorLog (line : string) (e : option JsError)
| EAlert (line : string)
| EPutFile (rec : FileRecord)
| EPutStyle (rec : StyleRecord).

Record World (H : Host) := {
  server : Server H;
  db : Db;
  map : MapState;
  clock : Z;
  (** effects so far, oldest first *)
  trace : list Effect
}.
Arguments server {H}.
Arguments db {H}.
Arguments map {H}.
Arguments clock {H}.
Arguments trace {H}.

(** ** The monad of asynchronous code *)

Inductive Outcome (A : Type) :=
| Ret (a : A)
| Throw (e : JsError)
| OutOfFuel.
Arguments Ret {A}.
Arguments Throw {A}.
Arguments OutOfFuel {A}.

(** A computation on a state [S]: it returns, throws or runs out of fuel,
    and leaves a state in each case. *)
Definition ST (S A : Type) : Type := S -> Outcome A * S.

Section StateMonad.
Context {S : Type}.

Definition ret {A} (a : A) : ST S A := fun s => (Ret a, s).
Definition throw {A} (e : JsError) : ST S A := fun s => (Throw e, s).
Definition out_of_fuel {A} : ST S A := fun s => (OutOfFuel, s).

Definition bind {A B} (m : ST S A) (k : A -> ST S B) : ST S B :=
  fun s =>
    match m s with
    | (Ret a, s') => k a s'
    | (Throw e, s') => (Throw e, s')
    | (OutOfFuel, s') => (OutOfFuel, s')
    end.

(** [try { m } catch (e) { handler e }] *)
Definition try_catch {A} (m : ST S A) (handler : JsError -> ST S A) : ST S A :=
  fun s =>
    match m s with
    | (Throw e, s') => handler e s'
    | r => r
    end.

(** A settled promise ([JsError + A]) awaited, or the result of a call that
    may throw. *)
Definition await {A} (r : JsError + A) : ST S A :=
  match r with
  | inl e => throw e
  | inr a => ret a
  end.

(** [arr.forEach(f)] *)
Fixpoint forEach {A} (f : A -> ST S unit) (items : list A) : ST S unit :=
  match items with
  | [] => ret tt
  | x :: rest => bind (f x) (fun _ => forEach f rest)
  end.
End StateMonad.

(** Asynchronous code runs on the world. *)
Definition M (H : Host) (A : Type) : Type := ST (World H) A.

Section Monad.
Context {H : Host}.

(** The world after one more effect. *)
Definition extend (w : World H) (e : Effect) : World H :=
  {| server := server w; db := db w; map := map w;
     clock := clock w; trace := trace w ++ [e] |}.

Definition emit (e : Effect) : M H unit := fun w => (Ret tt, extend w e).

(** The world with another map. *)
Definition with_map (w : World H) (m : MapState) : World H :=
  {| server := server w; db := db w; map := m;
     clock := clock w; trace := trace w |}.

(** Synchronous code that works on the map, run on the map of the world. *)
Definition on_map {A} (f : ST MapState A) : M H A :=
  fun w => let '(o, m') := f (map w) in (o, with_map w m').

(** [new Date()] *)
Definition now : M H Z := fun w => (Ret (clock w), w).

(** [await fetch(url, { headers })] *)
Definition fetch (req : Request) : M H Response :=
  fun w =>
    let '(res, s') := fetch_step H (server w) req in
    let w' := {| server := s'; db := db w; map := map w; clock := clock w;
                 trace := trace w ++ [EFetch req res] |} in
    match res with
    | inl e => (Throw e, w')
    | inr r => (Ret r, w')
    end.
End Monad.

Notation "'let!' x ':=' m 'in' k" := (bind m (fun x => k))
  (at level 10, x pattern, m at level 100, k at level 200).
Notation "'do!' m 'in' k" := (bind m (fun _ => k))
  (at level 10, m at level 100, k at level 200).

(** ** [src/db.js] *)

Section Storage.
Context {H : Host}.

(** [await db.files.put(rec)] *)
Definition files_put (rec : FileRecord) : M H unit :=
  fun w =>
    match files_put_fault H (db w) rec with
    | Some e => (Throw e, w)
    | None =>
        (Ret tt,
         {| server := server w;
            db := {| files := <[file_name rec := rec]> (files (db w));
                     styles := styles (db w) |};
            map := map w; clock := clock w;
            trace := trace w ++ [EPutFile rec] |})
    end.

(** [await db.files.get(name)] *)
Definition files_get (name : string) : M H (option FileRecord) :=
  fun w =>
    match files_get_fault H (db w) name with
    | Some e => (Throw e, w)
    | None => (Ret (files (db w) !! name), w)
    end.

(** [await db.styles.put(rec)] *)
Definition styles_put (rec : StyleRecord) : M H unit :=
  fun w =>
    match styles_put_fault H (db w) rec with
    | Some e => (Throw e, w)
    | None =>
        (Ret tt,
         {| server := server w;
            db := {| files := files (db w);
                     styles := <[style_name rec := rec]> (styles (db w)) |};
            map := map w; clock := clock w;
            trace := trace w ++ [EPutStyle rec] |})
    end.

(** [await db.styles.get(name)] *)
Definition styles_get (name : string) : M H (option StyleRecord) :=
  fun w =>
    match styles_get_fault H (db w) name with
    | Some e => (Throw e, w)
    | None => (Ret (styles (db w) !! name), w)
    end.

Definition saveMapFile (name : string) (blob : Blob) : M H unit :=
  try_catch
    (let! date := now in
     do! files_put {| file_name := name; file_blob := blob; file_date := date |} in
     emit (ELog ("Saved " +:+ name +:+ " to IndexedDB")))
    (fun err =>
       do! emit (EErrorLog ("Failed to save " +:+ name +:+ ":") (Some err)) in
       throw err).

(** The blob, or [None] for [null]. *)
Definition getMapFile (name : string) : M H (option Blob) :=
  try_catch
    (let! record := files_get name in
     ret (file_blob <$> record))
    (fun err =>
       do! emit (EErrorLog ("Failed to get " +:+ name +:+ ":") (Some err)) in
       throw err).

Definition saveMapStyle (name : string) (style : JsVal) : M H unit :=
  try_catch
    (let! date := now in
     do! styles_put {| style_name := name; style_doc := style; style_date := date |} in
     emit (ELog ("Saved style for " +:+ name +:+ " to IndexedDB")))
    (fun err =>
       do! emit (EErrorLog ("Failed to save style for " +:+ name +:+ ":") (Some err)) in
       throw err).

(** The style, or [None] for [null]; a failed read is an absent style. *)
Definition getMapStyle (name : string) : M H (option JsVal) :=
  try_catch
    (let! record := styles_get name in
     ret (style_doc <$> record))
    (fun _ => ret None).
End Storage.

(** ** The plugin: [downloadMap] *)

Definition QUOTA_MESSAGE : string :=
  "Storage quota exceeded! Please delete old maps.".

(** [(receivedLength / totalSize * 100).toFixed(1)] *)
Definition percent (receivedLength totalSize : Z) : Fixed :=
  toFixed (num_mul (num_div (num_of_Z receivedLength) (num_of_Z totalSize))
                   (num_of_Z 100)) 1.

(** [(totalSize / 1024 / 1024).toFixed(2)] *)
Definition megabytes (totalSize : Z) : Fixed :=
  toFixed (num_div (num_div (num_of_Z totalSize) (num_of_Z 1024))
                   (num_of_Z 1024)) 2.

(** [parseInt(contentRange.split('/')[1], 10)]: the total size a
    [Content-Range] header announces. *)
Definition announced_total (contentRange : string) : option Z :=
  let parts := split "/" contentRange in
  parseInt (default "undefined" (parts !! 1%nat)) (Some 10).

(** The variables of the chunk loop. *)
Record LoopState := {
  chunks : list Blob;
  receivedLength : Z
}.

Section Download.
Context {H : Host}.

(** The local function [report] of [downloadMap]; [onProgress] tells
    whether the caller passed a callback, whose calls are recorded in the
    trace; without one the status goes to the console. *)
Definition report_effect (onProgress : bool) (code : Code) (message : string)
    (progress : option Fixed) : Effect :=
  if onProgress then
    EProgress {| st_code := code; st_message := message; st_progress := progress |}
  else
    ELog ("[" +:+ code_str code +:+ "] " +:+ message +:+ " " +:+
          match progress with
          | Some p =>
              if str_truthy (render_fixed p)
              then "(" +:+ render_fixed p +:+ "%)" else ""
          | None => ""
          end).

Definition report (onProgress : bool) (code : Code) (message : string)
    (progress : option Fixed) : M H unit :=
  emit (report_effect onProgress code message progress).

(** One iteration of the body of [while (receivedLength < totalSize)]. *)
Definition chunk_step (url : string) (onProgress : bool) (totalSize : Z)
    (st : LoopState) : M H LoopState :=
  let nextStart := receivedLength st in
  let! response := fetch {| req_url := url; req_range := Some nextStart |} in
  if negb (response_ok response) then
    throw (Error ("Chunk download failed: " +:+ string_of_Z (status response)))
  else
    let! nextChunk := await (resp_blob response) in
    let st' := {| chunks := chunks st ++ [nextChunk];
                  receivedLength := receivedLength st + blob_size nextChunk |} in
    do! report onProgress PROGRESS "Downloading chunks..."
          (Some (percent (receivedLength st') totalSize)) in
    ret st'.

(** The [while] loop, bounded by [fuel] iterations. *)
Fixpoint chunk_loop (fuel : nat) (url : string) (onProgress : bool)
    (totalSize : Z) (st : LoopState) : M H LoopState :=
  if receivedLength st <? totalSize then
    match fuel with
    | O => out_of_fuel
    | S fuel' =>
        let! st' := chunk_step url onProgress totalSize st in
        chunk_loop fuel' url onProgress totalSize st'
    end
  else ret st.

(** The state of the loop after at most [n] iterations. *)
Fixpoint chunk_iter (n : nat) (url : string) (onProgress : bool)
    (totalSize : Z) (st : LoopState) : M H LoopState :=
  match n with
  | O => ret st
  | S n' =>
      if receivedLength st <? totalSize then
        let! st' := chunk_step url onProgress totalSize st in
        chunk_iter n' url onProgress totalSize st'
      else ret st
  end.

(** The branch for status 206 with a [Content-Range] header. *)
Definition download_chunked (fuel : nat) (url : string) (onProgress : bool)
    (response : Response) (contentRange : string) : M H Blob :=
  let totalSize := announced_total contentRange in
  match totalSize with
  | None => throw (Error "Could not determine file size from Content-Range")
  | Some totalSize =>
      do! report onProgress PROGRESS
            ("Detected Partial Content. Total: " +:+
             render_fixed (megabytes totalSize) +:+ " MB") None in
      let! firstChunk := await (resp_blob response) in
      let st := {| chunks := [firstChunk];
                   receivedLength := blob_size firstChunk |} in
      do! report onProgress PROGRESS "Downloading chunks..."
            (Some (percent (receivedLength st) totalSize)) in
      let! st := chunk_loop fuel url onProgress totalSize st in
      do! report onProgress PROGRESS "Assembling file..." None in
      ret (concat (chunks st))
  end.

(** Step 1 of [downloadMap]: the bytes of the archive. *)
Definition download_data (fuel : nat) (url : string) (onProgress : bool)
    : M H Blob :=
  let! response := fetch {| req_url := url; req_range := None |} in
  if negb (response_ok response) then
    throw (Error ("Download failed with status " +:+ string_of_Z (status response)))
  else if status response =? 200 then
    do! report onProgress PROGRESS
          "Server supports full download. Fetching..." None in
    await (resp_blob response)
  else if status response =? 206 then
    match content_range response with
    | Some contentRange =>
        if str_truthy contentRange
        then download_chunked fuel url onProgress response contentRange
        else await (resp_blob response)
    | None => await (resp_blob response)
    end
  else await (resp_blob response).

(** Step 2 of [downloadMap]: the optional style. *)
Definition download_style (name : string) (onProgress : bool)
    (styleSource : JsVal) : M H unit :=
  if truthy styleSource then
    do! report onProgress PROGRESS ("Processing style for " +:+ name +:+ "...") None in
    let! styleJson :=
      match styleSource with
      | VStr s =>
          if negb (String.eqb (trim s) "") then
            try_catch
              (let! j := await (JSON_parse H s) in
               do! report onProgress PROGRESS "Parsed style from JSON string." None in
               ret j)
              (fun _ =>
                 let! styleResp := fetch {| req_url := s; req_range := None |} in
                 if negb (response_ok styleResp) then
                   throw (Error ("Failed to fetch style: " +:+
                                 string_of_Z (status styleResp)))
                 else await (resp_json styleResp))
          else ret VUndefined
      | _ => if typeof_object styleSource then ret styleSource else ret VUndefined
      end in
    if truthy styleJson then
      do! saveMapStyle name styleJson in
      report onProgress PROGRESS ("Saved custom style for " +:+ name +:+ ".") None
    else ret tt
  else ret tt.

(** [!url] for an argument that is a string, or missing ([None]). *)
Definition url_missing (url : option string) : bool :=
  match url with
  | Some u => negb (str_truthy u)
  | None => true
  end.

(** The [catch] clause of [downloadMap]. *)
Definition download_catch (onProgress : bool) (e : JsError) : M H unit :=
  do! (if String.eqb (err_name e) "QuotaExceededError"
       then report onProgress ERROR_QUOTA QUOTA_MESSAGE None
       else report onProgress ERROR ("Error: " +:+ err_message e) None) in
  throw e.

(** The [try] block of [downloadMap]. *)
Definition download_try (fuel : nat) (url name : string) (onProgress : bool)
    (styleSource : JsVal) : M H unit :=
  let! blob := download_data fuel url onProgress in
  do! report onProgress PROGRESS ("Saving " +:+ name +:+ " map data...") None in
  do! saveMapFile name blob in
  do! download_style name onProgress styleSource in
  report onProgress COMPLETE ("Saved " +:+ name +:+ "! Ready to load.") None.

Definition downloadMap (fuel : nat) (url : option string) (name : string)
    (onProgress : bool) (styleSource : JsVal) : M H unit :=
  if url_missing url then
    report onProgress ERROR "Error: No URL provided" None
  else
    let url := default "" url in
    do! report onProgress START
          ("Starting download of " +:+ name +:+ " from " +:+ url +:+ "...") None in
    try_catch
      (download_try fuel url name onProgress styleSource)
      (download_catch onProgress).
End Download.

(** ** The plugin: the handler registered by [registerProtocol] *)

Record TileJson := {
  tilejson : string;
  tiles : list string;
  tj_minzoom : JsNum;
  tj_maxzoom : JsNum;
  tj_bounds : list JsNum
}.

(** What the handler's promise resolves to. *)
Inductive HandlerResult :=
| RTileJson (t : TileJson)      (** [{ data: { tilejson, ... } }] *)
| RTile (data : Blob)           (** [{ data: response.data }] *)
| RNoTile                       (** [{ data: null }] *)
| RUndefined.                   (** the handler falls off its end *)

(** The state of [abortController.signal.aborted] at each of the points
    where the handler polls it, or [None] without a controller. *)
Definition AbortSignal := option (nat -> bool).

(** [header.tileType] to a MIME type; the handler computes it and does not
    use it. *)
Definition mimeType (header : Header) : string :=
  match tileType header with
  | Fin q =>
      if Qeq_bool q 2 then "image/png"
      else if Qeq_bool q 3 then "image/jpeg"
      else if Qeq_bool q 4 then "image/webp"
      else "application/vnd.mapbox-vector-tile"
  | _ => "application/vnd.mapbox-vector-tile"
  end.

(** The three values the metadata branch decides. *)
Record Resolved := {
  res_minZoom : JsNum;
  res_maxZoom : JsNum;
  res_bounds : list JsNum
}.

Section Protocol.
Context {H : Host}.

Definition checkAborted (abort : AbortSignal) (point : nat) : M H unit :=
  match abort with
  | Some aborted => if aborted point then throw (Error "Aborted") else ret tt
  | None => ret tt
  end.

(** "Logic to determine bounds": lines 65-75 of the handler. *)
Definition resolve_metadata (header : Header) (metadata : JsVal)
    : JsError + Resolved :=
  let minZoom := num_or (minZoom header) (num_of_Z 0) in
  let maxZoom := num_or (maxZoom header) (num_of_Z 14) in
  let bounds := [minLon header; minLat header; maxLon header; maxLat header] in
  if negb (num_truthy (minLon header)) && negb (num_truthy (maxLon header))
     && truthy metadata && truthy (get_prop metadata "bounds") then
    match get_prop metadata "bounds" with
    | VStr s =>
        let b := List.map Number (split "," s) in
        inr {| res_minZoom := minZoom; res_maxZoom := maxZoom;
               res_bounds := if (length b =? 4)%nat then b else bounds |}
    | _ => inl (TypeError "metadata.bounds.split is not a function")
    end
  else if truthy metadata && truthy (get_prop metadata "minzoom") then
    inr {| res_minZoom :=
             num_of_int (parseInt_val (num_str H) (get_prop metadata "minzoom") None);
           res_maxZoom :=
             num_of_int (parseInt_val (num_str H) (get_prop metadata "maxzoom") None);
           res_bounds := bounds |}
  else
    inr {| res_minZoom := minZoom; res_maxZoom := maxZoom; res_bounds := bounds |}.

Definition metadata_request (abort : AbortSignal) (name : string)
    (p : BlobSource) : M H HandlerResult :=
  let! header := await (pm_getHeader H p) in
  let! metadata := await (pm_getMetadata H p) in
  do! checkAborted abort 2 in
  let! r := await (resolve_metadata header metadata) in
  ret (RTileJson
         {| tilejson := "3.0.0";
            tiles := ["offline-pmtiles://" +:+ name +:+ "/{z}/{x}/{y}"];
            tj_minzoom := res_minZoom r;
            tj_maxzoom := res_maxZoom r;
            tj_bounds := res_bounds r |}).

Definition tile_request (abort : AbortSignal) (parts : list string)
    (p : BlobSource) : M H HandlerResult :=
  let z := parseInt (default "undefined" (parts !! 1%nat)) None in
  let x := parseInt (default "undefined" (parts !! 2%nat)) None in
  let y := parseInt (default "undefined" (parts !! 3%nat)) None in
  do! checkAborted abort 2 in
  let! response := await (pm_getZxy H p z x y) in
  do! checkAborted abort 3 in
  match response with
  | Some data => ret (RTile data)
  | None => ret RNoTile
  end.

(** The [catch] clause of the handler. *)
Definition handler_catch (e : JsError) : M H HandlerResult :=
  do! (if negb (String.eqb (err_message e) "Aborted")
       then emit (EErrorLog "" (Some e)) else ret tt) in
  throw e.

(** The scheme-specific path of a request URL, split on ['/']. *)
Definition url_parts (url : string) : list string :=
  split "/" (remove_first "offline-pmtiles://" url).

(** The handler: [params.url] and the abort controller. *)
Definition protocol_handler (url : string) (abort : AbortSignal)
    : M H HandlerResult :=
  let parts := url_parts url in
  let name := default "undefined" (parts !! 0%nat) in
  try_catch
    (do! checkAborted abort 0 in
     let! blob := getMapFile name in
     match blob with
     | None => throw (Error ("Map " +:+ name +:+ " not found in storage"))
     | Some blob =>
         do! checkAborted abort 1 in
         let p := new_BlobSource blob name in
         if (length parts =? 1)%nat then metadata_request abort name p
         else if (length parts =? 4)%nat then tile_request abort parts p
         else ret RUndefined
     end)
    handler_catch.
End Protocol.

(** ** The rendering engine (package [maplibre-gl])

    The calls the plugin makes on a map whose style is loaded.  A call the
    engine refuses by firing an error event leaves the style unchanged; only
    [addSource] and [removeSource] throw. *)

Section Engine.
Context {H : Host}.

(** The key under which the style holds a layer: its [id] as a property
    key. *)
Definition layer_key (l : JsVal) : string :=
  to_string (num_str H) (get_prop l "id").

Definition has_key (k : string) (l : JsVal) : bool :=
  String.eqb (layer_key l) k.

(** [map.getLayer(id)] *)
Definition engine_getLayer (m : MapState) (id : JsVal) : option JsVal :=
  List.find (has_key (to_string (num_str H) id)) (map_layers m).

Definition is_string (v : JsVal) : bool :=
  match v with VStr _ => true | _ => false end.

Fixpoint insert_before (k : string) (x : JsVal) (ls : list JsVal) : list JsVal :=
  match ls with
  | [] => []
  | l :: rest =>
      if has_key k l then x :: l :: rest else l :: insert_before k x rest
  end.

(** [map.addLayer(layer, before)]: refused when the id is taken, when the
    layer does not pass validation (the id must be a string), or when
    [before] names no layer. *)
Definition engine_addLayer (layer before : JsVal) (m : MapState) : MapState :=
  if bool_decide (is_Some (engine_getLayer m (get_prop layer "id"))) then m
  else if negb (is_string (get_prop layer "id")) then m
  else if negb (layer_valid H layer (map_sources m)) then m
  else if truthy before then
    if bool_decide (is_Some (engine_getLayer m before)) then
      {| map_layers := insert_before (to_string (num_str H) before) layer (map_layers m);
         map_sources := map_sources m |}
    else m
  else {| map_layers := map_layers m ++ [layer]; map_sources := map_sources m |}.

(** [map.removeLayer(id)] *)
Definition engine_removeLayer (id : string) (m : MapState) : MapState :=
  {| map_layers := List.filter (fun l => negb (has_key id l)) (map_layers m);
     map_sources := map_sources m |}.

(** [layer.source === id] *)
Definition uses_source (id : string) (l : JsVal) : bool :=
  strict_eq_prim (get_prop l "source") (VStr id).

(** [map.removeSource(id)]: throws without such a source, and is refused
    while a layer uses it. *)
Definition engine_removeSource (id : string) (m : MapState) : JsError + MapState :=
  match map_sources m !! id with
  | None => inl (Error "There is no source with this ID")
  | Some _ =>
      if existsb (uses_source id) (map_layers m) then inr m
      else inr {| map_layers := map_layers m;
                  map_sources := delete id (map_sources m) |}
  end.

(** [map.addSource(id, spec)]: throws when the id is taken. *)
Definition engine_addSource (id : string) (spec : SourceSpec) (m : MapState)
    : JsError + MapState :=
  match map_sources m !! id with
  | Some _ => inl (Error ("Source " +:+ id +:+ " already exists."))
  | None =>
      if source_valid H spec
      then inr {| map_layers := map_layers m;
                  map_sources := <[id := spec]> (map_sources m) |}
      else inr m
  end.

Definition map_getLayer (id : JsVal) : ST MapState (option JsVal) :=
  fun m => (Ret (engine_getLayer m id), m).

Definition map_getSource (id : string) : ST MapState (option SourceSpec) :=
  fun m => (Ret (map_sources m !! id), m).

(** [map.getStyle().layers]: a copy of the layers at the time of the call. *)
Definition map_getStyle_layers : ST MapState (list JsVal) :=
  fun m => (Ret (map_layers m), m).

Definition map_addLayer (layer before : JsVal) : ST MapState unit :=
  fun m => (Ret tt, engine_addLayer layer before m).

Definition map_removeLayer (id : string) : ST MapState unit :=
  fun m => (Ret tt, engine_removeLayer id m).

Definition map_removeSource (id : string) : ST MapState unit :=
  fun m =>
    match engine_removeSource id m with
    | inl e => (Throw e, m)
    | inr m' => (Ret tt, m')
    end.

Definition map_addSource (id : string) (spec : SourceSpec) : ST MapState unit :=
  fun m =>
    match engine_addSource id spec m with
    | inl e => (Throw e, m)
    | inr m' => (Ret tt, m')
    end.
End Engine.

(** ** The plugin: [loadMap] and its helpers *)

(** Object literals and the spread [{...v}]. *)
Definition set_prop (fields : list (string * JsVal)) (k : string) (v : JsVal)
    : list (string * JsVal) :=
  List.filter (fun kv => negb (String.eqb (fst kv) k)) fields ++ [(k, v)].

Definition spread (v : JsVal) : list (string * JsVal) :=
  match v with
  | VObj fields => fields
  | VArr items =>
      imap (fun i x => (string_of_Z (Z.of_nat i), x)) items
  | VStr s =>
      imap (fun i c => (string_of_Z (Z.of_nat i), VStr (String c EmptyString)))
           (list_ascii_of_string s)
  | _ => []
  end.

(** [v.length] for a value [v] that is not [null] or [undefined]. *)
Definition length_prop (v : JsVal) : JsVal :=
  match v with
  | VArr items => VNum (num_of_Z (Z.of_nat (length items)))
  | VStr s => VNum (num_of_Z (Z.of_nat (String.length s)))
  | _ => get_prop v "length"
  end.

Definition POLY_LAYERS : list string := ["earth"; "landuse"; "water"; "buildings"; "land"].
Definition LINE_LAYERS : list string := ["roads"; "transit"; "boundaries"; "transportation"].

(** [items.find(l => names.includes(l.id))]: reading [l.id] throws on a
    [null] or [undefined] element. *)
Fixpoint find_layer (names : list string) (items : list JsVal)
    : JsError + option JsVal :=
  match items with
  | [] => inr None
  | l :: rest =>
      match l with
      | VUndefined | VNull =>
          inl (TypeError "Cannot read properties of undefined (reading 'id')")
      | _ =>
          match get_prop l "id" with
          | VStr s =>
              if existsb (String.eqb s) names then inr (Some l)
              else find_layer names rest
          | _ => find_layer names rest
          end
      end
  end.

(** [x?.id] *)
Definition opt_id (x : option JsVal) : JsVal :=
  match x with
  | Some l => get_prop l "id"
  | None => VUndefined
  end.

(** The layers [loadMap] builds. *)
Definition raster_layer (sourceId name : string) : JsVal :=
  VObj [("id", VStr (name +:+ "-raster"));
        ("type", VStr "raster");
        ("source", VStr sourceId);
        ("paint", VObj [("raster-fade-duration", VNum (num_of_Z 0))])].

Definition background_layer : JsVal :=
  VObj [("id", VStr "background");
        ("type", VStr "background");
        ("paint", VObj [("background-color", VStr "#e0e0e0")])].

Definition fill_layer (sourceId name : string) (polyLayer : JsVal) : JsVal :=
  VObj [("id", VStr (name +:+ "-fill"));
        ("type", VStr "fill");
        ("source", VStr sourceId);
        ("source-layer", get_prop polyLayer "id");
        ("paint",
         VObj [("fill-color",
                VStr (if strict_eq_prim (get_prop polyLayer "id") (VStr "water")
                      then "#88ccff" else "#88aa88"));
               ("fill-opacity", VNum (Fin (6 # 10)));
               ("fill-outline-color", VStr "#ffffff")])].

Definition line_layer (sourceId name : string) (lineLayer : JsVal) : JsVal :=
  VObj [("id", VStr (name +:+ "-line"));
        ("type", VStr "line");
        ("source", VStr sourceId);
        ("source-layer", get_prop lineLayer "id");
        ("paint", VObj [("line-color", VStr "#555555")])].

Definition fallback_layer (sourceId name : string) : JsVal :=
  VObj [("id", VStr (name +:+ "-fallback-fill"));
        ("type", VStr "fill");
        ("source", VStr sourceId);
        ("source-layer", VStr "earth");
        ("paint", VObj [("fill-color", VStr "pink");
                        ("fill-opacity", VNum (Fin (1 # 2)))])].

Section LoadMap.
Context {H : Host}.

(** The local function [report] of [loadMap]. *)
Definition report_load (onProgress : bool) (code : Code) (message : string)
    : M H unit :=
  if onProgress then
    emit (EProgress {| st_code := code; st_message := message;
                       st_progress := None |})
  else emit (ELog ("[" +:+ code_str code +:+ "] " +:+ message)).

(** The callback of [forEach] in [_cleanup]. *)
Definition cleanup_layer (name : string) (l : JsVal) : ST MapState unit :=
  match get_prop l "id" with
  | VStr id =>
      if startsWith id (name +:+ "-") then map_removeLayer id else ret tt
  | _ => throw (TypeError "l.id.startsWith is not a function")
  end.

Definition _cleanup (name : string) : ST MapState unit :=
  let! layers := map_getStyle_layers in
  do! forEach (cleanup_layer name) layers in
  let sourceId := name +:+ "-source" in
  let! src := map_getSource sourceId in
  match src with
  | Some _ => map_removeSource sourceId
  | None => ret tt
  end.

Definition unloadMap (name : string) : M H unit := on_map (_cleanup name).

Definition _addRasterLayer (sourceId name : string) : ST MapState unit :=
  map_addLayer (raster_layer sourceId name) VUndefined.

(** The layer [_addCustomStyleLayers] makes of a layer of the stored style. *)
Definition custom_layer (sourceId name : string) (layer : JsVal) : JsVal :=
  let newLayer := spread layer in
  let id := default VUndefined (assoc_get "id" newLayer) in
  let prefixed := VStr (name +:+ "-" +:+ to_string (num_str H) id) in
  if strict_eq_prim (default VUndefined (assoc_get "type" newLayer)) (VStr "background")
  then VObj (set_prop newLayer "id" prefixed)
  else if truthy (default VUndefined (assoc_get "source" newLayer))
  then VObj (set_prop (set_prop newLayer "source" (VStr sourceId)) "id" prefixed)
  else VObj newLayer.

Definition add_custom_layer (sourceId name : string) (layer : JsVal)
    : ST MapState unit :=
  let newLayer := custom_layer sourceId name layer in
  let! existing := map_getLayer (get_prop newLayer "id") in
  match existing with
  | Some _ => ret tt
  | None => map_addLayer newLayer VUndefined
  end.

Definition _addCustomStyleLayers (style : JsVal) (sourceId name : string)
    : ST MapState unit :=
  match get_prop style "layers" with
  | VArr layers => forEach (add_custom_layer sourceId name) layers
  | _ => throw (TypeError "style.layers.forEach is not a function")
  end.

(** The id and the layer that [_addVectorLayers] makes of the vector layer
    [l] of index [i] that is not drawn as a fill or as a line. *)
Definition debug_id (name : string) (l : JsVal) : JsVal :=
  VStr (name +:+ "-debug-" +:+ to_string (num_str H) (get_prop l "id")).

Definition debug_layer (sourceId name : string) (i : nat) (l : JsVal) : JsVal :=
  VObj [("id", debug_id name l);
        ("type", VStr "line");
        ("source", VStr sourceId);
        ("source-layer", get_prop l "id");
        ("paint",
         VObj [("line-color",
                VStr ("hsl(" +:+ string_of_Z (Z.of_nat i * 60) +:+ ", 100%, 30%)"));
               ("line-width", VNum (num_of_Z 1))])].

(** [l.id === polyLayer?.id || l.id === lineLayer?.id] *)
Definition drawn (polyLayer lineLayer : option JsVal) (l : JsVal) : bool :=
  strict_eq_prim (get_prop l "id") (opt_id polyLayer)
  || strict_eq_prim (get_prop l "id") (opt_id lineLayer).

(** The callback of [vectorLayers.forEach] in [_addVectorLayers]. *)
Definition add_debug_layer (sourceId name : string)
    (polyLayer lineLayer : option JsVal) (il : nat * JsVal) : ST MapState unit :=
  let '(i, l) := il in
  match l with
  | VUndefined | VNull =>
      throw (TypeError "Cannot read properties of undefined (reading 'id')")
  | _ =>
      let! existing := map_getLayer (debug_id name l) in
      match existing with
      | Some _ => ret tt
      | None =>
          if drawn polyLayer lineLayer l then ret tt
          else map_addLayer (debug_layer sourceId name i l) VUndefined
      end
  end.

(** [metadata && metadata.vector_layers ? metadata.vector_layers : []] *)
Definition vector_layers (metadata : JsVal) : JsVal :=
  if truthy metadata && truthy (get_prop metadata "vector_layers")
  then get_prop metadata "vector_layers" else VArr [].

Definition _addVectorLayers (metadata : JsVal) (sourceId name : string)
    : ST MapState unit :=
  let! bg := map_getLayer (VStr "background") in
  do! (match bg with
       | Some _ => ret tt
       | None =>
           let! layers := map_getStyle_layers in
           map_addLayer background_layer (opt_id (head layers))
       end) in
  let vectorLayers := vector_layers metadata in
  if num_pos (to_number (num_str H) (length_prop vectorLayers)) then
    match vectorLayers with
    | VArr items =>
        let! polyLayer := await (find_layer POLY_LAYERS items) in
        do! (match polyLayer with
             | Some pl => map_addLayer (fill_layer sourceId name pl) VUndefined
             | None => ret tt
             end) in
        let! lineLayer := await (find_layer LINE_LAYERS items) in
        do! (match lineLayer with
             | Some ll => map_addLayer (line_layer sourceId name ll) VUndefined
             | None => ret tt
             end) in
        forEach (add_debug_layer sourceId name polyLayer lineLayer)
                (imap (fun i l => (i, l)) items)
    | _ => throw (TypeError "vectorLayers.find is not a function")
    end
  else map_addLayer (fallback_layer sourceId name) VUndefined.

(** [header.tileType === 1] *)
Definition is_vector (header : Header) : bool :=
  match tileType header with
  | Fin q => Qeq_bool q 1
  | _ => false
  end.

(** [(metadata?.vector_layers || []).length || (isVector ? 0 : 1)] *)
Definition layerCount (metadata : JsVal) (isVector : bool) : JsVal :=
  let vl := match metadata with
            | VUndefined | VNull => VUndefined
            | _ => get_prop metadata "vector_layers"
            end in
  let len := length_prop (if truthy vl then vl else VArr []) in
  if truthy len then len else VNum (num_of_Z (if isVector then 0 else 1)).

(** The source [loadMap] adds. *)
Definition archive_source (name : string) (header : Header) (metadata : JsVal)
    : SourceSpec :=
  let isVector := is_vector header in
  {| src_type := if isVector then "vector" else "raster";
     src_url := "offline-pmtiles://" +:+ name;
     src_tileSize := if isVector then 512 else 256;
     src_attribution :=
       if truthy metadata && truthy (get_prop metadata "attribution")
       then get_prop metadata "attribution" else VUndefined |}.

(** The helper [loadMap] calls to add the layers of a vector archive, by
    the style stored for it. *)
Definition vector_helper (storedStyle : option JsVal) (metadata : JsVal)
    (sourceId name : string) : ST MapState unit :=
  match storedStyle with
  | Some style =>
      if truthy style && truthy (get_prop style "layers")
      then _addCustomStyleLayers style sourceId name
      else _addVectorLayers metadata sourceId name
  | None => _addVectorLayers metadata sourceId name
  end.

(** Everything [loadMap] does after [_cleanup]. *)
Definition load_layers (name : string) (onProgress : bool) (blob : Blob)
    : M H unit :=
  let p := new_BlobSource blob name in
  let! header := await (pm_getHeader H p) in
  let! metadata := await (pm_getMetadata H p) in
  let isVector := is_vector header in
  let sourceId := name +:+ "-source" in
  do! on_map (map_addSource sourceId (archive_source name header metadata)) in
  do! (if isVector then
         let! storedStyle := getMapStyle name in
         on_map (vector_helper storedStyle metadata sourceId name)
       else on_map (_addRasterLayer sourceId name)) in
  let typeStr := if isVector then "Vector" else "Raster" in
  report_load onProgress COMPLETE
    ("Map " +:+ name +:+ " loaded (" +:+ typeStr +:+ ")! Layers: " +:+
     to_string (num_str H) (layerCount metadata isVector)).

Definition loadMap (name : string) (onProgress : bool) : M H unit :=
  let! blob := getMapFile name in
  match blob with
  | None => emit (EAlert ("Map " +:+ name +:+ " not found!"))
  | Some blob =>
      do! on_map (_cleanup name) in
      load_layers name onProgress blob
  end.
End LoadMap.

(** ** A scripted host

    The server answers the successive requests with the successive entries
    of a script and fails with a network error once the script is over; the
    storage accepts a record unless the archives stored afterwards exceed
    [quota] bytes; the archive reader is given by the three functions of
    [reader]. *)

Record Reader := {
  rd_header : BlobSource -> JsError + Header;
  rd_metadata : BlobSource -> JsError + JsVal;
  rd_zxy : BlobSource -> option Z -> option Z -> option Z -> JsError + option Blob
}.

Definition script_step (script : list (JsError + Response)) (req : Request)
    : (JsError + Response) * list (JsError + Response) :=
  match script with
  | [] => (inl (TypeError "Failed to fetch"), [])
  | r :: rest => (r, rest)
  end.

Definition quota_fault (quota : option Z) (d : Db) (rec : FileRecord) : option JsError :=
  match quota with
  | Some q =>
      if q <? blob_size (file_blob rec)
      then Some (mkError "QuotaExceededError" "The quota has been exceeded.")
      else None
  | None => None
  end.

Definition int_str (n : JsNum) : string :=
  match n with
  | NaN => "NaN"
  | Inf neg => if neg then "-Infinity" else "Infinity"
  | Fin q => string_of_Z (Qnum q / Zpos (Qden q))
  end.

Definition script_host (quota : option Z) (reader : Reader) : Host :=
  {| Server := list (JsError + Response);
     fetch_step := script_step;
     files_put_fault := quota_fault quota;
     files_get_fault := fun _ _ => None;
     styles_put_fault := fun _ _ => None;
     styles_get_fault := fun _ _ => None;
     JSON_parse := fun _ => inl (mkError "SyntaxError" "Unexpected token");
     num_str := int_str;
     pm_getHeader := rd_header reader;
     pm_getMetadata := rd_metadata reader;
     pm_getZxy := rd_zxy reader;
     layer_valid := fun _ _ => true;
     source_valid := fun _ => true |}.

Definition no_reader : Reader :=
  {| rd_header := fun _ => inl (Error "Wrong magic number for PMTiles archive");
     rd_metadata := fun _ => inl (Error "Wrong magic number for PMTiles archive");
     rd_zxy := fun _ _ _ _ => inl (Error "Wrong magic number for PMTiles archive") |}.

(** The scripted host without quota and without a readable archive. *)
Definition test_host : Host := script_host None no_reader.

Definition empty_db : Db := {| files := ∅; styles := ∅ |}.
Definition empty_map : MapState := {| map_layers := []; map_sources := ∅ |}.

Definition script_world (quota : option Z) (reader : Reader)
    (script : list (JsError + Response)) (d : Db) (m : MapState)
    : World (script_host quota reader) :=
  {| server := (script : Server (script_host quota reader));
     db := d; map := m; clock := 0; trace := [] |}.

(** A response of status [206] carrying [chunk], with the given
    [Content-Range] header. *)
Definition partial_response (contentRange : string) (chunk : Blob) : JsError + Response :=
  inr {| status := 206; content_range := Some contentRange;
         resp_blob := inr chunk; resp_json := inl (mkError "SyntaxError" "Unexpected token") |}.

(** A response of status [200] carrying [body]. *)
Definition full_response (body : Blob) : JsError + Response :=
  inr {| status := 200; content_range := None;
         resp_blob := inr body; resp_json := inl (mkError "SyntaxError" "Unexpected token") |}.

(** ** Reading a trace *)



(** The bodies received from the server, in fetch order. *)
Definition fetched (es : list Effect) : list Blob :=
  omap (fun e =>
          match e with
          | EFetch _ (inr r) =>
              match resp_blob r with inr b => Some b | inl _ => None end
          | _ => None
          end) es.

Definition is_error_code (c : Code) : bool :=
  match c with ERROR | ERROR_QUOTA => true | _ => false end.

(** ** Vocabulary for the statements about the metadata branch *)

(** The values the handler starts from: the header's. *)
Definition header_bounds (h : Header) : list JsNum :=
  [minLon h; minLat h; maxLon h; maxLat h].
Definition header_minZoom (h : Header) : JsNum := num_or (minZoom h) (num_of_Z 0).
Definition header_maxZoom (h : Header) : JsNum := num_or (maxZoom h) (num_of_Z 14).

(** Both longitude bounds of the header are zero (or NaN). *)
Definition degenerate (h : Header) : bool :=
  negb (num_truthy (minLon h)) && negb (num_truthy (maxLon h)).

(** The condition of the first [if]: degenerate header bounds and a truthy
    [metadata.bounds]. *)
Definition bounds_branch (h : Header) (metadata : JsVal) : bool :=
  degenerate h && truthy metadata && truthy (get_prop metadata "bounds").

(** ** Vocabulary for the statements about the protocol handler *)

(** The archive name of a request: the first component of its path. *)
Definition request_name (url : string) : string :=
  default "undefined" (url_parts url !! 0%nat).

(** [parseInt] of the component of index [i]. *)
Definition request_coord (url : string) (i : nat) : option Z :=
  parseInt (default "undefined" (url_parts url !! i)) None.

(** The request is not cancelled at any of the points where the handler
    polls the signal. *)
Definition not_aborted (abort : AbortSignal) : Prop :=
  match abort with
  | Some aborted => forall point, aborted point = false
  | None => True
  end.

(** The archive [name] is in storage, with content [blob], and can be read. *)
Definition stored {H : Host} (w : World H) (name : string) (blob : Blob) : Prop :=
  files_get_fault H (db w) name = None
  /\ file_blob <$> (files (db w) !! name) = Some blob.

(** An archive reader for an archive without tiles. *)
Definition empty_reader : Reader :=
  {| rd_header := fun _ =>
       inr {| minZoom := num_of_Z 0; maxZoom := num_of_Z 14;
              minLon := num_of_Z 0; minLat := num_of_Z 0;
              maxLon := num_of_Z 0; maxLat := num_of_Z 0;
              tileType := num_of_Z 1 |};
     rd_metadata := fun _ => inr VNull;
     rd_zxy := fun _ _ _ _ => inr None |}.

(** A database holding one archive. *)
Definition one_archive (name : string) (blob : Blob) : Db :=
  {| files := {[ name := {| file_name := name; file_blob := blob; file_date := 0 |} ]};
     styles := ∅ |}.

(** ** Vocabulary for the statements about [downloadMap] *)

(** An effect that is not the report of a failure. *)
Definition benign (e : Effect) : Prop :=
  match e with
  | EProgress s => is_error_code (st_code s) = false
  | _ => True
  end.

(** An effect that carries no percentage. *)
Definition no_percent (e : Effect) : Prop :=
  match e with
  | EProgress s => st_progress s = None
  | _ => True
  end.

(** An effect that is not a write to the table of archives. *)
Definition no_put (e : Effect) : Prop :=
  match e with
  | EPutFile _ => False
  | _ => True
  end.









(** The state of the chunk loop when it is entered. *)
Definition first_state (firstChunk : Blob) : LoopState :=
  {| chunks := [firstChunk]; receivedLength := blob_size firstChunk |}.

(** The script of a server that answers the successive range requests with
    the given chunks, each under its own [Content-Range] header. *)
Definition chunk_script (rs : list (string * Blob)) : list (JsError + Response) :=
  List.map (fun r => partial_response (fst r) (snd r)) rs.

(** ** Vocabulary for the statements about [loadMap] *)

(** The id of the source [loadMap] adds for an archive. *)
Definition source_id (name : string) : string := name +:+ "-source".

(** A layer whose id starts with [name-]: one that [_cleanup] removes. *)
Definition prefixed (name : string) (l : JsVal) : bool :=
  match get_prop l "id" with
  | VStr id => startsWith id (name +:+ "-")
  | _ => false
  end.

(** A layer whose id is a string. *)
Definition string_id (l : JsVal) : bool := is_string (get_prop l "id").

(** What the rendering engine maintains of a style, as far as [loadMap]
    relies on it: no two layers have the same id, and the source
    [name-source] exists if a layer uses it. *)
Record map_wf {H : Host} (name : string) (m : MapState) : Prop := {
  wf_keys : NoDup (List.map layer_key (map_layers m));
  wf_source :
    existsb (uses_source (source_id name)) (map_layers m) = true ->
    is_Some (map_sources m !! source_id name)
}.

(** The map after [_cleanup]: the layers that are not prefixed, and the
    sources without [name-source] unless a remaining layer uses it. *)
Definition cleaned (name : string) (m : MapState) : MapState :=
  let layers := List.filter (fun l => negb (prefixed name l)) (map_layers m) in
  {| map_layers := layers;
     map_sources :=
       if existsb (uses_source (source_id name)) layers
       then map_sources m
       else delete (source_id name) (map_sources m) |}.

(** A layer to add, at the bottom of the style ([true]) or on top. *)
Definition Candidate : Type := JsVal * bool.

Section Plans.
Context {H : Host}.

Definition add_candidate (c : Candidate) (m : MapState) : MapState :=
  engine_addLayer (fst c)
    (if snd c then opt_id (head (map_layers m)) else VUndefined) m.

Definition add_candidates (cs : list Candidate) (m : MapState) : MapState :=
  fold_left (fun m c => add_candidate c m) cs m.

(** The engine accepts the layer [c] in the style [m]. *)
Definition accepts (m : MapState) (c : JsVal) : bool :=
  negb (bool_decide (is_Some (engine_getLayer m (get_prop c "id"))))
  && is_string (get_prop c "id")
  && layer_valid H c (map_sources m).

(** What a helper of [loadMap] does to a style: the layers it proposes to
    the engine, in order, and how it ends. *)
Definition Plan : Type := list Candidate * Outcome unit.

Definition raster_plan (sourceId name : string) : Plan :=
  ([(raster_layer sourceId name, false)], Ret tt).

Definition custom_plan (style : JsVal) (sourceId name : string) : Plan :=
  match get_prop style "layers" with
  | VArr layers =>
      (List.map (fun l => (custom_layer sourceId name l, false)) layers, Ret tt)
  | _ => ([], Throw (TypeError "style.layers.forEach is not a function"))
  end.

Fixpoint debug_plan (sourceId name : string) (polyLayer lineLayer : option JsVal)
    (ils : list (nat * JsVal)) : Plan :=
  match ils with
  | [] => ([], Ret tt)
  | (i, l) :: rest =>
      match l with
      | VUndefined | VNull =>
          ([], Throw (TypeError "Cannot read properties of undefined (reading 'id')"))
      | _ =>
          let '(cs, o) := debug_plan sourceId name polyLayer lineLayer rest in
          if drawn polyLayer lineLayer l then (cs, o)
          else ((debug_layer sourceId name i l, false) :: cs, o)
      end
  end.

Definition optional_layer (f : JsVal -> JsVal) (found : option JsVal)
    : list Candidate :=
  match found with
  | Some l => [(f l, false)]
  | None => []
  end.

Definition vector_plan (metadata : JsVal) (sourceId name : string) : Plan :=
  let bg : Candidate := (background_layer, true) in
  let vectorLayers := vector_layers metadata in
  if num_pos (to_number (num_str H) (length_prop vectorLayers)) then
    match vectorLayers with
    | VArr items =>
        match find_layer POLY_LAYERS items with
        | inl e => ([bg], Throw e)
        | inr polyLayer =>
            let fill := optional_layer (fill_layer sourceId name) polyLayer in
            match find_layer LINE_LAYERS items with
            | inl e => (bg :: fill, Throw e)
            | inr lineLayer =>
                let line := optional_layer (line_layer sourceId name) lineLayer in
                let '(cs, o) :=
                  debug_plan sourceId name polyLayer lineLayer
                    (imap (fun i l => (i, l)) items) in
                (bg :: fill ++ line ++ cs, o)
            end
        end
    | _ => ([bg], Throw (TypeError "vectorLayers.find is not a function"))
    end
  else ([bg; (fallback_layer sourceId name, false)], Ret tt).

Definition vector_helper_plan (storedStyle : option JsVal) (metadata : JsVal)
    (sourceId name : string) : Plan :=
  match storedStyle with
  | Some style =>
      if truthy style && truthy (get_prop style "layers")
      then custom_plan style sourceId name
      else vector_plan metadata sourceId name
  | None => vector_plan metadata sourceId name
  end.

(** The style stored for an archive, as [getMapStyle] returns it. *)
Definition stored_style (d : Db) (name : string) : option JsVal :=
  match styles_get_fault H d name with
  | Some _ => None
  | None => style_doc <$> (styles d !! name)
  end.

(** The helper that adds the layers of an archive, and its plan. *)
Definition layers_helper (d : Db) (header : Header) (metadata : JsVal)
    (name : string) : ST MapState unit :=
  if is_vector header
  then vector_helper (stored_style d name) metadata (source_id name) name
  else _addRasterLayer (source_id name) name.

Definition layers_plan (d : Db) (header : Header) (metadata : JsVal)
    (name : string) : Plan :=
  if is_vector header
  then vector_helper_plan (stored_style d name) metadata (source_id name) name
  else raster_plan (source_id name) name.

(** A helper follows a plan: from any style it ends as the plan says, having
    proposed the layers of the plan. *)
Definition follows (f : ST MapState unit) (p : Plan) : Prop :=
  forall m, f m = (snd p, add_candidates (fst p) m).

(** The layers of a plan that use the source [name-source] are prefixed. *)
Definition plan_prefixed (name : string) (p : Plan) : Prop :=
  forall c, In c (fst p) ->
            uses_source (source_id name) (fst c) = true ->
            prefixed name (fst c) = true.
End Plans.

(** ** Worlds used in examples *)

(** No archive stored, and a server that answers nothing. *)
Definition idle_world : World test_host :=
  script_world None no_reader [] empty_db empty_map.

(** A storage that holds at most three bytes, and a server that answers
    the first request with a full response of four bytes. *)
Definition four_bytes : Blob := [Byte.x50; Byte.x4d; Byte.x54; Byte.x69].


(** A server that announces 10 bytes, has sent a first chunk of 4 bytes and
    answers the next range request with 10 bytes. *)
Definition ten_bytes : Blob := repeat Byte.x2a 10.




(** A server that sends an archive of 10 bytes in chunks of 4, 5 and 1. *)
Definition three_chunks_world : World test_host :=
  script_world None no_reader
    [partial_response "bytes 0-3/10" four_bytes;
     partial_response "bytes 4-8/10" (repeat Byte.x2a 5);
     partial_response "bytes 9-9/10" [Byte.x2a]]
    empty_db empty_map.

(** The world where one archive is stored and nothing else has happened. *)
Definition archive_world (reader : Reader) (name : string) (blob : Blob)
    : World (script_host None reader) :=
  script_world None reader [] (one_archive name blob) empty_map.

(** A reader for a raster archive, and the world where the archive [paris]
    is stored and the map is empty. *)
Definition raster_reader : Reader :=
  {| rd_header := fun _ =>
       inr {| minZoom := num_of_Z 0; maxZoom := num_of_Z 14;
              minLon := num_of_Z 0; minLat := num_of_Z 0;
              maxLon := num_of_Z 0; maxLat := num_of_Z 0;
              tileType := num_of_Z 2 |};
     rd_metadata := fun _ => inr VNull;
     rd_zxy := fun _ _ _ _ => inr None |}.

Definition raster_world : World (script_host None raster_reader) :=
  archive_world raster_reader "paris" four_bytes.

(** A map that already shows an older load of [paris] over a base layer,
    and the world where the raster archive [paris] is stored. *)
Definition stale_map : MapState :=
  {| map_layers :=
       [VObj [("id", VStr "base"); ("type", VStr "background")];
        VObj [("id", VStr "paris-old"); ("type", VStr "raster");
              ("source", VStr "paris-source")]];
     map_sources :=
       {[ "paris-source" :=
            {| src_type := "raster"; src_url := "offline-pmtiles://paris";
               src_tileSize := 256; src_attribution := VUndefined |} ]} |}.

Definition stale_world : World (script_host None raster_reader) :=
  script_world None raster_reader [] (one_archive "paris" four_bytes) stale_map.

(** ** Vocabulary for the effects of a computation *)

(** [m] only appends to the trace, what it appends satisfies [P], and it
    changes the table of archives only by the writes it records. *)
Definition emits {H : Host} {A} (P : Effect -> Prop) (m : M H A) : Prop :=
  forall w o w',
    m w = (o, w') ->
    exists es,
      trace w' = trace w ++ es
      /\ Forall P es
      /\ (Forall no_put es -> files (db w') = files (db w)).

(** Outside the chunk loop, [downloadMap] fetches, logs and reports
    statuses that are neither failures nor percentages. *)
Definition plain (e : Effect) : Prop := benign e /\ no_percent e.


(** The request of the iteration entered in state [st]. *)
Definition chunk_request (url : string) (st : LoopState) : Request :=
  {| req_url := url; req_range := Some (receivedLength st) |}.

(** A layer that one of the layers [ls] condemns: a prefixed layer of [ls]
    has its key. *)
Definition doomed {H : Host} (name : string) (ls : list JsVal) (l' : JsVal) : bool :=
  existsb (fun l => prefixed name l && has_key (layer_key l) l') ls.

(** The status [loadMap] reports at its end. *)
Definition loaded_effect {H : Host} (name : string) (onProgress : bool)
    (header : Header) (metadata : JsVal) : Effect :=
  let isVector := is_vector header in
  let message :=
    "Map " +:+ name +:+ " loaded (" +:+ (if isVector then "Vector" else "Raster")
    +:+ ")! Layers: " +:+ to_string (num_str H) (layerCount metadata isVector) in
  if onProgress then
    EProgress {| st_code := COMPLETE; st_message := message; st_progress := None |}
  else ELog ("[" +:+ code_str COMPLETE +:+ "] " +:+ message).

(** ** [src/db.js]: deletion and listing

    The remaining functions of the module call Dexie's [delete] and
    [toArray].  Why Dexie would reject these calls is a further part of the
    host. *)

Record StoreFaults := {
  files_delete_fault : Db -> string -> option JsError;
  styles_delete_fault : Db -> string -> option JsError;
  files_list_fault : Db -> option JsError
}.

(** The order of the primary keys of a table: strings by their code units. *)
Definition key_le {A} (a b : string * A) : Prop :=
  String.leb (fst a) (fst b) = true.

#[global] Instance key_le_dec {A} (a b : string * A) : Decision (key_le a b).
Proof. unfold key_le. apply _. Defined.

(** The records of a table in the order of their keys. *)
Definition table_rows {A} (t : gmap string A) : list A :=
  (merge_sort key_le (map_to_list t)).*2.

Section Deletion.
Context {H : Host}.
Variable F : StoreFaults.

(** The world with another database. *)
Definition with_db (w : World H) (d : Db) : World H :=
  {| server := server w; db := d; map := map w;
     clock := clock w; trace := trace w |}.

(** [await db.files.delete(name)]: deleting an absent key succeeds. *)
Definition files_delete (name : string) : M H unit :=
  fun w =>
    match files_delete_fault F (db w) name with
    | Some e => (Throw e, w)
    | None =>
        (Ret tt, with_db w {| files := delete name (files (db w));
                              styles := styles (db w) |})
    end.

(** [await db.styles.delete(name)] *)
Definition styles_delete (name : string) : M H unit :=
  fun w =>
    match styles_delete_fault F (db w) name with
    | Some e => (Throw e, w)
    | None =>
        (Ret tt, with_db w {| files := files (db w);
                              styles := delete name (styles (db w)) |})
    end.

(** [await db.files.toArray()] *)
Definition files_toArray : M H (list FileRecord) :=
  fun w =>
    match files_list_fault F (db w) with
    | Some e => (Throw e, w)
    | None => (Ret (table_rows (files (db w))), w)
    end.

Definition deleteMapStyle (name : string) : M H unit := styles_delete name.

Definition listMapFiles : M H (list FileRecord) := files_toArray.

Definition deleteMapFile (name : string) : M H unit := files_delete name.

(** ** The plugin: [removeMap]

    [has_map] tells whether the caller passed a map; the local function
    [report] is the one of [loadMap]. *)
Definition removeMap (has_map : bool) (name : string) (onProgress : bool)
    : M H unit :=
  do! (if has_map then on_map (_cleanup name) else ret tt) in
  do! deleteMapFile name in
  do! deleteMapStyle name in
  report_load onProgress COMPLETE
    ("Storage (map + style) cleared for " +:+ name +:+ ".").
End Deletion.

(** ** The plugin: [toggleMap] *)

Section Toggle.
Context {H : Host}.

Definition layout_fields (l : JsVal) : list (string * JsVal) :=
  match get_prop l "layout" with
  | VObj fields => fields
  | _ => []
  end.

(** [layer.getLayoutProperty('visibility')] *)
Definition visibility (l : JsVal) : JsVal :=
  get_prop (get_prop l "layout") "visibility".

(** A layer after [setLayoutProperty(id, 'visibility', value)]: nothing
    changes when it has that value already. *)
Definition set_visibility (value : string) (l : JsVal) : JsVal :=
  if strict_eq_prim (visibility l) (VStr value) then l
  else
    match l with
    | VObj fields =>
        VObj (set_prop fields "layout"
                (VObj (set_prop (layout_fields l) "visibility" (VStr value))))
    | _ => l
    end.

(** [map.setLayoutProperty(id, 'visibility', value)] for one of the two
    values of the property: refused (by an error event) when no layer has
    the id. *)
Definition engine_setLayoutProperty (id value : string) (m : MapState) : MapState :=
  {| map_layers :=
       List.map (fun l => if has_key id l then set_visibility value l else l)
                (map_layers m);
     map_sources := map_sources m |}.

Definition map_setLayoutProperty (id value : string) : ST MapState unit :=
  fun m => (Ret tt, engine_setLayoutProperty id value m).

(** [visible ? 'visible' : 'none'] *)
Definition visibility_value (visible : bool) : string :=
  if visible then "visible" else "none".

(** The callback of [forEach] in [toggleMap]. *)
Definition toggle_layer (name : string) (visible : bool) (l : JsVal)
    : ST MapState unit :=
  match get_prop l "id" with
  | VStr id =>
      if startsWith id (name +:+ "-")
      then map_setLayoutProperty id (visibility_value visible)
      else ret tt
  | _ => throw (TypeError "l.id.startsWith is not a function")
  end.

Definition toggleMap (name : string) (visible : bool) : ST MapState unit :=
  let! layers := map_getStyle_layers in
  forEach (toggle_layer name visible) layers.
End Toggle.

(** ** The plugin: [getStorageUsage] *)





(** ** Hosts used in examples of storage *)

(** A host whose database rejects every call. *)
Definition closed_error : JsError :=
  mkError "DatabaseClosedError" "Database has been closed".

Definition closed_host : Host :=
  {| Server := list (JsError + Response);
     fetch_step := script_step;
     files_put_fault := fun _ _ => Some closed_error;
     files_get_fault := fun _ _ => Some closed_error;
     styles_put_fault := fun _ _ => Some closed_error;
     styles_get_fault := fun _ _ => Some closed_error;
     JSON_parse := fun _ => inl (mkError "SyntaxError" "Unexpected token");
     num_str := int_str;
     pm_getHeader := rd_header no_reader;
     pm_getMetadata := rd_metadata no_reader;
     pm_getZxy := rd_zxy no_reader;
     layer_valid := fun _ _ => true;
     source_valid := fun _ => true |}.

Definition closed_world : World closed_host :=
  {| server := ([] : Server closed_host); db := empty_db; map := empty_map;
     clock := 0; trace := [] |}.

(** Deletions and listings that always go through, and deletions of
    archives that never do. *)
Definition no_faults : StoreFaults :=
  {| files_delete_fault := fun _ _ => None;
     styles_delete_fault := fun _ _ => None;
     files_list_fault := fun _ => None |}.

Definition locked_files : StoreFaults :=
  {| files_delete_fault := fun _ _ => Some closed_error;
     styles_delete_fault := fun _ _ => None;
     files_list_fault := fun _ => None |}.

(** A database with two archives and the style of one of them. *)
Definition two_archives : Db :=
  {| files :=
       {[ "paris" := {| file_name := "paris"; file_blob := four_bytes; file_date := 0 |};
          "lyon" := {| file_name := "lyon"; file_blob := ten_bytes; file_date := 1 |} ]};
     styles :=
       {[ "paris" := {| style_name := "paris";
                        style_doc := VObj [("version", VNum (num_of_Z 8))];
                        style_date := 0 |} ]} |}.

Definition two_archives_world : World test_host :=
  script_world None no_reader [] two_archives empty_map.

(** The status [removeMap] reports at its end. *)
Definition cleared_effect (name : string) (onProgress : bool) : Effect :=
  let message := "Storage (map + style) cleared for " +:+ name +:+ "." in
  if onProgress then
    EProgress {| st_code := COMPLETE; st_message := message; st_progress := None |}
  else ELog ("[" +:+ code_str COMPLETE +:+ "] " +:+ message).

(** The database without the archive and the style of [name]. *)
Definition without (name : string) (d : Db) : Db :=
  {| files := delete name (files d); styles := delete name (styles d) |}.

(** The database without the archive of [name]. *)
Definition without_file (name : string) (d : Db) : Db :=
  {| files := delete name (files d); styles := styles d |}.

(** The world where two archives are stored and the map shows [paris] over
    a base layer. *)
Definition shown_world : World test_host :=
  script_world None no_reader [] two_archives stale_map.

(** A map that shows the raster archives [paris] and [paris-nord]. *)
Definition twin_map : MapState :=
  {| map_layers :=
       [raster_layer "paris-source" "paris";
        raster_layer "paris-nord-source" "paris-nord"];
     map_sources :=
       {[ "paris-source" :=
            {| src_type := "raster"; src_url := "offline-pmtiles://paris";
               src_tileSize := 256; src_attribution := VUndefined |};
          "paris-nord-source" :=
            {| src_type := "raster"; src_url := "offline-pmtiles://paris-nord";
               src_tileSize := 256; src_attribution := VUndefined |} ]} |}.

Definition twin_world : World test_host :=
  script_world None no_reader [] empty_db twin_map.

(** A reader for a vector archive without metadata, and the world where the
    archive [paris] is stored and the map shows a base layer. *)
Definition vector_reader : Reader :=
  {| rd_header := fun _ =>
       inr {| minZoom := num_of_Z 0; maxZoom := num_of_Z 14;
              minLon := num_of_Z 0; minLat := num_of_Z 0;
              maxLon := num_of_Z 0; maxLat := num_of_Z 0;
              tileType := num_of_Z 1 |};
     rd_metadata := fun _ => inr VNull;
     rd_zxy := fun _ _ _ _ => inr (Some four_bytes) |}.

Definition base_map : MapState :=
  {| map_layers := [VObj [("id", VStr "base"); ("type", VStr "raster")]];
     map_sources := ∅ |}.

Definition vector_world : World (script_host None vector_reader) :=
  script_world None vector_reader [] (one_archive "paris" four_bytes) base_map.

(** ** Vocabulary for the statements about [toggleMap] *)

(** The style after [toggleMap]: the prefixed layers with the visibility
    set, the other layers and the sources as they were. *)
Definition toggled (name : string) (visible : bool) (m : MapState) : MapState :=
  {| map_layers :=
       List.map (fun l => if prefixed name l
                          then set_visibility (visibility_value visible) l
                          else l)
                (map_layers m);
     map_sources := map_sources m |}.

(** What [toggleMap] makes of one layer: every property but [layout] is
    kept, a prefixed layer has the visibility asked for, and any other layer
    is as it was. *)
Definition toggled_layer (name : string) (visible : bool) (l l' : JsVal) : Prop :=
  (forall k, k <> "layout" -> get_prop l' k = get_prop l k)
  /\ if prefixed name l then visibility l' = VStr (visibility_value visible)
     else l' = l.

(** A map that shows [paris], hidden, over a visible base layer. *)
Definition hidden_map : MapState :=
  {| map_layers :=
       [VObj [("id", VStr "base"); ("type", VStr "background")];
        VObj [("id", VStr "paris-raster"); ("type", VStr "raster");
              ("source", VStr "paris-source");
              ("layout", VObj [("visibility", VStr "none")])]];
     map_sources :=
       {[ "paris-source" :=
            {| src_type := "raster"; src_url := "offline-pmtiles://paris";
               src_tileSize := 256; src_attribution := VUndefined |} ]} |}.

(** ** Further vocabulary for the statements about the protocol handler *)

(** A computation that leaves the world as it is, however it ends. *)
Definition stays {H : Host} {A} (m : M H A) : Prop :=
  forall w o w', m w = (o, w') -> w' = w.

(** What the [catch] clause of the handler writes to the error console:
    nothing for an error whose message is [Aborted]. *)
Definition handler_log (o : Outcome HandlerResult) : list Effect :=
  match o with
  | Throw e =>
      if String.eqb (err_message e) "Aborted" then [] else [EErrorLog "" (Some e)]
  | _ => []
  end.

(** The number of points at which the handler polls the signal on its way
    to a result, by the number of components of the path. *)
Definition polled (components : nat) : nat :=
  if (components =? 1)%nat then 3%nat
  else if (components =? 4)%nat then 4%nat
  else 2%nat.

(** The line [getMapFile] writes to the error console. *)
Definition read_failure (name : string) (e : JsError) : Effect :=
  EErrorLog ("Failed to get " +:+ name +:+ ":") (Some e).

(** The error of the handler for an archive that is not stored. *)
Definition not_in_storage (name : string) : JsError :=
  Error ("Map " +:+ name +:+ " not found in storage").

(** ** Vocabulary for the statements about URLs and numerals *)

(** The separator does not occur in the string. *)
Definition free_of (sep : ascii) (s : string) : bool :=
  forallb (fun c => negb (Ascii.eqb c sep)) (list_ascii_of_string s).



(** The URL of the source that [loadMap] adds for the archive [name]. *)
Definition source_url (name : string) : string := "offline-pmtiles://" +:+ name.

(** ** Further vocabulary for the statements about [loadMap] *)

(** A computation that leaves the database, the server and the clock as
    they are, however it ends. *)
Definition keeps_storage {H : Host} {A} (m : M H A) : Prop :=
  forall w o w',
    m w = (o, w') -> db w' = db w /\ server w' = server w /\ clock w' = clock w.

(** The style after [loadMap] has shown a raster archive on the style [m]. *)
Definition raster_shown (name : string) (spec : SourceSpec) (m : MapState)
    : MapState :=
  {| map_layers :=
       map_layers (cleaned name m) ++ [raster_layer (source_id name) name];
     map_sources := <[source_id name := spec]> (map_sources (cleaned name m)) |}.

(** ** Further vocabulary for the statements about [downloadMap] *)

(** A computation whose final world is related to its initial world by [R],
    however it ends. *)
Definition preserves {H : Host} {A} (R : World H -> World H -> Prop) (m : M H A)
    : Prop :=
  forall w o w', m w = (o, w') -> R w w'.

(** The map and the clock are the same, and so are the archive and the
    style of every name but [name]. *)
Definition same_but {H : Host} (name : string) (w w' : World H) : Prop :=
  map w' = map w /\ clock w' = clock w
  /\ forall other, other <> name ->
       files (db w') !! other = files (db w) !! other
       /\ styles (db w') !! other = styles (db w) !! other.

(** The table of styles is the same. *)
Definition same_styles {H : Host} (w w' : World H) : Prop :=
  styles (db w') = styles (db w).

(** A style source of which [downloadMap] makes no style: a falsy value, a
    blank string, or a value that is neither a string nor an object. *)
Definition style_ignored (styleSource : JsVal) : bool :=
  match styleSource with
  | VStr s => String.eqb (trim s) ""
  | VArr _ | VObj _ => false
  | _ => true
  end.

(** A computation that writes the table of archives at most once, under
    [name], and whose write is still there at the end. *)
Definition writes_once {H : Host} {A} (name : string) (m : M H A) : Prop :=
  forall w o w',
    m w = (o, w') ->
    exists es,
      trace w' = trace w ++ es
      /\ (Forall no_put es /\ files (db w') = files (db w)
          \/ exists pre rec post,
               es = pre ++ EPutFile rec :: post
               /\ Forall no_put pre /\ Forall no_put post
               /\ file_name rec = name
               /\ files (db w') = <[name := rec]> (files (db w))).



(** A server that sends an archive of four bytes in one response, and then
    fails to send the style. *)
Definition style_less_world : World test_host :=
  script_world None no_reader [full_response four_bytes] two_archives stale_map.

(** * Properties *)

Arguments percent _ _ : simpl never.
Arguments megabytes _ : simpl never.
Arguments render_fixed _ : simpl never.
Arguments string_of_Z _ : simpl never.
Arguments report_effect _ _ _ _ : simpl never.

(** ** [BlobSource.getBytes] *)

Lemma blob_slice_take_drop (b : Blob) (offset length : Z) :
  0 <= offset -> 0 <= length ->
  blob_slice b offset (offset + length) =
  take (Z.to_nat length) (drop (Z.to_nat offset) b).
Proof.
  intros Ho Hl. unfold blob_slice, clamp_index, blob_size.
  destruct (offset <? 0) eqn:E1; [lia |].
  destruct (offset + length <? 0) eqn:E2; [lia |].
  set (size := Z.of_nat (List.length b)).
  destruct (Z_le_gt_dec size offset) as [Hge | Hlt].
  - rewrite !(drop_ge b) by lia. by rewrite !take_nil.
  - replace (Z.min offset size) with offset by lia.
    destruct (Z_le_gt_dec (offset + length) size) as [Hin | Hout].
    + f_equal. lia.
    + rewrite !take_ge; [done | |]; rewrite length_drop; lia.
Qed.

Lemma blob_slice_size (b : Blob) (offset length : Z) :
  0 <= offset -> 0 <= length ->
  blob_size (blob_slice b offset (offset + length)) =
  Z.max 0 (Z.min length (blob_size b - offset)).
Proof.
  intros Ho Hl. rewrite blob_slice_take_drop by done.
  unfold blob_size. rewrite length_take, length_drop. lia.
Qed.

(** C9, as stated, fails: on a blob of 10 bytes, [getBytes(8, 5)] succeeds
    and returns 2 bytes, fewer than the 5 requested. *)
Lemma getBytes_short_read :
  let src := new_BlobSource (repeat Byte.x2a 10) "archive" in
  getBytes None src 8 5 = inr [Byte.x2a; Byte.x2a]
  /\ (length [Byte.x2a; Byte.x2a] < 5)%nat.
Proof. split; [reflexivity | simpl; lia]. Qed.

(** C9 (amended): for a non-negative offset and length, [getBytes] fails
    exactly when the host cannot read the blob, whatever the range is; it
    otherwise returns the bytes of the blob from [offset] up to
    [offset + length] or the end of the blob, whichever comes first: exactly
    [length] bytes when the range lies inside the blob, and fewer (possibly
    none) when it does not. *)
Theorem getBytes_clamped (fault : option JsError) (src : BlobSource)
    (offset length : Z) :
  0 <= offset -> 0 <= length ->
  getBytes fault src offset length =
    match fault with
    | Some e => inl e
    | None => inr (take (Z.to_nat length) (drop (Z.to_nat offset) (bs_blob src)))
    end
  /\ (forall data, getBytes fault src offset length = inr data ->
        blob_size data = Z.max 0 (Z.min length (blob_size (bs_blob src) - offset))
        /\ (offset + length <= blob_size (bs_blob src) -> blob_size data = length)).
Proof.
  intros Ho Hl. unfold getBytes, arrayBuffer. split.
  - destruct fault; [done |]. by rewrite blob_slice_take_drop.
  - intros data Hd. destruct fault; [done |]. injection Hd as <-.
    rewrite blob_slice_size by done. split; lia.
Qed.

Lemma getBytes_clamped_witness :
  0 <= 2 /\ 0 <= 3 /\
  getBytes None (new_BlobSource (repeat Byte.x2a 10) "archive") 2 3 =
    inr [Byte.x2a; Byte.x2a; Byte.x2a].
Proof.
  split; [lia |]. split; [lia |].
  exact (proj1 (getBytes_clamped None (new_BlobSource (repeat Byte.x2a 10) "archive") 2 3
                  ltac:(lia) ltac:(lia))).
Defined.

(** ** The metadata branch of the protocol handler *)

Lemma split_length_pos (sep : ascii) (s : string) : (0 < length (split sep s))%nat.
Proof.
  induction s as [| c s IH]; simpl; [lia |].
  destruct (Ascii.eqb c sep); simpl; [lia |].
  destruct (split sep s); simpl; lia.
Qed.

Lemma split_empty (sep : ascii) : split sep "" = [""].
Proof. reflexivity. Qed.

Section Metadata.
Context {H : Host}.


(** C5 (amended): when both longitude bounds of the header are zero and
    [metadata.bounds] is a string of four comma-separated components, the
    resolved bounds are the numbers of these components and the zooms are
    the header's; when the condition of the first [if] fails (the header
    bounds are not degenerate, or the metadata has no truthy [bounds]) and
    [metadata.minzoom] is truthy, the zooms are [parseInt] of
    [metadata.minzoom] and [metadata.maxzoom] and the bounds are the
    header's; and in every case either the bounds or the zooms are the
    header's: the two overrides never both apply. *)
Theorem resolve_metadata_policy (header : Header) (metadata : JsVal) :
  (forall s,
      degenerate header = true ->
      get_prop metadata "bounds" = VStr s ->
      length (split "," s) = 4%nat ->
      resolve_metadata header metadata =
        inr {| res_minZoom := header_minZoom header;
               res_maxZoom := header_maxZoom header;
               res_bounds := List.map Number (split "," s) |})
  /\ (bounds_branch header metadata = false ->
      truthy metadata = true ->
      truthy (get_prop metadata "minzoom") = true ->
      resolve_metadata header metadata =
        inr {| res_minZoom :=
                 num_of_int (parseInt_val (num_str H) (get_prop metadata "minzoom") None);
               res_maxZoom :=
                 num_of_int (parseInt_val (num_str H) (get_prop metadata "maxzoom") None);
               res_bounds := header_bounds header |})
  /\ (forall r,
      resolve_metadata header metadata = inr r ->
      res_bounds r = header_bounds header
      \/ (res_minZoom r = header_minZoom header
          /\ res_maxZoom r = header_maxZoom header)).
Proof.
  unfold resolve_metadata, bounds_branch, degenerate, header_bounds,
    header_minZoom, header_maxZoom.
  split; [| split].
  - intros s Hd Hb Hlen.
    assert (Hm : truthy metadata = true).
    { destruct metadata; simpl in Hb; try discriminate. reflexivity. }
    assert (Hs : str_truthy s = true).
    { destruct s; [| reflexivity]. rewrite split_empty in Hlen. discriminate. }
    rewrite Hd, Hm, Hb. simpl. rewrite Hs. simpl.
    rewrite length_map, Hlen. reflexivity.
  - intros Hc Hm Hz. rewrite Hc, Hm, Hz. reflexivity.
  - intros r.
    destruct (negb (num_truthy (minLon header)) && negb (num_truthy (maxLon header))
              && truthy metadata && truthy (get_prop metadata "bounds")).
    + destruct (get_prop metadata "bounds"); try discriminate.
      intros [= <-]. right. split; reflexivity.
    + destruct (truthy metadata && truthy (get_prop metadata "minzoom"));
        intros [= <-]; simpl; [left | left]; reflexivity.
Qed.

End Metadata.

(** C5, as stated, fails: the header bounds are all zero and the metadata
    declares a [bounds] string of three numbers, so the bounds fallback is
    not used; the metadata declares the numeric zooms 2 and 10, and the
    resolved zooms are still the header's 1 and 14. *)
Lemma resolve_metadata_zoom_not_overridden :
  let header :=
    {| minZoom := num_of_Z 1; maxZoom := num_of_Z 14;
       minLon := num_of_Z 0; minLat := num_of_Z 0;
       maxLon := num_of_Z 0; maxLat := num_of_Z 0;
       tileType := num_of_Z 1 |} in
  let metadata :=
    VObj [("bounds", VStr "1,2,3");
          ("minzoom", VNum (num_of_Z 2));
          ("maxzoom", VNum (num_of_Z 10))] in
  exists r,
    resolve_metadata (H := test_host) header metadata = inr r
    /\ length (List.map Number (split "," "1,2,3")) = 3%nat
    /\ res_bounds r = header_bounds header
    /\ get_prop metadata "minzoom" = VNum (num_of_Z 2)
    /\ get_prop metadata "maxzoom" = VNum (num_of_Z 10)
    /\ res_minZoom r = num_of_Z 1 /\ res_minZoom r <> num_of_Z 2
    /\ res_maxZoom r = num_of_Z 14 /\ res_maxZoom r <> num_of_Z 10.
Proof.
  eexists. split; [reflexivity |].
  repeat split; try reflexivity; simpl; discriminate.
Qed.

(** A second input on which the zooms of the metadata are not used: the
    declared [minzoom] is the number 0, which is falsy. *)
Lemma resolve_metadata_minzoom_zero :
  let header :=
    {| minZoom := num_of_Z 0; maxZoom := num_of_Z 14;
       minLon := num_of_Z 2; minLat := num_of_Z 48;
       maxLon := num_of_Z 3; maxLat := num_of_Z 49;
       tileType := num_of_Z 1 |} in
  let metadata :=
    VObj [("minzoom", VNum (num_of_Z 0)); ("maxzoom", VNum (num_of_Z 10))] in
  resolve_metadata (H := test_host) header metadata =
    inr {| res_minZoom := num_of_Z 0; res_maxZoom := num_of_Z 14;
           res_bounds := header_bounds header |}.
Proof. reflexivity. Qed.

(** The example of the specification: header bounds [0,0,0,0] and
    metadata [{bounds:"2.0,48.0,2.5,48.5"}]. *)
Lemma resolve_metadata_policy_witness :
  let header :=
    {| minZoom := num_of_Z 0; maxZoom := num_of_Z 14;
       minLon := num_of_Z 0; minLat := num_of_Z 0;
       maxLon := num_of_Z 0; maxLat := num_of_Z 0;
       tileType := num_of_Z 1 |} in
  let metadata := VObj [("bounds", VStr "2.0,48.0,2.5,48.5")] in
  resolve_metadata (H := test_host) header metadata =
    inr {| res_minZoom := num_of_Z 0; res_maxZoom := num_of_Z 14;
           res_bounds := [Fin 2; Fin 48; Fin (5 # 2); Fin (97 # 2)] |}.
Proof.
  intros header metadata.
  exact (proj1 (resolve_metadata_policy (H := test_host) header metadata)
           "2.0,48.0,2.5,48.5" eq_refl eq_refl eq_refl).
Defined.

(** ** Reasoning about asynchronous code *)

Section MonadFacts.
Context {S : Type}.

Lemma bind_inv {A B} (m : ST S A) (k : A -> ST S B) (w w' : S)
    (o : Outcome B) :
  bind m k w = (o, w') ->
  (exists a w1, m w = (Ret a, w1) /\ k a w1 = (o, w'))
  \/ (exists e, m w = (Throw e, w') /\ o = Throw e)
  \/ (m w = (OutOfFuel, w') /\ o = OutOfFuel).
Proof.
  unfold bind. destruct (m w) as [[a | e |] w1]; intros Hk.
  - left. eauto.
  - right. left. injection Hk as <- <-. eauto.
  - right. right. injection Hk as <- <-. eauto.
Qed.

Lemma bind_ret_inv {A B} (m : ST S A) (k : A -> ST S B) (w w' : S) (b : B) :
  bind m k w = (Ret b, w') ->
  exists a w1, m w = (Ret a, w1) /\ k a w1 = (Ret b, w').
Proof.
  intros Hb. apply bind_inv in Hb as [Hr | [(e & _ & He) | [_ He]]];
    [done | discriminate | discriminate].
Qed.

Lemma try_catch_inv {A} (m : ST S A) (h : JsError -> ST S A) (w w' : S)
    (o : Outcome A) :
  try_catch m h w = (o, w') ->
  (exists e w1, m w = (Throw e, w1) /\ h e w1 = (o, w'))
  \/ (m w = (o, w') /\ forall e, o <> Throw e).
Proof.
  unfold try_catch. destruct (m w) as [[a | e |] w1]; intros Hk.
  - right. injection Hk as <- <-. split; [done | discriminate].
  - left. eauto.
  - right. injection Hk as <- <-. split; [done | discriminate].
Qed.

Lemma await_inv {A} (r : JsError + A) (w w' : S) (o : Outcome A) :
  await r w = (o, w') ->
  w' = w /\ match r with inl e => o = Throw e | inr a => o = Ret a end.
Proof.
  unfold await, throw, ret. destruct r; intros [= <- <-]; done.
Qed.
Lemma bind_run {A B} (m : ST S A) (k : A -> ST S B) (s s1 : S) (a : A) :
  m s = (Ret a, s1) -> bind m k s = k a s1.
Proof. unfold bind. by intros ->. Qed.
End MonadFacts.

(** ** The protocol handler *)

Section Handler.
Context {H : Host}.

Lemma checkAborted_ok (abort : AbortSignal) (point : nat) (w : World H) :
  not_aborted abort -> checkAborted abort point w = (Ret tt, w).
Proof.
  unfold checkAborted, not_aborted. destruct abort as [a |]; [| done].
  intros Ha. by rewrite Ha.
Qed.

Lemma getMapFile_stored (w : World H) (name : string) (blob : Blob) :
  stored w name blob -> getMapFile name w = (Ret (Some blob), w).
Proof.
  intros [Hf Hb]. unfold getMapFile, try_catch, bind, files_get, ret.
  rewrite Hf. simpl. by rewrite Hb.
Qed.

(** The handler past its first three steps, for a stored archive and a
    request that is not cancelled. *)
Lemma handler_stored (url : string) (abort : AbortSignal) (w : World H)
    (blob : Blob) :
  not_aborted abort -> stored w (request_name url) blob ->
  protocol_handler url abort w =
  try_catch
    (let p := new_BlobSource blob (request_name url) in
     if (length (url_parts url) =? 1)%nat
     then metadata_request abort (request_name url) p
     else if (length (url_parts url) =? 4)%nat
          then tile_request abort (url_parts url) p
          else ret RUndefined)
    handler_catch w.
Proof.
  intros Ha Hs. unfold protocol_handler, try_catch, bind.
  fold (request_name url).
  rewrite (checkAborted_ok _ _ _ Ha), (getMapFile_stored _ _ _ Hs).
  by rewrite (checkAborted_ok _ _ _ Ha).
Qed.

Lemma checkAborted_inv (abort : AbortSignal) (point : nat) (w w' : World H)
    (o : Outcome unit) :
  checkAborted abort point w = (o, w') ->
  w' = w /\ (o = Ret tt \/ o = Throw (Error "Aborted")).
Proof.
  unfold checkAborted, throw, ret.
  destruct abort as [a |]; [destruct (a point) |]; intros [= <- <-]; auto.
Qed.

Lemma handler_catch_throws (e : JsError) (w w' : World H)
    (o : Outcome HandlerResult) :
  handler_catch e w = (o, w') -> o = Throw e.
Proof.
  unfold handler_catch. intros Hc.
  apply bind_inv in Hc as [(a & w1 & _ & Ht) | [(e' & Hm & _) | [Hm _]]].
  - by injection Ht as <- _.
  - destruct (negb _); discriminate.
  - destruct (negb _); discriminate.
Qed.

Lemma metadata_request_shape (abort : AbortSignal) (name : string)
    (p : BlobSource) (w w' : World H) (r : HandlerResult) :
  metadata_request abort name p w = (Ret r, w') -> exists t, r = RTileJson t.
Proof.
  unfold metadata_request. intros Hm.
  apply bind_ret_inv in Hm as (header & w1 & _ & Hm).
  apply bind_ret_inv in Hm as (metadata & w2 & _ & Hm).
  apply bind_ret_inv in Hm as ([] & w3 & _ & Hm).
  apply bind_ret_inv in Hm as (res & w4 & _ & Hm).
  injection Hm as <- _. eauto.
Qed.

Lemma tile_request_shape (abort : AbortSignal) (parts : list string)
    (p : BlobSource) (w w' : World H) (r : HandlerResult) :
  tile_request abort parts p w = (Ret r, w') ->
  r = RNoTile \/ exists data, r = RTile data.
Proof.
  unfold tile_request. intros Hm.
  apply bind_ret_inv in Hm as ([] & w1 & _ & Hm).
  apply bind_ret_inv in Hm as (response & w2 & _ & Hm).
  apply bind_ret_inv in Hm as ([] & w3 & _ & Hm).
  destruct response as [data |]; injection Hm as <- _; eauto.
Qed.

(** What the handler returns, by the number of components of the path. *)
Lemma handler_result_shape (url : string) (abort : AbortSignal)
    (w w' : World H) (r : HandlerResult) :
  protocol_handler url abort w = (Ret r, w') ->
  (length (url_parts url) = 1%nat -> exists t, r = RTileJson t)
  /\ (length (url_parts url) = 4%nat -> r = RNoTile \/ exists data, r = RTile data)
  /\ (length (url_parts url) <> 1%nat -> length (url_parts url) <> 4%nat ->
      r = RUndefined).
Proof.
  unfold protocol_handler. intros Hh.
  apply try_catch_inv in Hh as [(e & w1 & _ & Hc) | [Hb _]].
  { apply handler_catch_throws in Hc. discriminate. }
  apply bind_ret_inv in Hb as ([] & w1 & _ & Hb).
  apply bind_ret_inv in Hb as (blob & w2 & _ & Hb).
  destruct blob as [blob |]; [| discriminate].
  apply bind_ret_inv in Hb as ([] & w3 & _ & Hb).
  destruct (Nat.eqb_spec (length (url_parts url)) 1) as [E1 | N1].
  { apply metadata_request_shape in Hb. split; [| split]; [done | lia | lia]. }
  destruct (Nat.eqb_spec (length (url_parts url)) 4) as [E4 | N4].
  { apply tile_request_shape in Hb. split; [| split]; [lia | done | lia]. }
  injection Hb as <- _. split; [| split]; [lia | lia | done].
Qed.

(** C8: a tile request (a path of four components) for a stored archive
    in which the reader finds no tile at the requested coordinate, and
    which is not cancelled, returns the empty result [{ data: null }]: it
    raises no error, writes nothing to the console and changes nothing. *)
Theorem absent_tile_is_empty_result (url : string) (abort : AbortSignal)
    (w : World H) (blob : Blob) :
  length (url_parts url) = 4%nat ->
  not_aborted abort ->
  stored w (request_name url) blob ->
  pm_getZxy H (new_BlobSource blob (request_name url))
    (request_coord url 1) (request_coord url 2) (request_coord url 3) = inr None ->
  protocol_handler url abort w = (Ret RNoTile, w).
Proof.
  intros Hlen Ha Hs Hz. rewrite (handler_stored _ _ _ _ Ha Hs), Hlen. simpl.
  unfold try_catch, tile_request, bind. fold (request_coord url 1).
  fold (request_coord url 2). fold (request_coord url 3).
  rewrite (checkAborted_ok _ _ _ Ha), Hz. simpl.
  by rewrite (checkAborted_ok _ _ _ Ha).
Qed.

End Handler.

Lemma stored_archive_world (reader : Reader) (name : string) (blob : Blob) :
  stored (archive_world reader name blob) name blob.
Proof.
  split; [reflexivity |]. simpl. by rewrite lookup_singleton_eq.
Qed.

Lemma absent_tile_is_empty_result_witness :
  let w := archive_world empty_reader "paris" [Byte.x50; Byte.x4d] in
  protocol_handler "offline-pmtiles://paris/3/4/2" None w = (Ret RNoTile, w).
Proof.
  intros w.
  apply (absent_tile_is_empty_result (H := script_host None empty_reader)
           "offline-pmtiles://paris/3/4/2" None w [Byte.x50; Byte.x4d]).
  - reflexivity.
  - exact I.
  - apply stored_archive_world.
  - reflexivity.
Defined.



(** ** Effects of [downloadMap] *)

Section Emits.
Context {H : Host}.

Lemma emits_nothing {A} (P : Effect -> Prop) (m : M H A) :
  (forall w o w', m w = (o, w') -> w' = w) -> emits P m.
Proof.
  intros Hm w o w' Hr. apply Hm in Hr as ->. exists [].
  rewrite app_nil_r. auto.
Qed.

Lemma emits_ret {A} P (a : A) : emits P (ret a).
Proof. apply emits_nothing. by intros w o w' [= _ <-]. Qed.

Lemma emits_throw {A} P (e : JsError) : emits P (throw (A := A) e).
Proof. apply emits_nothing. by intros w o w' [= _ <-]. Qed.

Lemma emits_out_of_fuel {A} P : emits P (out_of_fuel (A := A)).
Proof. apply emits_nothing. by intros w o w' [= _ <-]. Qed.

Lemma emits_await {A} P (r : JsError + A) : emits P (await r).
Proof. destruct r; [apply emits_throw | apply emits_ret]. Qed.

Lemma emits_now P : emits P now.
Proof. apply emits_nothing. by intros w o w' [= _ <-]. Qed.

Lemma emits_bind {A B} P (m : M H A) (k : A -> M H B) :
  emits P m -> (forall a, emits P (k a)) -> emits P (bind m k).
Proof.
  intros Hm Hk w o w' Hr.
  apply bind_inv in Hr as [(a & w1 & H1 & H2) | [(e & H1 & _) | [H1 _]]].
  - apply Hm in H1 as (es1 & T1 & F1 & D1).
    apply Hk in H2 as (es2 & T2 & F2 & D2).
    exists (es1 ++ es2). rewrite T2, T1, app_assoc. split; [done |].
    split; [by apply Forall_app |].
    intros [N1 N2]%Forall_app. rewrite D2, D1; done.
  - by apply Hm in H1.
  - by apply Hm in H1.
Qed.

Lemma emits_try_catch {A} P (m : M H A) (h : JsError -> M H A) :
  emits P m -> (forall e, emits P (h e)) -> emits P (try_catch m h).
Proof.
  intros Hm Hh w o w' Hr.
  apply try_catch_inv in Hr as [(e & w1 & H1 & H2) | [H1 _]].
  - apply Hm in H1 as (es1 & T1 & F1 & D1).
    apply Hh in H2 as (es2 & T2 & F2 & D2).
    exists (es1 ++ es2). rewrite T2, T1, app_assoc. split; [done |].
    split; [by apply Forall_app |].
    intros [N1 N2]%Forall_app. rewrite D2, D1; done.
  - by apply Hm in H1.
Qed.

Lemma emits_emit P (e : Effect) : P e -> no_put e -> emits P (emit e).
Proof.
  intros He Hn w o w' [= _ <-]. exists [e]. simpl. auto.
Qed.

Lemma emits_fetch P (req : Request) :
  (forall res, P (EFetch req res)) -> emits P (fetch req).
Proof.
  intros HP w o w'. unfold fetch.
  destruct (fetch_step H (server w) req) as [res s'].
  intros Hr. exists [EFetch req res].
  destruct res; injection Hr as _ <-; simpl; auto.
Qed.

Lemma emits_files_put P (rec : FileRecord) :
  P (EPutFile rec) -> emits P (files_put rec).
Proof.
  intros HP w o w'. unfold files_put.
  destruct (files_put_fault H (db w) rec); intros [= _ <-].
  - exists []. rewrite app_nil_r. auto.
  - exists [EPutFile rec]. simpl. split; [done |]. split; [auto |].
    intros Hn. by apply Forall_inv in Hn.
Qed.

Lemma emits_styles_put P (rec : StyleRecord) :
  P (EPutStyle rec) -> emits P (styles_put rec).
Proof.
  intros HP w o w'. unfold styles_put.
  destruct (styles_put_fault H (db w) rec); intros [= _ <-].
  - exists []. rewrite app_nil_r. auto.
  - exists [EPutStyle rec]. simpl. auto.
Qed.

Lemma emits_weaken {A} (P Q : Effect -> Prop) (m : M H A) :
  (forall e, P e -> Q e) -> emits P m -> emits Q m.
Proof.
  intros HPQ Hm w o w' Hr. apply Hm in Hr as (es & T & F & D).
  exists es. split; [done |]. split; [| done].
  eapply Forall_impl; eauto.
Qed.

Lemma emits_report P (onProgress : bool) (code : Code) (message : string)
    (progress : option Fixed) :
  (forall line, P (ELog line)) ->
  P (EProgress {| st_code := code; st_message := message;
                  st_progress := progress |}) ->
  emits P (report onProgress code message progress).
Proof.
  intros Hl Hp. unfold report, report_effect.
  destruct onProgress; by apply emits_emit.
Qed.
End Emits.

Ltac emits_step :=
  match goal with
  | |- emits _ (bind _ _) => apply emits_bind; [| intros ?]
  | |- emits _ (try_catch _ _) => apply emits_try_catch; [| intros ?]
  | |- emits _ (ret _) => apply emits_ret
  | |- emits _ (throw _) => apply emits_throw
  | |- emits _ out_of_fuel => apply emits_out_of_fuel
  | |- emits _ (await _) => apply emits_await
  | |- emits _ now => apply emits_now
  | |- emits _ (emit _) => apply emits_emit; simpl; auto
  | |- emits _ (fetch _) => apply emits_fetch; intros; simpl; auto
  | |- emits _ (files_put _) => apply emits_files_put; simpl; auto
  | |- emits _ (styles_put _) => apply emits_styles_put; simpl; auto
  | |- emits _ (report _ _ _ _) =>
      apply emits_report; [intros; simpl; auto | simpl; auto]
  | |- emits _ (if ?b then _ else _) => destruct b
  | |- emits _ (match ?x with _ => _ end) => destruct x
  end.

Section DownloadEffects.
Context {H : Host}.


Lemma saveMapStyle_emits (name : string) (style : JsVal) :
  emits (fun e => plain e /\ no_put e) (saveMapStyle name style).
Proof. unfold saveMapStyle, plain. repeat emits_step. Qed.

Lemma download_style_emits (name : string) (onProgress : bool)
    (styleSource : JsVal) :
  emits (fun e => plain e /\ no_put e) (download_style name onProgress styleSource).
Proof.
  unfold download_style, plain.
  repeat first [apply saveMapStyle_emits | emits_step].
Qed.

Lemma chunk_step_emits (url : string) (onProgress : bool) (totalSize : Z)
    (st : LoopState) :
  emits (fun e => benign e /\ no_put e) (chunk_step url onProgress totalSize st).
Proof. unfold chunk_step. repeat emits_step. Qed.

Lemma chunk_loop_emits (fuel : nat) (url : string) (onProgress : bool)
    (totalSize : Z) (st : LoopState) :
  emits (fun e => benign e /\ no_put e) (chunk_loop fuel url onProgress totalSize st).
Proof.
  revert st. induction fuel as [| fuel IH]; intros st; simpl.
  - repeat emits_step.
  - destruct (receivedLength st <? totalSize); [| apply emits_ret].
    apply emits_bind; [apply chunk_step_emits | intros st'; apply IH].
Qed.

Lemma download_data_emits (fuel : nat) (url : string) (onProgress : bool) :
  emits (fun e => benign e /\ no_put e) (download_data fuel url onProgress).
Proof.
  unfold download_data, download_chunked.
  repeat first [apply chunk_loop_emits | emits_step].
Qed.


End DownloadEffects.

(** ** Failures of [downloadMap] *)

Section DownloadFailures.
Context {H : Host}.



End DownloadFailures.




(** ** The chunk loop *)

Section ChunkLoop.
Context {H : Host}.

(** One iteration either receives a chunk, appends it, adds its size to the
    counter and reports the new percentage, or throws after its request. *)
Lemma chunk_step_run (url : string) (onProgress : bool) (totalSize : Z)
    (st : LoopState) (w w' : World H) (o : Outcome LoopState) :
  chunk_step url onProgress totalSize st w = (o, w') ->
  (exists r b,
      resp_blob r = inr b
      /\ o = Ret {| chunks := chunks st ++ [b];
                    receivedLength := receivedLength st + blob_size b |}
      /\ trace w' = trace w ++
           [EFetch (chunk_request url st) (inr r);
            report_effect onProgress PROGRESS "Downloading chunks..."
              (Some (percent (receivedLength st + blob_size b) totalSize))])
  \/ (exists e res,
        o = Throw e
        /\ trace w' = trace w ++ [EFetch (chunk_request url st) res]
        /\ match res with
           | inr r => forall b, resp_blob r = inr b -> response_ok r = false
           | inl _ => True
           end).
Proof.
  unfold chunk_step, bind, fetch. fold (chunk_request url st).
  destruct (fetch_step H (server w) (chunk_request url st)) as [[e | r] s'].
  - intros [= <- <-]. right. exists e, (inl e). auto.
  - destruct (response_ok r) eqn:Hok; simpl.
    + destruct (resp_blob r) as [e | b] eqn:Hb; simpl.
      * intros [= <- <-]. right. exists e, (inr r). simpl.
        split; [done |]. split; [done |]. intros b Hb'. congruence.
      * intros [= <- <-]. left. exists r, b. simpl.
        rewrite <- app_assoc. auto.
    + intros [= <- <-]. right. eexists _, (inr r). simpl. auto.
Qed.

(** A loop that returns has run the iterations of [chunk_iter]. *)
Lemma chunk_loop_iter (fuel : nat) (url : string) (onProgress : bool)
    (totalSize : Z) (st st' : LoopState) (w w' : World H) :
  chunk_loop fuel url onProgress totalSize st w = (Ret st', w') ->
  chunk_iter fuel url onProgress totalSize st w = (Ret st', w')
  /\ totalSize <= receivedLength st'.
Proof.
  revert st w. induction fuel as [| fuel IH]; intros st w; simpl.
  - destruct (Z.ltb_spec (receivedLength st) totalSize); [discriminate |].
    intros [= <- <-]. done.
  - destruct (Z.ltb_spec (receivedLength st) totalSize).
    + intros Hr. apply bind_ret_inv in Hr as (st1 & w1 & Hs & Hr).
      rewrite (bind_run _ _ _ _ _ Hs). by apply IH.
    + intros [= <- <-]. done.
Qed.

End ChunkLoop.



(** ** The percentages reported by the chunk loop *)








Section Percentages.
Context {H : Host}.









End Percentages.




(** ** What [downloadMap] stores *)

Lemma fetched_app (a b : list Effect) : fetched (a ++ b) = fetched a ++ fetched b.
Proof. unfold fetched. by rewrite omap_app. Qed.

Lemma fetched_report (onProgress : bool) (code : Code) (msg : string)
    (p : option Fixed) :
  fetched [report_effect onProgress code msg p] = [].
Proof. by destruct onProgress. Qed.

Lemma fetched_fetch (req : Request) (r : Response) (b : Blob) :
  resp_blob r = inr b -> fetched [EFetch req (inr r)] = [b].
Proof. intros Hb. unfold fetched. simpl. by rewrite Hb. Qed.

Arguments fetched _ : simpl never.

Section Stored.
Context {H : Host}.

Lemma report_inv (onProgress : bool) (code : Code) (msg : string)
    (p : option Fixed) (w w' : World H) (o : Outcome unit) :
  report onProgress code msg p w = (o, w') ->
  o = Ret tt
  /\ trace w' = trace w ++ [report_effect onProgress code msg p]
  /\ db w' = db w /\ server w' = server w.
Proof. by intros [= <- <-]. Qed.

Lemma chunk_loop_fetched (fuel : nat) (url : string) (onProgress : bool)
    (totalSize : Z) (st st' : LoopState) (w w' : World H) :
  chunk_loop fuel url onProgress totalSize st w = (Ret st', w') ->
  exists es,
    trace w' = trace w ++ es
    /\ Forall no_put es
    /\ chunks st' = chunks st ++ fetched es.
Proof.
  revert st w. induction fuel as [| fuel IH]; intros st w; simpl.
  - destruct (receivedLength st <? totalSize); [discriminate |].
    intros [= <- <-]. exists []. by rewrite !app_nil_r.
  - destruct (receivedLength st <? totalSize).
    2: { intros [= <- <-]. exists []. by rewrite !app_nil_r. }
    intros Hr. apply bind_ret_inv in Hr as (st1 & w1 & Hs & Hr).
    apply chunk_step_run in Hs as [(r & b & Hb & Ho & T1) | (e & res & Ho & _)];
      [| discriminate].
    injection Ho as ->. apply IH in Hr as (es & T & F & C). simpl in C.
    eexists (_ :: _ :: es). rewrite T, T1, <- app_assoc. simpl.
    split; [reflexivity |]. split.
    + constructor; [exact I |]. constructor; [| done].
      unfold report_effect. by destruct onProgress.
    + rewrite C, <- app_assoc. f_equal.
      match goal with
      | |- _ = fetched (?e0 :: ?e1 :: es) =>
          change (e0 :: e1 :: es) with ([e0] ++ [e1] ++ es)
      end.
      by rewrite !fetched_app, fetched_report, (fetched_fetch _ _ _ Hb).
Qed.

(** The blob [download_data] returns is the concatenation of the bodies it
    received, in fetch order; after a first response of status 200 it is
    the body of that response. *)
Lemma download_data_fetched (fuel : nat) (url : string) (onProgress : bool)
    (blob : Blob) (w w' : World H) :
  download_data fuel url onProgress w = (Ret blob, w') ->
  exists es,
    trace w' = trace w ++ es
    /\ Forall no_put es
    /\ blob = concat (fetched es)
    /\ (forall r s',
          fetch_step H (server w) {| req_url := url; req_range := None |} = (inr r, s') ->
          status r = 200 -> resp_blob r = inr blob).
Proof.
  unfold download_data. intros Hr.
  apply bind_ret_inv in Hr as (r & w1 & Hf & Hr).
  unfold fetch in Hf.
  destruct (fetch_step H (server w) {| req_url := url; req_range := None |})
    as [[e | r0] s0] eqn:Hstep; [discriminate |].
  injection Hf as -> <-.
  set (first := EFetch {| req_url := url; req_range := None |} (inr r)) in *.
  destruct (negb (response_ok r)); [discriminate |].
  assert (Hsingle : forall w2 es2,
             await (resp_blob r) w2 = (Ret blob, w') ->
             trace w2 = (trace w ++ [first]) ++ es2 ->
             Forall no_put es2 -> fetched es2 = [] ->
             exists es,
               trace w' = trace w ++ es /\ Forall no_put es
               /\ blob = concat (fetched es)
               /\ (forall r1 s', (inr r : JsError + Response, s0) = (inr r1, s') ->
                     status r1 = 200 -> resp_blob r1 = inr blob)).
  { intros w2 es2 Ha T2 F2 E2. apply await_inv in Ha as [-> Ha].
    destruct (resp_blob r) as [e | b] eqn:Hb; [discriminate |].
    injection Ha as ->. exists (first :: es2).
    rewrite T2, <- app_assoc. split; [done |]. split; [by constructor |].
    split.
    - change (first :: es2) with ([first] ++ es2).
      rewrite fetched_app, E2. unfold first.
      rewrite (fetched_fetch _ _ _ Hb). simpl. by rewrite app_nil_r.
    - intros r1 s' [= <- _] _. done. }
  destruct (Z.eqb_spec (status r) 200) as [E200 | N200].
  { apply bind_ret_inv in Hr as ([] & w2 & Hrep & Hr).
    apply report_inv in Hrep as (_ & T2 & _).
    eapply Hsingle; [exact Hr | exact T2 | |].
    - constructor; [| done]. unfold report_effect. by destruct onProgress.
    - apply fetched_report. }
  assert (Hplain : await (resp_blob r)
                     {| server := s0; db := db w; map := map w; clock := clock w;
                        trace := trace w ++ [first] |} = (Ret blob, w') ->
                   exists es,
                     trace w' = trace w ++ es /\ Forall no_put es
                     /\ blob = concat (fetched es)
                     /\ (forall r1 s', (inr r : JsError + Response, s0) = (inr r1, s') ->
                           status r1 = 200 -> resp_blob r1 = inr blob)).
  { intros Ha. eapply (Hsingle _ []); [exact Ha | | done | done].
    simpl. by rewrite app_nil_r. }
  destruct (status r =? 206); [| by apply Hplain].
  destruct (content_range r) as [cr |]; [| by apply Hplain].
  destruct (str_truthy cr); [| by apply Hplain].
  clear Hsingle Hplain. unfold download_chunked in Hr.
  destruct (announced_total cr) as [totalSize |]; [| discriminate].
  apply bind_ret_inv in Hr as ([] & w2 & Hrep & Hr).
  apply report_inv in Hrep as (_ & T2 & _). cbn [trace] in T2.
  apply bind_ret_inv in Hr as (firstChunk & w3 & Ha & Hr).
  apply await_inv in Ha as [-> Ha].
  destruct (resp_blob r) as [e | b] eqn:Hb; [discriminate |].
  injection Ha as ->.
  apply bind_ret_inv in Hr as ([] & w4 & Hrep & Hr).
  apply report_inv in Hrep as (_ & T4 & _).
  apply bind_ret_inv in Hr as (st & w5 & Hloop & Hr).
  apply chunk_loop_fetched in Hloop as (es & T5 & F5 & C5). simpl in C5.
  apply bind_ret_inv in Hr as ([] & w6 & Hrep & Hr).
  apply report_inv in Hrep as (_ & T6 & _).
  injection Hr as <- <-.
  eexists (first :: _ :: _ :: es ++ [_]).
  rewrite T6, T5, T4, T2, <- !app_assoc. simpl.
  split; [reflexivity |]. split; [| split].
  - constructor; [exact I |].
    constructor; [unfold report_effect; by destruct onProgress |].
    constructor; [unfold report_effect; by destruct onProgress |].
    apply Forall_app. split; [done |].
    constructor; [unfold report_effect; by destruct onProgress | done].
  - rewrite C5. f_equal.
    match goal with
    | |- _ = fetched (first :: ?e1 :: ?e2 :: es ++ [?e3]) =>
        change (first :: e1 :: e2 :: es ++ [e3])
          with ([first] ++ [e1] ++ [e2] ++ es ++ [e3])
    end.
    rewrite !fetched_app, !fetched_report, app_nil_r. unfold first.
    by rewrite (fetched_fetch _ _ _ Hb).
  - intros r1 s' [= <- _] E. congruence.
Qed.

Lemma saveMapFile_inv (name : string) (blob : Blob) (w w' : World H) :
  saveMapFile name blob w = (Ret tt, w') ->
  let rec := {| file_name := name; file_blob := blob; file_date := clock w |} in
  trace w' = trace w ++ [EPutFile rec; ELog ("Saved " +:+ name +:+ " to IndexedDB")]
  /\ files (db w') = <[name := rec]> (files (db w)).
Proof.
  unfold saveMapFile, try_catch, bind, now, files_put, emit. simpl.
  destruct (files_put_fault H (db w) _); [discriminate |].
  intros [= <-]. simpl. by rewrite <- app_assoc.
Qed.

(** A run of [downloadMap] that completes has written one archive: the
    concatenation of the bodies fetched before the write. *)
Lemma downloadMap_stored (fuel : nat) (url name : string) (onProgress : bool)
    (styleSource : JsVal) (w w' : World H) :
  str_truthy url = true ->
  downloadMap fuel (Some url) name onProgress styleSource w = (Ret tt, w') ->
  exists pre rec post,
    trace w' = trace w ++ pre ++ EPutFile rec :: post
    /\ Forall no_put pre /\ Forall no_put post
    /\ file_name rec = name
    /\ file_blob rec = concat (fetched pre)
    /\ files (db w') !! name = Some rec
    /\ (forall r s',
          fetch_step H (server w) {| req_url := url; req_range := None |} = (inr r, s') ->
          status r = 200 -> resp_blob r = inr (file_blob rec)).
Proof.
  intros Hu. unfold downloadMap, url_missing. rewrite Hu. simpl. intros Hr.
  apply bind_ret_inv in Hr as ([] & w0 & H0 & Hr).
  apply report_inv in H0 as (_ & T0 & D0 & S0).
  apply try_catch_inv in Hr as [(e & w1 & _ & Hc) | [Hb _]].
  { unfold download_catch in Hc. apply bind_inv in Hc.
    destruct Hc as [(a & w2 & _ & Ht) | [(e' & _ & Ht) | [_ Ht]]]; discriminate. }
  unfold download_try in Hb.
  apply bind_ret_inv in Hb as (blob & w1 & Hd & Hb).
  apply download_data_fetched in Hd as (es & T1 & F1 & Hblob & H200).
  apply bind_ret_inv in Hb as ([] & w2 & Hrep & Hb).
  apply report_inv in Hrep as (_ & T2 & D2 & _).
  apply bind_ret_inv in Hb as ([] & w3 & Hsave & Hb).
  apply saveMapFile_inv in Hsave as [T3 D3].
  set (rec := {| file_name := name; file_blob := blob; file_date := clock w2 |}) in *.
  assert (Hrest : emits (H := H) (fun e => plain e /\ no_put e)
                    (do! download_style name onProgress styleSource in
                     report onProgress COMPLETE
                       ("Saved " +:+ name +:+ "! Ready to load.") None)).
  { apply emits_bind; [apply download_style_emits |]. intros _.
    unfold plain. emits_step. }
  apply Hrest in Hb as (post & T4 & F4 & D4).
  assert (Fpost : Forall no_put post).
  { eapply Forall_impl; [exact F4 |]. by intros e [_ ?]. }
  eexists (_ :: es ++ [_]), rec, (_ :: post).
  rewrite T4, T3, T2, T1, T0, <- !app_assoc. simpl. rewrite <- !app_assoc. simpl.
  split; [reflexivity |]. split; [| split; [| split; [| split; [| split]]]].
  - constructor; [unfold report_effect; by destruct onProgress |].
    apply Forall_app. split; [done |].
    constructor; [unfold report_effect; by destruct onProgress | done].
  - by constructor.
  - done.
  - simpl. rewrite Hblob.
    change (?e0 :: es ++ [?e1]) with ([e0] ++ es ++ [e1]).
    by rewrite !fetched_app, !fetched_report, app_nil_r.
  - rewrite (D4 Fpost), D3. apply lookup_insert_eq.
  - intros r s' Hstep E. rewrite S0 in H200. eauto.
Qed.
End Stored.

(** ** Downloading from a server that sends the archive in chunks *)

Section Partition.
Variable reader : Reader.
Variable url : string.
Variable onProgress : bool.

Let host : Host := script_host None reader.

Lemma blob_size_app (a b : Blob) : blob_size (a ++ b) = blob_size a + blob_size b.
Proof. unfold blob_size. rewrite length_app. lia. Qed.

Lemma blob_size_zero (b : Blob) : blob_size b <= 0 -> b = [].
Proof. unfold blob_size. destruct b; simpl; [done | lia]. Qed.

(** The loop consumes the script until the counter reaches the total, and
    what it has not consumed by then is empty. *)
Lemma script_chunk_loop (totalSize : Z) (rs : list (string * Blob)) :
  forall (fuel : nat) (st : LoopState) (w : World host),
    server w = chunk_script rs ->
    (length rs <= fuel)%nat ->
    receivedLength st + blob_size (concat (List.map snd rs)) = totalSize ->
    exists st' w',
      chunk_loop fuel url onProgress totalSize st w = (Ret st', w')
      /\ concat (chunks st') = concat (chunks st) ++ concat (List.map snd rs)
      /\ db w' = db w /\ clock w' = clock w.
Proof.
  induction rs as [| [cr c] rs IH]; intros fuel st w Hs Hfuel Htotal.
  - simpl in Htotal. exists st, w.
    assert (E : (receivedLength st <? totalSize) = false).
    { apply Z.ltb_ge. unfold blob_size in Htotal. simpl in Htotal. lia. }
    destruct fuel; simpl; rewrite E, app_nil_r; done.
  - destruct (Z.ltb_spec (receivedLength st) totalSize) as [Hlt | Hge].
    + destruct fuel as [| fuel]; [simpl in Hfuel; lia |].
      simpl in Htotal. rewrite blob_size_app in Htotal.
      set (st1 := {| chunks := chunks st ++ [c];
                     receivedLength := receivedLength st + blob_size c |}).
      set (w1 := {| server := (chunk_script rs : Server host); db := db w;
                    map := map w; clock := clock w;
                    trace := (trace w ++ [EFetch (chunk_request url st)
                                            (partial_response cr c)])
                             ++ [report_effect onProgress PROGRESS
                                   "Downloading chunks..."
                                   (Some (percent (receivedLength st1) totalSize))] |}).
      assert (Hstep : chunk_step url onProgress totalSize st w = (Ret st1, w1)).
      { unfold chunk_step, bind, fetch. fold (chunk_request url st).
        change (fetch_step host (server w) (chunk_request url st))
          with (script_step (server w) (chunk_request url st)).
        rewrite Hs. reflexivity. }
      destruct (IH fuel st1 w1) as (st' & w' & Hloop & Hc & Hd & Hk);
        [done | simpl in Hfuel; lia | simpl; lia |].
      exists st', w'. simpl.
      destruct (Z.ltb_spec (receivedLength st) totalSize); [| lia].
      rewrite (bind_run _ _ _ _ _ Hstep). split; [done |].
      split; [| done].
      rewrite Hc. simpl. rewrite concat_app. simpl.
      by rewrite app_nil_r, <- app_assoc.
    + exists st, w. simpl in Htotal.
      assert (Hnil : concat (List.map snd ((cr, c) :: rs)) = []).
      { apply blob_size_zero. simpl. unfold blob_size in *. lia. }
      assert (E : (receivedLength st <? totalSize) = false) by by apply Z.ltb_ge.
      rewrite Hnil, app_nil_r.
      destruct fuel; simpl; rewrite E; done.
Qed.

Lemma bind_run_eq {A B} (m : M host A) (k : A -> M host B) (w w1 : World host)
    (a : A) (r : Outcome B * World host) :
  m w = (Ret a, w1) -> k a w1 = r -> bind m k w = r.
Proof. unfold bind. by intros -> ->. Qed.

Lemma try_catch_ret {A} (m : M host A) (h : JsError -> M host A)
    (w w' : World host) (a : A) :
  m w = (Ret a, w') -> try_catch m h w = (Ret a, w').
Proof. unfold try_catch. by intros ->. Qed.

(** Step 1 of [downloadMap] against the scripted server. *)
Lemma script_download_data (cr : string) (c0 : Blob) (rs : list (string * Blob))
    (fuel : nat) (w : World host) :
  server w = partial_response cr c0 :: chunk_script rs ->
  str_truthy cr = true ->
  announced_total cr = Some (blob_size (concat (c0 :: List.map snd rs))) ->
  (length rs <= fuel)%nat ->
  exists w',
    download_data fuel url onProgress w
    = (Ret (concat (c0 :: List.map snd rs)), w')
    /\ db w' = db w /\ clock w' = clock w.
Proof.
  intros Hs Hcr Hann Hfuel.
  set (req := {| req_url := url; req_range := None |}).
  set (r0 := {| status := 206; content_range := Some cr; resp_blob := inr c0;
                resp_json := inl (mkError "SyntaxError" "Unexpected token") |}).
  set (wa := {| server := (chunk_script rs : Server host); db := db w;
                map := map w; clock := clock w;
                trace := trace w ++ [EFetch req (inr r0)] |}).
  assert (Hf : fetch req w = (Ret r0, wa)).
  { unfold fetch.
    change (fetch_step host (server w) req) with (script_step (server w) req).
    rewrite Hs. reflexivity. }
  set (totalSize := blob_size (concat (c0 :: List.map snd rs))) in *.
  set (e1 := report_effect onProgress PROGRESS
               ("Detected Partial Content. Total: " +:+
                render_fixed (megabytes totalSize) +:+ " MB") None).
  set (e2 := report_effect onProgress PROGRESS "Downloading chunks..."
               (Some (percent (blob_size c0) totalSize))).
  set (e3 := report_effect onProgress PROGRESS "Assembling file..." None).
  destruct (script_chunk_loop totalSize rs fuel (first_state c0)
              (extend (extend wa e1) e2))
    as (st' & w1 & Hl & Hc & Hd & Hk); [reflexivity | done | |].
  { unfold totalSize. simpl. by rewrite blob_size_app. }
  exists (extend w1 e3). split; [| split].
  - unfold download_data. eapply bind_run_eq; [exact Hf |].
    change (negb (response_ok r0)) with false. cbv iota.
    change (status r0 =? 200) with false. change (status r0 =? 206) with true.
    cbv iota. change (content_range r0) with (Some cr). cbv iota.
    rewrite Hcr. unfold download_chunked. rewrite Hann.
    eapply bind_run_eq; [reflexivity |].
    eapply bind_run_eq; [reflexivity |].
    eapply bind_run_eq; [reflexivity |].
    eapply bind_run_eq; [exact Hl |].
    eapply bind_run_eq; [reflexivity |].
    unfold ret. do 2 f_equal. rewrite Hc. simpl. by rewrite app_nil_r.
  - simpl. by rewrite Hd.
  - simpl. by rewrite Hk.
Qed.

(** For every partition of the source bytes into chunks, downloading and
    reading the archive back gives the source bytes. *)
Lemma script_download_roundtrip (name cr : string) (c0 : Blob)
    (rs : list (string * Blob)) (fuel : nat) (d : Db) (m : MapState) :
  str_truthy url = true ->
  str_truthy cr = true ->
  announced_total cr = Some (blob_size (concat (c0 :: List.map snd rs))) ->
  (length rs <= fuel)%nat ->
  exists w',
    downloadMap fuel (Some url) name onProgress VUndefined
      (script_world None reader (partial_response cr c0 :: chunk_script rs) d m)
    = (Ret tt, w')
    /\ getMapFile name w' = (Ret (Some (concat (c0 :: List.map snd rs))), w').
Proof.
  intros Hu Hcr Hann Hfuel.
  set (source := concat (c0 :: List.map snd rs)) in *.
  set (w := script_world None reader (partial_response cr c0 :: chunk_script rs) d m).
  set (e0 := report_effect onProgress START
               ("Starting download of " +:+ name +:+ " from " +:+ url +:+ "...") None).
  destruct (script_download_data cr c0 rs fuel (extend w e0))
    as (w1 & Hdata & Hd & Hk); [reflexivity | done | done | done |].
  fold source in Hdata.
  set (e1 := report_effect onProgress PROGRESS
               ("Saving " +:+ name +:+ " map data...") None).
  set (rec := {| file_name := name; file_blob := source; file_date := clock w1 |}).
  set (w2 := {| server := server w1;
                db := {| files := <[name := rec]> (files (db w1));
                         styles := styles (db w1) |};
                map := map w1; clock := clock w1;
                trace := (trace w1 ++ [e1]) ++ [EPutFile rec] |}).
  set (e2 := ELog ("Saved " +:+ name +:+ " to IndexedDB")).
  set (e3 := report_effect onProgress COMPLETE
               ("Saved " +:+ name +:+ "! Ready to load.") None).
  assert (Hsave : saveMapFile name source (extend w1 e1) = (Ret tt, extend w2 e2)).
  { reflexivity. }
  exists (extend (extend w2 e2) e3). split.
  - unfold downloadMap, url_missing. rewrite Hu. cbv iota. cbn [negb default].
    eapply bind_run_eq; [reflexivity |].
    apply try_catch_ret. unfold download_try.
    eapply bind_run_eq; [exact Hdata |].
    eapply bind_run_eq; [reflexivity |].
    eapply bind_run_eq; [exact Hsave |].
    reflexivity.
  - unfold getMapFile, try_catch, bind, files_get, ret. simpl.
    by rewrite lookup_insert_eq.
Qed.
End Partition.

(** C1: a run of [downloadMap] that completes has stored, under the given
    name, a blob that is the concatenation of the bodies it received, in
    fetch order: the body of the response after a single response of status
    200, and all the chunks of a partial-content sequence; reading the
    archive back gives that blob.  And for every partition of the source
    bytes into chunks sent under a [Content-Range] header that announces
    their total size, the download completes (given fuel for one iteration
    per chunk) and reading the archive back gives the source bytes. *)
Theorem download_roundtrip :
  (forall (H : Host) (fuel : nat) (url name : string) (onProgress : bool)
          (styleSource : JsVal) (w w' : World H),
      str_truthy url = true ->
      downloadMap fuel (Some url) name onProgress styleSource w = (Ret tt, w') ->
      exists pre rec post,
        trace w' = trace w ++ pre ++ EPutFile rec :: post
        /\ Forall no_put pre /\ Forall no_put post
        /\ file_name rec = name
        /\ file_blob rec = concat (fetched pre)
        /\ (forall r s',
              fetch_step H (server w) {| req_url := url; req_range := None |}
              = (inr r, s') ->
              status r = 200 -> resp_blob r = inr (file_blob rec))
        /\ files (db w') !! name = Some rec
        /\ (files_get_fault H (db w') name = None ->
            getMapFile name w' = (Ret (Some (file_blob rec)), w')))
  /\ (forall (reader : Reader) (url name : string) (onProgress : bool)
            (cr : string) (c0 : Blob) (rs : list (string * Blob)) (fuel : nat)
            (d : Db) (m : MapState),
        str_truthy url = true ->
        str_truthy cr = true ->
        announced_total cr = Some (blob_size (concat (c0 :: List.map snd rs))) ->
        (length rs <= fuel)%nat ->
        exists w',
          downloadMap fuel (Some url) name onProgress VUndefined
            (script_world None reader (partial_response cr c0 :: chunk_script rs) d m)
          = (Ret tt, w')
          /\ getMapFile name w' = (Ret (Some (concat (c0 :: List.map snd rs))), w')).
Proof.
  split.
  - intros H fuel url name onProgress styleSource w w' Hu Hr.
    destruct (downloadMap_stored _ _ _ _ _ _ _ Hu Hr)
      as (pre & rec & post & T & F1 & F2 & Hn & Hb & Hf & H200).
    exists pre, rec, post. repeat (split; [done |]).
    intros Hg. apply getMapFile_stored. split; [done |]. by rewrite Hf.
  - intros reader url name onProgress cr c0 rs fuel d m.
    apply script_download_roundtrip.
Qed.

Lemma download_roundtrip_witness :
  (exists pre rec post,
      trace (snd (downloadMap 5%nat (Some "https://example.org/a.pmtiles") "paris"
                    true VUndefined three_chunks_world))
      = trace three_chunks_world ++ pre ++ EPutFile rec :: post
      /\ file_blob rec = concat (fetched pre)
      /\ file_blob rec = four_bytes ++ repeat Byte.x2a 6)
  /\ (exists w',
        downloadMap 2%nat (Some "https://example.org/a.pmtiles") "paris" true VUndefined
          (script_world None no_reader
             (partial_response "bytes 0-3/10" four_bytes
              :: chunk_script [("bytes 4-8/10", repeat Byte.x2a 5);
                               ("bytes 9-9/10", [Byte.x2a])])
             empty_db empty_map)
        = (Ret tt, w')
        /\ getMapFile "paris" w'
           = (Ret (Some (concat (four_bytes
                                 :: List.map snd [("bytes 4-8/10", repeat Byte.x2a 5);
                                                  ("bytes 9-9/10", [Byte.x2a])]))), w')).
Proof.
  split.
  - destruct (proj1 download_roundtrip test_host 5%nat
                "https://example.org/a.pmtiles" "paris" true VUndefined
                three_chunks_world
                (snd (downloadMap 5%nat (Some "https://example.org/a.pmtiles") "paris"
                        true VUndefined three_chunks_world)))
      as (pre & rec & post & T & _ & _ & _ & Hb & _ & Hf & _).
    + reflexivity.
    + vm_compute. reflexivity.
    + exists pre, rec, post. split; [exact T |]. split; [exact Hb |].
      vm_compute in Hf. injection Hf as <-. reflexivity.
  - apply (proj2 download_roundtrip no_reader "https://example.org/a.pmtiles"
             "paris" true "bytes 0-3/10" four_bytes
             [("bytes 4-8/10", repeat Byte.x2a 5); ("bytes 9-9/10", [Byte.x2a])]
             2%nat empty_db empty_map).
    + reflexivity.
    + reflexivity.
    + vm_compute. reflexivity.
    + simpl. lia.
Defined.

(** ** [_cleanup] *)

Lemma filter_filter_and {A} (f g : A -> bool) (l : list A) :
  List.filter f (List.filter g l) = List.filter (fun x => g x && f x) l.
Proof.
  induction l as [| x l IH]; simpl; [done |].
  destruct (g x); simpl; [destruct (f x) |]; by rewrite IH.
Qed.

Section Cleanup.
Context {H : Host}.
Variable name : string.

Lemma layer_key_string (l : JsVal) (id : string) :
  get_prop l "id" = VStr id -> layer_key l = id.
Proof. unfold layer_key. by intros ->. Qed.

Lemma has_key_sym (l l' : JsVal) :
  has_key (layer_key l) l' = has_key (layer_key l') l.
Proof. unfold has_key. apply String.eqb_sym. Qed.

Lemma cleanup_layer_run (l : JsVal) (m m' : MapState) (o : Outcome unit) :
  cleanup_layer name l m = (o, m') ->
  if string_id l then
    o = Ret tt
    /\ map_sources m' = map_sources m
    /\ map_layers m' =
       List.filter (fun l' => negb (prefixed name l && has_key (layer_key l) l'))
                   (map_layers m)
  else exists e, o = Throw e.
Proof.
  unfold cleanup_layer, string_id, prefixed.
  destruct (get_prop l "id") as [| | | | id | |] eqn:Hid;
    try (intros [= <- <-]; simpl; eauto; fail).
  simpl. rewrite (layer_key_string _ _ Hid).
  destruct (startsWith id (name +:+ "-")); intros [= <- <-].
  - done.
  - simpl. split; [done |]. split; [done |].
    induction (map_layers m) as [| x xs IH]; simpl; [done |]. by rewrite <- IH.
Qed.

Lemma cleanup_layers_run (ls : list JsVal) (m m' : MapState) :
  forEach (cleanup_layer name) ls m = (Ret tt, m') ->
  forallb string_id ls = true
  /\ map_sources m' = map_sources m
  /\ map_layers m' = List.filter (fun l' => negb (doomed name ls l')) (map_layers m).
Proof.
  revert m. induction ls as [| l ls IH]; intros m; simpl.
  - intros [= <-]. split; [done |]. split; [done |].
    induction (map_layers m) as [| x xs IHx]; simpl; [done |]. by rewrite <- IHx.
  - intros Hr. apply bind_ret_inv in Hr as ([] & m1 & Hl & Hr).
    apply cleanup_layer_run in Hl. destruct (string_id l); [| by destruct Hl].
    destruct Hl as (_ & Hs & Hlayers). apply IH in Hr as (Hall & Hs' & Hlayers').
    split; [done |]. split; [congruence |].
    rewrite Hlayers', Hlayers, filter_filter_and.
    apply List.filter_ext. intros l'. unfold doomed. simpl.
    by rewrite negb_orb.
Qed.

Lemma cleanup_layers_ok (ls : list JsVal) (m : MapState) :
  forallb string_id ls = true ->
  exists m', forEach (cleanup_layer name) ls m = (Ret tt, m').
Proof.
  revert m. induction ls as [| l ls IH]; intros m; simpl; [eauto |].
  intros [Hl Hls]%andb_prop.
  destruct (cleanup_layer name l m) as [o m1] eqn:E.
  pose proof (cleanup_layer_run _ _ _ _ E) as Hrun. rewrite Hl in Hrun.
  destruct Hrun as (-> & _). destruct (IH m1 Hls) as (m' & Hm').
  exists m'. unfold bind. by rewrite E.
Qed.

(** Among layers with string ids, the condemned ones are the prefixed
    ones. *)
Lemma doomed_prefixed (ls : list JsVal) (l' : JsVal) :
  forallb string_id ls = true -> In l' ls ->
  doomed name ls l' = prefixed name l'.
Proof.
  intros Hall Hin. unfold doomed.
  destruct (prefixed name l') eqn:Hp.
  - apply existsb_exists. exists l'. split; [done |].
    rewrite Hp. unfold has_key. by rewrite String.eqb_refl.
  - apply not_true_is_false. intros (l & Hl & Hc)%existsb_exists.
    apply andb_prop in Hc as [Hpl Hk].
    rewrite forallb_forall in Hall.
    pose proof (Hall _ Hl) as Sl. pose proof (Hall _ Hin) as Sl'.
    unfold string_id, is_string in Sl, Sl'. unfold prefixed in Hp, Hpl.
    destruct (get_prop l "id") as [| | | | id | |] eqn:E; try discriminate.
    destruct (get_prop l' "id") as [| | | | id' | |] eqn:E'; try discriminate.
    unfold has_key in Hk. rewrite (layer_key_string _ _ E),
      (layer_key_string _ _ E') in Hk.
    apply String.eqb_eq in Hk. congruence.
Qed.

(** [_cleanup] returns exactly when every layer has a string id, and then
    leaves the map [cleaned]. *)
Lemma cleanup_run (m m' : MapState) :
  _cleanup name m = (Ret tt, m') ->
  forallb string_id (map_layers m) = true /\ m' = cleaned name m.
Proof.
  unfold _cleanup, bind, map_getStyle_layers, map_getSource.
  destruct (forEach (cleanup_layer name) (map_layers m) m) as [[[] | e |] m1] eqn:E;
    [| discriminate | discriminate].
  apply cleanup_layers_run in E as (Hall & Hs & Hl).
  assert (Hl' : map_layers m1 =
                List.filter (fun l => negb (prefixed name l)) (map_layers m)).
  { rewrite Hl. apply List.filter_ext_in. intros l' Hin.
    by rewrite doomed_prefixed. }
  fold (source_id name). unfold cleaned. rewrite <- Hl'.
  destruct (map_sources m1 !! source_id name) as [spec |] eqn:Es.
  - unfold map_removeSource, engine_removeSource. rewrite Es.
    destruct (existsb (uses_source (source_id name)) (map_layers m1));
      intros [= <-]; split; try done; destruct m1; simpl in *; congruence.
  - intros [= <-]. split; [done |]. rewrite Hs in Es.
    rewrite delete_id by done.
    destruct (existsb _ _); destruct m1; simpl in *; congruence.
Qed.

Lemma cleanup_ok (m : MapState) :
  forallb string_id (map_layers m) = true ->
  _cleanup name m = (Ret tt, cleaned name m).
Proof.
  intros Hall.
  destruct (cleanup_layers_ok (map_layers m) m Hall) as (m1 & E).
  destruct (_cleanup name m) as [o m'] eqn:Ec.
  assert (o = Ret tt) as ->.
  { revert Ec. unfold _cleanup, bind, map_getStyle_layers, map_getSource.
    rewrite E. destruct (map_sources m1 !! (name +:+ "-source")) eqn:Es.
    - unfold map_removeSource, engine_removeSource. rewrite Es.
      destruct (existsb _ _); by intros [= <- _].
    - by intros [= <- _]. }
  by apply cleanup_run in Ec as [_ ->].
Qed.
End Cleanup.

(** ** Adding layers *)

Lemma NoDup_map_eq {A B} (f : A -> B) (l : list A) (a b : A) :
  NoDup (List.map f l) -> In a l -> In b l -> f a = f b -> a = b.
Proof.
  induction l as [| x l IH]; simpl; [done |].
  intros Hnd [-> | Ha] [-> | Hb] Hf; try done.
  - apply NoDup_cons in Hnd as [Hx _]. exfalso. apply Hx.
    apply list_elem_of_In. rewrite Hf. by apply in_map.
  - apply NoDup_cons in Hnd as [Hx _]. exfalso. apply Hx.
    apply list_elem_of_In. rewrite <- Hf. by apply in_map.
  - apply NoDup_cons in Hnd as [_ Hnd]. by apply IH.
Qed.

Section AddLayer.
Context {H : Host}.

Lemma getLayer_None (m : MapState) (id : JsVal) :
  engine_getLayer m id = None <->
  ~ In (to_string (num_str H) id) (List.map layer_key (map_layers m)).
Proof.
  unfold engine_getLayer. induction (map_layers m) as [| l ls IH]; simpl.
  - tauto.
  - unfold has_key at 1. destruct (String.eqb_spec (layer_key l) (to_string (num_str H) id)).
    + split; [done |]. intros Hn. destruct Hn. by left.
    + rewrite IH. tauto.
Qed.

Lemma classic_in_keys (m : MapState) (id : JsVal) :
  In (to_string (num_str H) id) (List.map layer_key (map_layers m))
  \/ ~ In (to_string (num_str H) id) (List.map layer_key (map_layers m)).
Proof.
  destruct (in_dec string_dec (to_string (num_str H) id)
              (List.map layer_key (map_layers m))); auto.
Qed.

Lemma accepts_fresh (m : MapState) (c : JsVal) :
  accepts m c = true -> ~ In (layer_key c) (List.map layer_key (map_layers m)).
Proof.
  unfold accepts. intros [[Hg _]%andb_prop _]%andb_prop.
  apply negb_true_iff, bool_decide_eq_false in Hg.
  apply getLayer_None. destruct (engine_getLayer m (get_prop c "id")); [| done].
  destruct Hg. eauto.
Qed.

Lemma add_candidate_sources (c : Candidate) (m : MapState) :
  map_sources (add_candidate c m) = map_sources m.
Proof.
  unfold add_candidate, engine_addLayer.
  repeat match goal with |- context [if ?b then _ else _] => destruct b end; done.
Qed.

Lemma add_candidate_layers (c : Candidate) (m : MapState) :
  Permutation (map_layers (add_candidate c m))
              (if accepts m (fst c) then fst c :: map_layers m else map_layers m).
Proof.
  unfold add_candidate, engine_addLayer, accepts.
  destruct (bool_decide (is_Some (engine_getLayer m (get_prop (fst c) "id"))));
    simpl; [done |].
  destruct (is_string (get_prop (fst c) "id")); simpl; [| done].
  destruct (layer_valid H (fst c) (map_sources m)); simpl; [| done].
  assert (Happ : Permutation (map_layers m ++ [fst c]) (fst c :: map_layers m)).
  { symmetry. apply Permutation_cons_append. }
  destruct (snd c); [| done].
  destruct (map_layers m) as [| l0 ls] eqn:El; simpl; [done |].
  destruct (truthy (get_prop l0 "id")); [| done].
  assert (Hk : has_key (to_string (num_str H) (get_prop l0 "id")) l0 = true).
  { unfold has_key, layer_key. apply String.eqb_refl. }
  unfold engine_getLayer. rewrite El. simpl. rewrite Hk. simpl. done.
Qed.

Lemma add_candidate_in (c : Candidate) (m : MapState) (l : JsVal) :
  In l (map_layers (add_candidate c m)) <->
  In l (map_layers m) \/ (accepts m (fst c) = true /\ l = fst c).
Proof.
  pose proof (add_candidate_layers c m) as Hp. split.
  - intros Hin. apply (Permutation_in _ Hp) in Hin.
    destruct (accepts m (fst c)); [| tauto]. destruct Hin as [<- | Hin]; auto.
  - intros Hin. apply (Permutation_in _ (Permutation_sym Hp)).
    destruct Hin as [Hin | [Ha ->]].
    + destruct (accepts m (fst c)); [by right | done].
    + rewrite Ha. by left.
Qed.

Lemma add_candidate_NoDup (c : Candidate) (m : MapState) :
  NoDup (List.map layer_key (map_layers m)) ->
  NoDup (List.map layer_key (map_layers (add_candidate c m))).
Proof.
  intros Hnd. pose proof (add_candidate_layers c m) as Hp.
  apply (Permutation_map layer_key) in Hp.
  rewrite Hp. destruct (accepts m (fst c)) eqn:Ha; [| done].
  simpl. apply NoDup_cons. split; [| done].
  rewrite list_elem_of_In. by apply accepts_fresh.
Qed.

Lemma add_candidate_string (c : Candidate) (m : MapState) :
  forallb string_id (map_layers m) = true ->
  forallb string_id (map_layers (add_candidate c m)) = true.
Proof.
  rewrite !forallb_forall. intros Hall l Hin.
  apply add_candidate_in in Hin as [Hin | [Ha ->]]; [by apply Hall |].
  unfold accepts in Ha. by apply andb_prop in Ha as [[_ ?]%andb_prop _].
Qed.

Lemma add_candidates_sources (cs : list Candidate) (m : MapState) :
  map_sources (add_candidates cs m) = map_sources m.
Proof.
  revert m. induction cs as [| c cs IH]; intros m; simpl; [done |].
  unfold add_candidates in *. simpl. by rewrite IH, add_candidate_sources.
Qed.

Lemma add_candidates_NoDup (cs : list Candidate) (m : MapState) :
  NoDup (List.map layer_key (map_layers m)) ->
  NoDup (List.map layer_key (map_layers (add_candidates cs m))).
Proof.
  revert m. induction cs as [| c cs IH]; intros m Hnd; simpl; [done |].
  unfold add_candidates in *. simpl. by apply IH, add_candidate_NoDup.
Qed.

Lemma add_candidates_string (cs : list Candidate) (m : MapState) :
  forallb string_id (map_layers m) = true ->
  forallb string_id (map_layers (add_candidates cs m)) = true.
Proof.
  revert m. induction cs as [| c cs IH]; intros m Hs; simpl; [done |].
  unfold add_candidates in *. simpl. by apply IH, add_candidate_string.
Qed.

(** Layers are only added, and the added ones are candidates. *)
Lemma add_candidates_in (cs : list Candidate) (m : MapState) (l : JsVal) :
  (In l (map_layers m) -> In l (map_layers (add_candidates cs m)))
  /\ (In l (map_layers (add_candidates cs m)) ->
      In l (map_layers m) \/ In l (List.map fst cs)).
Proof.
  revert m. induction cs as [| c cs IH]; intros m; simpl; [tauto |].
  unfold add_candidates in *. simpl. destruct (IH (add_candidate c m)) as [I1 I2].
  split.
  - intros Hin. apply I1, add_candidate_in. by left.
  - intros Hin. apply I2 in Hin as [Hin | Hin]; [| tauto].
    apply add_candidate_in in Hin as [Hin | [_ ->]]; tauto.
Qed.

(** Adding the same candidates to a style that already holds some of the
    layers they produce ([K]) gives the same set of layers. *)
Lemma add_candidates_again (cs : list Candidate) :
  forall (m1 m2 : MapState) (K : list JsVal),
    map_sources m2 = map_sources m1 ->
    (forall l, In l (map_layers m2) <-> In l (map_layers m1) \/ In l K) ->
    NoDup (List.map layer_key (map_layers (add_candidates cs m1))) ->
    incl K (map_layers (add_candidates cs m1)) ->
    forall l,
      In l (map_layers (add_candidates cs m2)) <->
      In l (map_layers (add_candidates cs m1)) \/ In l K.
Proof.
  induction cs as [| c cs IH]; intros m1 m2 K Hs Hin Hnd HK; [done |].
  unfold add_candidates in *. simpl in *.
  apply IH; [by rewrite !add_candidate_sources | | done | done].
  intros l. rewrite !add_candidate_in, Hin.
  assert (Hc1 : accepts m1 (fst c) = true ->
                In (fst c) (map_layers (fold_left (fun m c => add_candidate c m) cs
                                          (add_candidate c m1)))).
  { intros Ha. apply (add_candidates_in cs (add_candidate c m1)).
    apply add_candidate_in. by right. }
  assert (Hacc : accepts m2 (fst c) = true -> accepts m1 (fst c) = true).
  { unfold accepts. rewrite Hs.
    intros [[Hg ->]%andb_prop ->]%andb_prop. rewrite !andb_true_r.
    apply negb_true_iff, bool_decide_eq_false. intros [x Hx].
    apply negb_true_iff, bool_decide_eq_false in Hg. apply Hg.
    destruct (engine_getLayer m2 (get_prop (fst c) "id")) eqn:E; [eauto |].
    exfalso. apply getLayer_None in E. apply E.
    assert (Hx' : In (to_string (num_str H) (get_prop (fst c) "id"))
                     (List.map layer_key (map_layers m1))).
    { destruct (classic_in_keys m1 (get_prop (fst c) "id")) as [? | Hn]; [done |].
      apply getLayer_None in Hn. congruence. }
    apply in_map_iff in Hx' as (y & Hy & Hiny). apply in_map_iff.
    exists y. split; [done |]. apply Hin. by left. }
  destruct (accepts m1 (fst c)) eqn:A1.
  - destruct (accepts m2 (fst c)) eqn:A2; [tauto |].
    (* the candidate is already there in the second run: it is one of [K] *)
    assert (HcK : In (fst c) K).
    { assert (Hex : is_Some (engine_getLayer m2 (get_prop (fst c) "id"))).
      { unfold accepts in A1, A2.
        apply andb_prop in A1 as [[_ Hstr]%andb_prop Hval].
        rewrite Hs, Hstr, Hval, !andb_true_r in A2.
        apply negb_false_iff, bool_decide_eq_true in A2. done. }
      destruct Hex as [k Hk]. unfold engine_getLayer in Hk.
      apply find_some in Hk as [Hkin Hkey]. apply String.eqb_eq in Hkey.
      apply Hin in Hkin as [Hk1 | HkK].
      - exfalso. apply (accepts_fresh _ _ A1). unfold layer_key at 1.
        rewrite <- Hkey. by apply in_map.
      - assert (k = fst c) as <-; [| done].
        eapply (NoDup_map_eq layer_key); [exact Hnd | by apply HK | by apply Hc1 |].
        exact Hkey. }
    split.
    + intros [[? | ?] | [? _]]; [tauto | tauto | discriminate].
    + intros [[? | [_ ->]] | ?]; tauto.
  - destruct (accepts m2 (fst c)) eqn:A2; [discriminate (Hacc eq_refl) |].
    split.
    + intros [[? | ?] | [? _]]; [tauto | tauto | discriminate].
    + intros [[? | [? _]] | ?]; [tauto | discriminate | tauto].
Qed.
End AddLayer.

(** ** The helpers of [loadMap] follow their plans *)

Lemma prefix_dash (a b : string) :
  String.prefix (a +:+ "-") (a +:+ String "-" b) = true.
Proof.
  induction a as [| c a IH]; simpl.
  - destruct (ascii_dec "-" "-"); [by destruct b | done].
  - destruct (ascii_dec c c); [exact IH | done].
Qed.

Lemma append_nonempty (a : string) (c : ascii) (b : string) :
  str_truthy (a +:+ String c b) = true.
Proof. by destruct a. Qed.

Lemma assoc_get_app_last (k : string) (v : JsVal) (fields : list (string * JsVal)) :
  assoc_get k (fields ++ [(k, v)]) = Some v.
Proof.
  induction fields as [| [k' v'] fields IH]; simpl.
  - by rewrite String.eqb_refl.
  - by rewrite IH.
Qed.

Lemma get_prop_set_prop (fields : list (string * JsVal)) (k : string) (v : JsVal) :
  get_prop (VObj (set_prop fields k v)) k = v.
Proof. unfold get_prop, set_prop. by rewrite assoc_get_app_last. Qed.

Lemma assoc_get_filter_ne (k k' : string) (fields : list (string * JsVal)) :
  k <> k' ->
  assoc_get k (List.filter (fun kv => negb (String.eqb (fst kv) k')) fields)
  = assoc_get k fields.
Proof.
  intros Hne. induction fields as [| [k0 v0] fields IH]; simpl; [done |].
  destruct (String.eqb_spec k0 k'); simpl.
  - rewrite IH. destruct (assoc_get k fields); [done |].
    destruct (String.eqb_spec k k0); [congruence | done].
  - by rewrite IH.
Qed.

Section Helpers.
Context {H : Host}.

Lemma addLayer_existing (c b : JsVal) (m : MapState) :
  is_Some (engine_getLayer m (get_prop c "id")) -> engine_addLayer c b m = m.
Proof.
  intros Hs. unfold engine_addLayer. by rewrite bool_decide_eq_true_2.
Qed.

Lemma follows_raster (sourceId name : string) :
  follows (_addRasterLayer sourceId name) (raster_plan sourceId name).
Proof. intros m. reflexivity. Qed.

Lemma add_custom_layer_run (sourceId name : string) (layer : JsVal) (m : MapState) :
  add_custom_layer sourceId name layer m
  = (Ret tt, add_candidate (custom_layer sourceId name layer, false) m).
Proof.
  unfold add_custom_layer, bind, map_getLayer, add_candidate. simpl.
  destruct (engine_getLayer m (get_prop (custom_layer sourceId name layer) "id"))
    eqn:E; [| done].
  unfold ret. by rewrite addLayer_existing by (rewrite E; eauto).
Qed.

Lemma forEach_custom (sourceId name : string) (layers : list JsVal) (m : MapState) :
  forEach (add_custom_layer sourceId name) layers m
  = (Ret tt,
     add_candidates (List.map (fun l => (custom_layer sourceId name l, false)) layers) m).
Proof.
  revert m. induction layers as [| l layers IH]; intros m; simpl; [done |].
  unfold bind. rewrite add_custom_layer_run. apply IH.
Qed.

Lemma follows_custom (style : JsVal) (sourceId name : string) :
  follows (_addCustomStyleLayers style sourceId name)
          (custom_plan style sourceId name).
Proof.
  intros m. unfold _addCustomStyleLayers, custom_plan.
  destruct (get_prop style "layers"); try done. apply forEach_custom.
Qed.

Lemma debug_layer_id (sourceId name : string) (i : nat) (l : JsVal) :
  get_prop (debug_layer sourceId name i l) "id" = debug_id name l.
Proof. reflexivity. Qed.

Lemma forEach_debug (sourceId name : string) (polyLayer lineLayer : option JsVal)
    (ils : list (nat * JsVal)) (m : MapState) :
  forEach (add_debug_layer sourceId name polyLayer lineLayer) ils m
  = (snd (debug_plan sourceId name polyLayer lineLayer ils),
     add_candidates (fst (debug_plan sourceId name polyLayer lineLayer ils)) m).
Proof.
  revert m. induction ils as [| [i l] ils IH]; intros m; [done |].
  assert (Hstep : forall m,
             match l with VUndefined | VNull => False | _ => True end ->
             add_debug_layer sourceId name polyLayer lineLayer (i, l) m
             = (Ret tt,
                if drawn polyLayer lineLayer l then m
                else add_candidate (debug_layer sourceId name i l, false) m)).
  { intros m0 Hl.
    assert (Hbody :
              (let! existing := map_getLayer (debug_id name l) in
               match existing with
               | Some _ => ret tt
               | None =>
                   if drawn polyLayer lineLayer l then ret tt
                   else map_addLayer (debug_layer sourceId name i l) VUndefined
               end) m0
              = (Ret tt,
                 if drawn polyLayer lineLayer l then m0
                 else add_candidate (debug_layer sourceId name i l, false) m0)).
    { unfold bind, map_getLayer, add_candidate. simpl.
      destruct (engine_getLayer m0 (debug_id name l)) eqn:E.
      - unfold ret. destruct (drawn polyLayer lineLayer l); [done |].
        rewrite addLayer_existing; [done |].
        rewrite debug_layer_id, E. eauto.
      - by destruct (drawn polyLayer lineLayer l). }
    destruct l; try done. }
  change (forEach ?f ((i, l) :: ils) m)
    with (bind (f (i, l)) (fun _ => forEach f ils) m).
  unfold bind.
  destruct l; try done;
    (rewrite Hstep by done; rewrite IH; cbn [debug_plan];
     destruct (debug_plan sourceId name polyLayer lineLayer ils) as [cs o];
     destruct (drawn polyLayer lineLayer _); done).
Qed.

Lemma add_candidates_app (cs1 cs2 : list Candidate) (m : MapState) :
  add_candidates (cs1 ++ cs2) m = add_candidates cs2 (add_candidates cs1 m).
Proof. unfold add_candidates. apply fold_left_app. Qed.

Lemma optional_layer_run {A} (f : JsVal -> JsVal) (found : option JsVal)
    (k : unit -> ST MapState A) (m : MapState) :
  bind (match found with
        | Some l => map_addLayer (f l) VUndefined
        | None => ret tt
        end) k m
  = k tt (add_candidates (optional_layer f found) m).
Proof. by destruct found. Qed.

Lemma bind_await_inr {S A B} (a : A) (k : A -> ST S B) (s : S) :
  bind (await (inr a)) k s = k a s.
Proof. reflexivity. Qed.

Lemma background_run {A} (k : ST MapState A) (m : MapState) :
  (let! bg := map_getLayer (VStr "background") in
   do! (match bg with
        | Some _ => ret tt
        | None =>
            let! layers := map_getStyle_layers in
            map_addLayer background_layer (opt_id (head layers))
        end) in
   k) m
  = k (add_candidate (background_layer, true) m).
Proof.
  unfold bind, map_getLayer, map_getStyle_layers, add_candidate. simpl.
  destruct (engine_getLayer m (VStr "background")) eqn:E; [| done].
  unfold ret. rewrite addLayer_existing; [done |].
  change (get_prop background_layer "id") with (VStr "background").
  rewrite E. eauto.
Qed.

Lemma follows_vector (metadata : JsVal) (sourceId name : string) :
  follows (_addVectorLayers metadata sourceId name)
          (vector_plan metadata sourceId name).
Proof.
  intros m. unfold _addVectorLayers, vector_plan.
  rewrite background_run.
  set (m1 := add_candidate (background_layer, true) m).
  destruct (num_pos (to_number (num_str H) (length_prop (vector_layers metadata))));
    [| done].
  destruct (vector_layers metadata) as [| | | | | items |]; try done.
  destruct (find_layer POLY_LAYERS items) as [e | polyLayer]; [done |].
  rewrite bind_await_inr, optional_layer_run.
  destruct (find_layer LINE_LAYERS items) as [e | lineLayer]; [done |].
  rewrite bind_await_inr, optional_layer_run, forEach_debug.
  destruct (debug_plan sourceId name polyLayer lineLayer
              (imap (fun i l => (i, l)) items)) as [cs o].
  simpl. f_equal.
  change (add_candidates ((background_layer, true) :: ?cs) m)
    with (add_candidates cs m1).
  by rewrite !add_candidates_app.
Qed.
End Helpers.

(** ** The plans only propose prefixed layers on the archive's source *)

Section PlanLayers.
Context {H : Host}.
Variable name : string.

Lemma prefixed_dash (fields : list (string * JsVal)) (suffix : string) :
  get_prop (VObj fields) "id" = VStr (name +:+ String "-" suffix) ->
  prefixed name (VObj fields) = true.
Proof. unfold prefixed. intros ->. apply prefix_dash. Qed.

Lemma plan_prefixed_raster :
  plan_prefixed name (raster_plan (source_id name) name).
Proof.
  intros c [<- | []] _. simpl. by apply (prefixed_dash _ "raster").
Qed.

Lemma custom_layer_prefixed (layer : JsVal) :
  uses_source (source_id name) (custom_layer (source_id name) name layer) = true ->
  prefixed name (custom_layer (source_id name) name layer) = true.
Proof.
  unfold custom_layer.
  set (newLayer := spread layer).
  set (id := to_string (num_str H) (default VUndefined (assoc_get "id" newLayer))).
  destruct (strict_eq_prim _ (VStr "background")).
  { intros _. apply (prefixed_dash _ id). apply get_prop_set_prop. }
  destruct (truthy (default VUndefined (assoc_get "source" newLayer))) eqn:Hs.
  { intros _. apply (prefixed_dash _ id). apply get_prop_set_prop. }
  unfold uses_source. simpl. intros Hu.
  destruct (default VUndefined (assoc_get "source" newLayer)) as [| | | | src | |];
    try discriminate.
  apply String.eqb_eq in Hu. subst src. simpl in Hs.
  unfold source_id in Hs. by rewrite append_nonempty in Hs.
Qed.

Lemma plan_prefixed_custom (style : JsVal) :
  plan_prefixed name (custom_plan style (source_id name) name).
Proof.
  intros c. unfold custom_plan.
  destruct (get_prop style "layers"); try done. simpl.
  intros (l & <- & _)%in_map_iff. apply custom_layer_prefixed.
Qed.

Lemma debug_plan_prefixed (polyLayer lineLayer : option JsVal)
    (ils : list (nat * JsVal)) (c : Candidate) :
  In c (fst (debug_plan (source_id name) name polyLayer lineLayer ils)) ->
  prefixed name (fst c) = true.
Proof.
  induction ils as [| [i l] ils IH]; [done |]. cbn [debug_plan].
  destruct (debug_plan (source_id name) name polyLayer lineLayer ils) as [cs o].
  assert (Hl : In c (fst (if drawn polyLayer lineLayer l then (cs, o)
                          else ((debug_layer (source_id name) name i l, false) :: cs, o))) ->
               prefixed name (fst c) = true).
  { destruct (drawn polyLayer lineLayer l); [exact IH |].
    intros [<- | Hin]; [| by apply IH].
    simpl. eapply prefixed_dash. reflexivity. }
  destruct l; try done.
Qed.

Lemma optional_layer_prefixed (f : JsVal -> JsVal) (found : option JsVal)
    (c : Candidate) :
  (forall l, prefixed name (f l) = true) ->
  In c (optional_layer f found) -> prefixed name (fst c) = true.
Proof.
  intros Hf. destruct found as [l |]; simpl; [| done].
  intros [<- | []]. apply Hf.
Qed.

Lemma plan_prefixed_vector (metadata : JsVal) :
  plan_prefixed name (vector_plan metadata (source_id name) name).
Proof.
  assert (Hfill : forall l, prefixed name (fill_layer (source_id name) name l) = true).
  { intros l. by apply (prefixed_dash _ "fill"). }
  assert (Hline : forall l, prefixed name (line_layer (source_id name) name l) = true).
  { intros l. by apply (prefixed_dash _ "line"). }
  intros c. unfold vector_plan.
  destruct (num_pos _).
  2: { intros [<- | [<- | []]]; [done |]. intros _.
       by apply (prefixed_dash _ "fallback-fill"). }
  destruct (vector_layers metadata) as [| | | | | items |];
    try (intros [<- | []]; done).
  destruct (find_layer POLY_LAYERS items) as [e | polyLayer];
    [intros [<- | []]; done |].
  destruct (find_layer LINE_LAYERS items) as [e | lineLayer].
  { intros [<- | Hin]; [done |]. intros _.
    by apply (optional_layer_prefixed _ _ _ Hfill Hin). }
  destruct (debug_plan (source_id name) name polyLayer lineLayer
              (imap (fun i l => (i, l)) items)) as [cs o] eqn:Ep.
  intros [<- | Hin]; [done |]. intros _.
  apply in_app_or in Hin as [Hin | Hin];
    [by apply (optional_layer_prefixed _ _ _ Hfill Hin) |].
  apply in_app_or in Hin as [Hin | Hin];
    [by apply (optional_layer_prefixed _ _ _ Hline Hin) |].
  apply (debug_plan_prefixed polyLayer lineLayer (imap (fun i l => (i, l)) items)).
  by rewrite Ep.
Qed.
End PlanLayers.

(** ** Loading twice *)

Lemma NoDup_map_filter {A B} (f : A -> B) (g : A -> bool) (l : list A) :
  NoDup (List.map f l) -> NoDup (List.map f (List.filter g l)).
Proof.
  induction l as [| x l IH]; simpl; [done |].
  intros [Hx Hnd]%NoDup_cons. destruct (g x); simpl; [| by apply IH].
  apply NoDup_cons. split; [| by apply IH].
  intros Hin. apply Hx. apply list_elem_of_In in Hin. apply list_elem_of_In.
  apply in_map_iff in Hin as (y & Hy & Hin). apply filter_In in Hin as [Hin _].
  apply in_map_iff. eauto.
Qed.

Lemma NoDup_of_map {A B} (f : A -> B) (l : list A) :
  NoDup (List.map f l) -> NoDup l.
Proof.
  induction l as [| x l IH]; simpl; [constructor |].
  intros [Hx Hnd]%NoDup_cons. apply NoDup_cons. split; [| by apply IH].
  intros Hin. apply Hx. apply list_elem_of_In. apply in_map.
  by apply list_elem_of_In.
Qed.

Section Reload.
Context {H : Host}.
Variable name : string.

Lemma addSource_run (spec : SourceSpec) (m m' : MapState) :
  map_addSource (source_id name) spec m = (Ret tt, m') ->
  map_sources m !! source_id name = None
  /\ map_layers m' = map_layers m
  /\ map_sources m' =
     if source_valid H spec then <[source_id name := spec]> (map_sources m)
     else map_sources m.
Proof.
  unfold map_addSource, engine_addSource.
  destruct (map_sources m !! source_id name); [discriminate |].
  destruct (source_valid H spec); by intros [= <-].
Qed.

Lemma addSource_ok (spec : SourceSpec) (m : MapState) :
  map_sources m !! source_id name = None ->
  map_addSource (source_id name) spec m =
  (Ret tt,
   {| map_layers := map_layers m;
      map_sources :=
        if source_valid H spec then <[source_id name := spec]> (map_sources m)
        else map_sources m |}).
Proof.
  intros Hn. unfold map_addSource, engine_addSource. rewrite Hn.
  destruct (source_valid H spec); [done |]. by destruct m.
Qed.

(** The map part of [loadMap], run a second time, succeeds and gives the
    same sources and the same set of layers. *)
Lemma reload_map (f : ST MapState unit) (p : Plan) (spec : SourceSpec)
    (m mc ms m1 : MapState) :
  follows f p ->
  plan_prefixed name p ->
  map_wf name m ->
  _cleanup name m = (Ret tt, mc) ->
  map_addSource (source_id name) spec mc = (Ret tt, ms) ->
  f ms = (Ret tt, m1) ->
  exists mc' ms' m2,
    _cleanup name m1 = (Ret tt, mc')
    /\ map_addSource (source_id name) spec mc' = (Ret tt, ms')
    /\ f ms' = (Ret tt, m2)
    /\ map_sources m2 = map_sources m1
    /\ Permutation (map_layers m2) (map_layers m1)
    /\ NoDup (List.map layer_key (map_layers m2)).
Proof.
  intros Hf Hp [Hkeys Hsrc] Hc Ha Hrun.
  apply cleanup_run in Hc as [Hstr ->].
  apply addSource_run in Ha as (Hnone & Hlms & Hsms).
  rewrite Hf in Hrun. injection Hrun as Hout <-.
  set (sid := source_id name) in *.
  set (unprefixed := fun l => negb (prefixed name l)).
  set (cs := fst p) in *.
  (* no layer left by the first cleanup uses the source *)
  assert (Hfree : existsb (uses_source sid) (map_layers (cleaned name m)) = false).
  { apply not_true_is_false. intros Hu. unfold cleaned in Hnone, Hu.
    simpl in Hnone, Hu. fold sid in Hnone, Hu. rewrite Hu in Hnone.
    assert (Hum : existsb (uses_source sid) (map_layers m) = true).
    { apply existsb_exists in Hu as (l & [Hl _]%filter_In & Hl').
      apply existsb_exists. eauto. }
    destruct (Hsrc Hum) as [x Hx]. congruence. }
  assert (Hstr_ms : forallb string_id (map_layers ms) = true).
  { rewrite Hlms. simpl. rewrite forallb_forall in Hstr. apply forallb_forall.
    intros l [Hl _]%filter_In. by apply Hstr. }
  assert (Hnd_ms : NoDup (List.map layer_key (map_layers ms))).
  { rewrite Hlms. simpl. by apply NoDup_map_filter. }
  set (m1 := add_candidates cs ms).
  assert (Hnd1 : NoDup (List.map layer_key (map_layers m1))).
  { by apply add_candidates_NoDup. }
  assert (Hstr1 : forallb string_id (map_layers m1) = true).
  { by apply add_candidates_string. }
  (* no layer left by the second cleanup uses the source *)
  assert (Hfree1 : existsb (uses_source sid) (map_layers (cleaned name m1)) = false).
  { apply not_true_is_false. intros (l & [Hl Hun]%filter_In & Hu)%existsb_exists.
    apply (add_candidates_in cs ms) in Hl as [Hl | Hl].
    - rewrite Hlms in Hl.
      assert (existsb (uses_source sid) (map_layers (cleaned name m)) = true);
        [| congruence].
      apply existsb_exists. eauto.
    - apply in_map_iff in Hl as (c & <- & Hc).
      rewrite (Hp c Hc Hu) in Hun. discriminate. }
  assert (Hsrc1 : map_sources (cleaned name m1) = map_sources (cleaned name m)).
  { unfold cleaned at 1. simpl. fold sid.
    change (List.filter _ (map_layers m1)) with (map_layers (cleaned name m1)).
    rewrite Hfree1. unfold m1. rewrite add_candidates_sources, Hsms.
    destruct (source_valid H spec).
    - by apply delete_insert_id.
    - by apply delete_id. }
  exists (cleaned name m1).
  eexists. exists (add_candidates cs
                     {| map_layers := map_layers (cleaned name m1);
                        map_sources :=
                          if source_valid H spec
                          then <[sid := spec]> (map_sources (cleaned name m1))
                          else map_sources (cleaned name m1) |}).
  split; [by apply cleanup_ok |].
  split; [apply addSource_ok; by rewrite Hsrc1 |].
  set (ms' := {| map_layers := map_layers (cleaned name m1); map_sources := _ |}).
  split; [by rewrite Hf, Hout |].
  assert (Hss : map_sources ms' = map_sources ms).
  { unfold ms'. cbn [map_sources]. fold sid. by rewrite Hsrc1, Hsms. }
  assert (Hsame : forall l,
             In l (map_layers (add_candidates cs ms')) <->
             In l (map_layers m1)).
  { intros l.
    rewrite (add_candidates_again cs ms ms' (map_layers (cleaned name m1)));
      [| done | | done |].
    - split; [| tauto]. intros [? | [? _]%filter_In]; done.
    - intros l'. simpl. split; [tauto |]. intros [Hl' | Hl']; [| done].
      rewrite Hlms in Hl'. simpl in Hl'. apply filter_In in Hl' as [Hl' Hun].
      apply filter_In. split; [| done].
      apply (add_candidates_in cs ms). rewrite Hlms. simpl.
      apply filter_In. done.
    - intros l' [Hl' _]%filter_In. done. }
  assert (Hnd2 : NoDup (List.map layer_key (map_layers (add_candidates cs ms')))).
  { apply add_candidates_NoDup. simpl. by apply NoDup_map_filter. }
  split; [unfold m1; by rewrite !add_candidates_sources |].
  split; [| done].
  apply NoDup_Permutation.
  - by apply NoDup_of_map in Hnd2.
  - by apply NoDup_of_map in Hnd1.
  - intros l. rewrite !list_elem_of_In. apply Hsame.
Qed.
End Reload.

(** ** [loadMap] *)

Section LoadTwice.
Context {H : Host}.
Variable name : string.
Variable onProgress : bool.

Lemma follows_layers (d : Db) (header : Header) (metadata : JsVal) :
  follows (layers_helper d header metadata name)
          (layers_plan d header metadata name).
Proof.
  unfold layers_helper, layers_plan, vector_helper, vector_helper_plan.
  destruct (is_vector header); [| apply follows_raster].
  destruct (stored_style d name) as [style |]; [| apply follows_vector].
  destruct (truthy style && truthy (get_prop style "layers"));
    [apply follows_custom | apply follows_vector].
Qed.

Lemma plan_prefixed_layers (d : Db) (header : Header) (metadata : JsVal) :
  plan_prefixed name (layers_plan d header metadata name).
Proof.
  unfold layers_plan, vector_helper_plan.
  destruct (is_vector header); [| apply plan_prefixed_raster].
  destruct (stored_style d name) as [style |]; [| apply plan_prefixed_vector].
  destruct (truthy style && truthy (get_prop style "layers"));
    [apply plan_prefixed_custom | apply plan_prefixed_vector].
Qed.

Lemma getMapFile_ret (w w' : World H) (b : option Blob) :
  getMapFile name w = (Ret b, w') ->
  w' = w /\ forall v : World H, db v = db w -> getMapFile name v = (Ret b, v).
Proof.
  unfold getMapFile, try_catch, bind, files_get, ret.
  destruct (files_get_fault H (db w) name) eqn:E; [discriminate |].
  intros [= <- <-]. split; [done |]. intros v ->. by rewrite E.
Qed.

Lemma getMapStyle_run (w : World H) :
  getMapStyle name w = (Ret (stored_style (db w) name), w).
Proof.
  unfold getMapStyle, try_catch, bind, styles_get, ret, stored_style.
  by destruct (styles_get_fault H (db w) name).
Qed.

Lemma on_map_run {A} (f : ST MapState A) (w : World H) (o : Outcome A)
    (m' : MapState) :
  f (map w) = (o, m') -> on_map f w = (o, with_map w m').
Proof. unfold on_map. by intros ->. Qed.

Lemma on_map_inv {A} (f : ST MapState A) (w w' : World H) (o : Outcome A) :
  on_map f w = (o, w') -> f (map w) = (o, map w') /\ w' = with_map w (map w').
Proof.
  unfold on_map. destruct (f (map w)) as [o' m']. by intros [= <- <-].
Qed.

(** [load_layers] is the map part of [loadMap] followed by a report. *)
Lemma load_layers_run (blob : Blob) (w : World H) (header : Header)
    (metadata : JsVal) :
  pm_getHeader H (new_BlobSource blob name) = inr header ->
  pm_getMetadata H (new_BlobSource blob name) = inr metadata ->
  load_layers name onProgress blob w =
  match map_addSource (source_id name) (archive_source name header metadata) (map w) with
  | (Ret _, ms) =>
      match layers_helper (db w) header metadata name ms with
      | (Ret _, m1) => (Ret tt, extend (with_map w m1) (loaded_effect name onProgress header metadata))
      | (Throw e, m1) => (Throw e, with_map w m1)
      | (OutOfFuel, m1) => (OutOfFuel, with_map w m1)
      end
  | (Throw e, ms) => (Throw e, with_map w ms)
  | (OutOfFuel, ms) => (OutOfFuel, with_map w ms)
  end.
Proof.
  intros Hh Hm. unfold load_layers. rewrite Hh, Hm, !bind_await_inr.
  fold (source_id name). unfold bind at 1. unfold on_map at 1.
  destruct (map_addSource (source_id name) (archive_source name header metadata) (map w))
    as [[[] | e |] ms]; [| done | done].
  unfold layers_helper, loaded_effect, bind at 1.
  destruct (is_vector header).
  - unfold bind at 1. rewrite getMapStyle_run. unfold on_map. simpl.
    destruct (vector_helper _ _ _ _ ms) as [[[] | e |] m1]; try done.
    unfold report_load, emit, extend. simpl.
    by destruct onProgress.
  - unfold on_map. cbn [map with_map].
    destruct (_addRasterLayer (source_id name) name ms) as [[[] | e |] m1];
      try done.
    unfold report_load, emit, extend. simpl.
    by destruct onProgress.
Qed.

Lemma load_layers_inv (blob : Blob) (w w' : World H) :
  load_layers name onProgress blob w = (Ret tt, w') ->
  exists header metadata ms,
    pm_getHeader H (new_BlobSource blob name) = inr header
    /\ pm_getMetadata H (new_BlobSource blob name) = inr metadata
    /\ map_addSource (source_id name) (archive_source name header metadata) (map w)
       = (Ret tt, ms)
    /\ layers_helper (db w) header metadata name ms = (Ret tt, map w')
    /\ db w' = db w.
Proof.
  intros Hr.
  destruct (pm_getHeader H (new_BlobSource blob name)) as [e | header] eqn:Hh.
  { unfold load_layers in Hr. rewrite Hh in Hr. discriminate. }
  destruct (pm_getMetadata H (new_BlobSource blob name)) as [e | metadata] eqn:Hm.
  { unfold load_layers in Hr. rewrite Hh, Hm in Hr. discriminate. }
  rewrite (load_layers_run _ _ _ _ Hh Hm) in Hr.
  destruct (map_addSource _ _ (map w)) as [[[] | e |] ms] eqn:Ea;
    try discriminate.
  destruct (layers_helper (db w) header metadata name ms) as [[[] | e |] m1] eqn:El;
    try discriminate.
  injection Hr as <-. by exists header, metadata, ms.
Qed.

(** C10: when [loadMap] has loaded an archive into a map whose layers have
    distinct ids and whose layers on the source [name-source] have that
    source, it has first run [_cleanup], which removed every layer whose id
    starts with [name-] and the source [name-source], and then added the
    source and the layers, so that the map has the source [name-source] of
    the archive when the engine accepted it; calling [loadMap] again for the
    same name succeeds and leaves the map with the same sources and the same
    set of layers, without duplicated ids. *)
Theorem reload_idempotent (w w1 : World H) :
  map_wf name (map w) ->
  loadMap name onProgress w = (Ret tt, w1) ->
  (forall blob,
      stored w name blob ->
      exists header metadata ms,
        _cleanup name (map w) = (Ret tt, cleaned name (map w))
        /\ forallb (fun l => negb (prefixed name l))
                   (map_layers (cleaned name (map w))) = true
        /\ map_sources (cleaned name (map w)) !! source_id name = None
        /\ map_addSource (source_id name) (archive_source name header metadata)
             (cleaned name (map w)) = (Ret tt, ms)
        /\ map w1 = add_candidates (fst (layers_plan (db w) header metadata name)) ms
        /\ (source_valid H (archive_source name header metadata) = true ->
            map_sources (map w1) !! source_id name
            = Some (archive_source name header metadata)))
  /\ exists w2,
      loadMap name onProgress w1 = (Ret tt, w2)
      /\ map_sources (map w2) = map_sources (map w1)
      /\ Permutation (map_layers (map w2)) (map_layers (map w1))
      /\ NoDup (List.map layer_key (map_layers (map w2))).
Proof.
  intros Hwf Hr. unfold loadMap in Hr.
  apply bind_ret_inv in Hr as (b & wa & Hg & Hr).
  apply getMapFile_ret in Hg as [-> Hg'].
  destruct b as [blob |].
  2: { injection Hr as <-. split.
       - intros blob [Hf Hb]. pose proof (Hg' w eq_refl) as Hg.
         unfold getMapFile, try_catch, bind, files_get, ret in Hg.
         rewrite Hf in Hg. simpl in Hg. congruence.
       - eexists. split; [| split; [| split]].
         + unfold loadMap.
           rewrite (bind_run (S := World H) _ _ _ _ _
                      (Hg' (extend w (EAlert ("Map " +:+ name +:+ " not found!")))
                           eq_refl)).
           reflexivity.
         + done.
         + done.
         + simpl. apply Hwf. }
  apply bind_ret_inv in Hr as ([] & wc & Hc & Hr).
  apply on_map_inv in Hc as [Hc Hwc].
  apply load_layers_inv in Hr as (header & metadata & ms & Hh & Hm & Ha & Hl & Hd).
  assert (Hdc : db wc = db w) by by rewrite Hwc.
  rewrite Hdc in Hl, Hd.
  destruct (reload_map name _ _ _ _ _ _ _
              (follows_layers (db w) header metadata)
              (plan_prefixed_layers (db w) header metadata) Hwf Hc Ha Hl)
    as (mc' & ms' & m2 & Hc' & Ha' & Hl' & Hs2 & Hp2 & Hn2).
  split.
  - intros blob' Hst. exists header, metadata, ms.
    pose proof (cleanup_run _ _ _ Hc) as [Hstr Hcl].
    rewrite Hcl in Ha. pose proof (addSource_run _ _ _ _ Ha) as (Hnone & _).
    split; [by rewrite <- Hcl |]. split.
    { apply forallb_forall. by intros l [_ ?]%filter_In. }
    split; [done |]. split; [done |].
    pose proof (follows_layers (db w) header metadata ms) as Hf.
    rewrite Hl in Hf. injection Hf as _ Hw1. split; [done |].
    intros Hv. pose proof (addSource_run _ _ _ _ Ha) as (_ & _ & Hs).
    rewrite Hv in Hs.
    by rewrite Hw1, add_candidates_sources, Hs, lookup_insert_eq.
  - exists (extend (with_map (with_map w1 mc') m2) (loaded_effect name onProgress header metadata)).
    split; [| by split].
    unfold loadMap.
    rewrite (bind_run (S := World H) _ _ _ _ _ (Hg' w1 Hd)).
    rewrite (bind_run (S := World H) _ _ _ _ _ (on_map_run _ _ _ _ Hc')).
    rewrite (load_layers_run _ _ _ _ Hh Hm).
    change (map (with_map w1 mc')) with mc'.
    change (db (with_map w1 mc')) with (db w1).
    by rewrite Ha', Hd, Hl'.
Qed.
End LoadTwice.

Lemma reload_idempotent_witness :
  exists w1 w2,
    loadMap "paris" true stale_world = (Ret tt, w1)
    /\ loadMap "paris" true w1 = (Ret tt, w2)
    /\ List.map (layer_key (H := script_host None raster_reader)) (map_layers (map w1))
       = ["base"; "paris-raster"]
    /\ map_sources (map w2) = map_sources (map w1)
    /\ Permutation (map_layers (map w2)) (map_layers (map w1)).
Proof.
  assert (Hwf : map_wf (H := script_host None raster_reader) "paris" (map stale_world)).
  { split.
    - apply (bool_decide_unpack _). vm_compute. reflexivity.
    - intros _. eexists. vm_compute. reflexivity. }
  assert (Hr : loadMap "paris" true stale_world
               = (Ret tt, snd (loadMap "paris" true stale_world))).
  { vm_compute. reflexivity. }
  destruct (reload_idempotent "paris" true stale_world _ Hwf Hr)
    as (_ & w2 & Hr2 & Hs & Hp & _).
  exists (snd (loadMap "paris" true stale_world)), w2.
  split; [exact Hr |]. split; [exact Hr2 |].
  split; [vm_compute; reflexivity |]. split; [exact Hs | exact Hp].
Defined.

(** * Further properties of the code *)

(** ** [src/db.js] *)

Section StorageFacts.
Context {H : Host}.

Lemma saveMapFile_run (name : string) (blob : Blob) (w : World H) :
  saveMapFile name blob w =
  let rec := {| file_name := name; file_blob := blob; file_date := clock w |} in
  match files_put_fault H (db w) rec with
  | Some e =>
      (Throw e, extend w (EErrorLog ("Failed to save " +:+ name +:+ ":") (Some e)))
  | None =>
      (Ret tt,
       {| server := server w;
          db := {| files := <[name := rec]> (files (db w));
                   styles := styles (db w) |};
          map := map w; clock := clock w;
          trace := (trace w ++ [EPutFile rec])
                   ++ [ELog ("Saved " +:+ name +:+ " to IndexedDB")] |})
  end.
Proof.
  unfold saveMapFile, try_catch, bind, now, files_put, emit, extend, throw.
  cbn [file_name]. by destruct (files_put_fault H (db w) _).
Qed.

Lemma saveMapStyle_run (name : string) (style : JsVal) (w : World H) :
  saveMapStyle name style w =
  let rec := {| style_name := name; style_doc := style; style_date := clock w |} in
  match styles_put_fault H (db w) rec with
  | Some e =>
      (Throw e,
       extend w (EErrorLog ("Failed to save style for " +:+ name +:+ ":") (Some e)))
  | None =>
      (Ret tt,
       {| server := server w;
          db := {| files := files (db w);
                   styles := <[name := rec]> (styles (db w)) |};
          map := map w; clock := clock w;
          trace := (trace w ++ [EPutStyle rec])
                   ++ [ELog ("Saved style for " +:+ name +:+ " to IndexedDB")] |})
  end.
Proof.
  unfold saveMapStyle, try_catch, bind, now, styles_put, emit, extend, throw.
  cbn [style_name]. by destruct (styles_put_fault H (db w) _).
Qed.

Lemma getMapFile_run (name : string) (w : World H) :
  getMapFile name w =
  match files_get_fault H (db w) name with
  | Some e =>
      (Throw e, extend w (EErrorLog ("Failed to get " +:+ name +:+ ":") (Some e)))
  | None => (Ret (file_blob <$> files (db w) !! name), w)
  end.
Proof.
  unfold getMapFile, try_catch, bind, files_get, emit, extend, throw, ret.
  by destruct (files_get_fault H (db w) name).
Qed.

(** X1: an archive saved with [saveMapFile] is what [getMapFile] returns for
    that name afterwards, whatever was stored under the name before; the
    archives of the other names and all the styles are as they were. *)
Theorem saved_file_is_read_back (name : string) (blob : Blob) (w w1 : World H) :
  saveMapFile name blob w = (Ret tt, w1) ->
  (files_get_fault H (db w1) name = None ->
   getMapFile name w1 = (Ret (Some blob), w1))
  /\ (forall other, other <> name ->
        files (db w1) !! other = files (db w) !! other)
  /\ styles (db w1) = styles (db w)
  /\ map w1 = map w.
Proof.
  rewrite saveMapFile_run. cbn zeta.
  destruct (files_put_fault H (db w) _); [discriminate |].
  intros [= <-]. cbn [db files styles map]. split; [| split; [| done]].
  - intros Hg. rewrite getMapFile_run. cbn [db files]. rewrite Hg.
    by rewrite lookup_insert_eq.
  - intros other Hne. by rewrite lookup_insert_ne.
Qed.

(** X2: a style saved with [saveMapStyle] is what [getMapStyle] returns for
    that name afterwards when the table can be read; the styles of the other
    names and all the archives are as they were. *)
Theorem saved_style_is_read_back (name : string) (style : JsVal)
    (w w1 : World H) :
  saveMapStyle name style w = (Ret tt, w1) ->
  (styles_get_fault H (db w1) name = None ->
   getMapStyle name w1 = (Ret (Some style), w1))
  /\ (forall other, other <> name ->
        styles (db w1) !! other = styles (db w) !! other)
  /\ files (db w1) = files (db w)
  /\ map w1 = map w.
Proof.
  rewrite saveMapStyle_run. cbn zeta.
  destruct (styles_put_fault H (db w) _); [discriminate |].
  intros [= <-]. cbn [db files styles map]. split; [| split; [| done]].
  - intros Hg. rewrite getMapStyle_run. unfold stored_style.
    cbn [db styles]. rewrite Hg. by rewrite lookup_insert_eq.
  - intros other Hne. by rewrite lookup_insert_ne.
Qed.

End StorageFacts.

Lemma saved_file_is_read_back_witness :
  exists w1,
    saveMapFile "paris" four_bytes idle_world = (Ret tt, w1)
    /\ getMapFile "paris" w1 = (Ret (Some four_bytes), w1).
Proof.
  exists (snd (saveMapFile "paris" four_bytes idle_world)).
  assert (Hs : saveMapFile "paris" four_bytes idle_world
               = (Ret tt, snd (saveMapFile "paris" four_bytes idle_world))).
  { vm_compute. reflexivity. }
  split; [exact Hs |].
  exact (proj1 (saved_file_is_read_back "paris" four_bytes idle_world _ Hs) eq_refl).
Defined.

Lemma saved_style_is_read_back_witness :
  exists w1,
    saveMapStyle "paris" (VObj [("version", VNum (num_of_Z 8))]) idle_world
    = (Ret tt, w1)
    /\ getMapStyle "paris" w1 = (Ret (Some (VObj [("version", VNum (num_of_Z 8))])), w1).
Proof.
  exists (snd (saveMapStyle "paris" (VObj [("version", VNum (num_of_Z 8))]) idle_world)).
  assert (Hs : saveMapStyle "paris" (VObj [("version", VNum (num_of_Z 8))]) idle_world
               = (Ret tt, snd (saveMapStyle "paris"
                                 (VObj [("version", VNum (num_of_Z 8))]) idle_world))).
  { vm_compute. reflexivity. }
  split; [exact Hs |].
  exact (proj1 (saved_style_is_read_back "paris" _ idle_world _ Hs) eq_refl).
Defined.


Section DeletionFacts.
Context {H : Host}.
Variable F : StoreFaults.

(** X4: after [deleteMapFile] the archive of that name is gone, and after
    [deleteMapStyle] its style is; each leaves the records of the other
    names, the other table, the map and the trace as they were, and
    deleting a name that is not stored succeeds without any change to the
    table. *)
Theorem deleted_record_is_gone (name : string) (w w1 : World H) :
  (deleteMapFile F name w = (Ret tt, w1) ->
   files (db w1) !! name = None
   /\ (files_get_fault H (db w1) name = None ->
       getMapFile name w1 = (Ret None, w1))
   /\ (forall other, other <> name ->
         files (db w1) !! other = files (db w) !! other)
   /\ (files (db w) !! name = None -> files (db w1) = files (db w))
   /\ styles (db w1) = styles (db w)
   /\ map w1 = map w /\ trace w1 = trace w)
  /\ (deleteMapStyle F name w = (Ret tt, w1) ->
      styles (db w1) !! name = None
      /\ getMapStyle name w1 = (Ret None, w1)
      /\ (forall other, other <> name ->
            styles (db w1) !! other = styles (db w) !! other)
      /\ (styles (db w) !! name = None -> styles (db w1) = styles (db w))
      /\ files (db w1) = files (db w)
      /\ map w1 = map w /\ trace w1 = trace w).
Proof.
  split.
  - unfold deleteMapFile, files_delete.
    destruct (files_delete_fault F (db w) name); [discriminate |].
    intros [= <-]. cbn [with_db db files styles map trace].
    split; [apply lookup_delete_eq |]. split.
    { intros Hg. rewrite getMapFile_run. cbn [with_db db files]. rewrite Hg.
      by rewrite lookup_delete_eq. }
    split; [intros other Hne; by rewrite lookup_delete_ne |].
    split; [apply delete_id | done].
  - unfold deleteMapStyle, styles_delete.
    destruct (styles_delete_fault F (db w) name); [discriminate |].
    intros [= <-]. cbn [with_db db files styles map trace].
    split; [apply lookup_delete_eq |]. split.
    { rewrite getMapStyle_run. unfold stored_style. cbn [with_db db styles].
      rewrite lookup_delete_eq. by destruct (styles_get_fault H _ name). }
    split; [intros other Hne; by rewrite lookup_delete_ne |].
    split; [apply delete_id | done].
Qed.

Lemma table_rows_spec {A} (t : gmap string A) :
  exists rows : list (string * A),
    table_rows t = rows.*2
    /\ Sorted key_le rows
    /\ NoDup rows.*1
    /\ (forall k r, (k, r) ∈ rows <-> t !! k = Some r).
Proof.
  exists (merge_sort key_le (map_to_list t)). split; [done |].
  pose proof (merge_sort_Permutation key_le (map_to_list t)) as Hp.
  split.
  - assert (Ht : Total (key_le (A := A))).
    { intros a b. unfold key_le. apply String.leb_total. }
    apply (Sorted_merge_sort key_le).
  - split.
    + rewrite Hp. apply NoDup_fst_map_to_list.
    + intros k r. rewrite Hp. apply elem_of_map_to_list.
Qed.

(** X5: [listMapFiles] changes nothing and returns the records of the table
    of archives, each once, in the order of their keys; an archive that
    [saveMapFile] has just saved is among them. *)
Theorem listed_files_are_the_stored_ones (w : World H) :
  (forall rows w',
      listMapFiles F w = (Ret rows, w') ->
      w' = w
      /\ exists keyed : list (string * FileRecord),
           rows = keyed.*2
           /\ Sorted key_le keyed
           /\ NoDup keyed.*1
           /\ (forall k r, (k, r) ∈ keyed <-> files (db w) !! k = Some r))
  /\ (forall name blob w0,
        saveMapFile name blob w0 = (Ret tt, w) ->
        files_list_fault F (db w) = None ->
        exists rows,
          listMapFiles F w = (Ret rows, w)
          /\ {| file_name := name; file_blob := blob; file_date := clock w0 |} ∈ rows).
Proof.
  split.
  - intros rows w'. unfold listMapFiles, files_toArray.
    destruct (files_list_fault F (db w)); [discriminate |].
    intros [= <- <-]. split; [done |]. apply table_rows_spec.
  - intros name blob w0 Hs Hl. unfold listMapFiles, files_toArray. rewrite Hl.
    eexists. split; [done |].
    rewrite saveMapFile_run in Hs. cbn zeta in Hs.
    destruct (files_put_fault H (db w0) _); [discriminate |].
    injection Hs as <-. cbn [db files].
    destruct (table_rows_spec
                (<[name := {| file_name := name; file_blob := blob;
                              file_date := clock w0 |}]> (files (db w0))))
      as (keyed & -> & _ & _ & Hin).
    apply list_elem_of_fmap. exists (name, {| file_name := name; file_blob := blob;
                                         file_date := clock w0 |}).
    split; [done |]. apply Hin. apply lookup_insert_eq.
Qed.
End DeletionFacts.

Lemma deleted_record_is_gone_witness :
  let w1 := snd (deleteMapFile no_faults "paris" two_archives_world) in
  let w2 := snd (deleteMapStyle no_faults "paris" w1) in
  deleteMapFile no_faults "paris" two_archives_world = (Ret tt, w1)
  /\ getMapFile "paris" w1 = (Ret None, w1)
  /\ files (db w1) !! "lyon" = files two_archives !! "lyon"
  /\ deleteMapStyle no_faults "paris" w1 = (Ret tt, w2)
  /\ getMapStyle "paris" w2 = (Ret None, w2).
Proof.
  intros w1 w2.
  assert (H1 : deleteMapFile no_faults "paris" two_archives_world = (Ret tt, w1)).
  { vm_compute. reflexivity. }
  assert (H2 : deleteMapStyle no_faults "paris" w1 = (Ret tt, w2)).
  { vm_compute. reflexivity. }
  assert (Hg : files_get_fault test_host (db w1) "paris" = None).
  { vm_compute. reflexivity. }
  destruct (proj1 (deleted_record_is_gone no_faults "paris" two_archives_world w1) H1)
    as (_ & Hf & Ho & _).
  destruct (proj2 (deleted_record_is_gone no_faults "paris" w1 w2) H2)
    as (_ & Hs & _).
  split; [exact H1 |]. split; [exact (Hf Hg) |].
  split; [apply Ho; discriminate |]. split; [exact H2 | exact Hs].
Defined.

Lemma listed_files_are_the_stored_ones_witness :
  listMapFiles no_faults two_archives_world
  = (Ret [ {| file_name := "lyon"; file_blob := ten_bytes; file_date := 1 |};
           {| file_name := "paris"; file_blob := four_bytes; file_date := 0 |} ],
     two_archives_world)
  /\ exists keyed : list (string * FileRecord),
       keyed.*2 = [ {| file_name := "lyon"; file_blob := ten_bytes; file_date := 1 |};
                    {| file_name := "paris"; file_blob := four_bytes; file_date := 0 |} ]
       /\ Sorted key_le keyed.
Proof.
  assert (Hr : listMapFiles no_faults two_archives_world
               = (Ret [ {| file_name := "lyon"; file_blob := ten_bytes; file_date := 1 |};
                        {| file_name := "paris"; file_blob := four_bytes;
                           file_date := 0 |} ],
                  two_archives_world)).
  { vm_compute. reflexivity. }
  split; [exact Hr |].
  destruct (proj1 (listed_files_are_the_stored_ones no_faults two_archives_world)
              _ _ Hr) as (_ & keyed & Hk & Hs & _).
  exists keyed. split; [symmetry; exact Hk | exact Hs].
Defined.

(** ** [removeMap] *)

Section RemoveMap.
Context {H : Host}.
Variable F : StoreFaults.

(** The part of [removeMap] that works on the storage. *)
Lemma removal_run (name : string) (onProgress : bool) (w : World H) :
  (do! deleteMapFile F name in
   do! deleteMapStyle F name in
   report_load onProgress COMPLETE
     ("Storage (map + style) cleared for " +:+ name +:+ ".")) w =
  match files_delete_fault F (db w) name with
  | Some e => (Throw e, w)
  | None =>
      match styles_delete_fault F (without_file name (db w)) name with
      | Some e => (Throw e, with_db w (without_file name (db w)))
      | None =>
          (Ret tt,
           extend (with_db w (without name (db w))) (cleared_effect name onProgress))
      end
  end.
Proof.
  unfold deleteMapFile, deleteMapStyle, files_delete, styles_delete.
  unfold bind at 1.
  destruct (files_delete_fault F (db w) name); [done |].
  unfold bind at 1. cbn [with_db db files styles].
  fold (without_file name (db w)).
  destruct (styles_delete_fault F (without_file name (db w)) name); [done |].
  unfold report_load, cleared_effect, emit, extend, without, without_file.
  cbn [with_db db files styles server map clock trace].
  by destruct onProgress.
Qed.

(** What [removeMap] does, step by step. *)
Lemma removeMap_run (has_map : bool) (name : string) (onProgress : bool)
    (w : World H) :
  removeMap F has_map name onProgress w =
  match (if has_map then _cleanup name (map w) else (Ret tt, map w)) with
  | (Ret _, m1) =>
      match files_delete_fault F (db w) name with
      | Some e => (Throw e, with_map w m1)
      | None =>
          match styles_delete_fault F (without_file name (db w)) name with
          | Some e => (Throw e, with_db (with_map w m1) (without_file name (db w)))
          | None =>
              (Ret tt,
               extend (with_db (with_map w m1) (without name (db w)))
                      (cleared_effect name onProgress))
          end
      end
  | (Throw e, m1) => (Throw e, with_map w m1)
  | (OutOfFuel, m1) => (OutOfFuel, with_map w m1)
  end.
Proof.
  unfold removeMap. destruct has_map.
  - unfold bind at 1, on_map.
    destruct (_cleanup name (map w)) as [[[] | e |] m1]; [| done | done].
    by rewrite removal_run.
  - unfold bind at 1, ret at 1. rewrite removal_run. by destruct w.
Qed.

(** X6: when [removeMap] returns, the archive and the style of that name are
    no longer stored, while those of the other names are; a map that was
    passed has been cleaned as by [unloadMap], and one status, [COMPLETE],
    has been reported.  A later [getMapFile] or [getMapStyle] for the name
    finds nothing. *)
Theorem removed_map_is_cleared (has_map : bool) (name : string)
    (onProgress : bool) (w w1 : World H) :
  removeMap F has_map name onProgress w = (Ret tt, w1) ->
  db w1 = without name (db w)
  /\ map w1 = (if has_map then cleaned name (map w) else map w)
  /\ trace w1 = trace w ++ [cleared_effect name onProgress]
  /\ getMapStyle name w1 = (Ret None, w1)
  /\ (files_get_fault H (db w1) name = None -> getMapFile name w1 = (Ret None, w1)).
Proof.
  rewrite removeMap_run.
  destruct (if has_map then _cleanup name (map w) else (Ret tt, map w))
    as [[[] | e |] m1] eqn:Ec; [| discriminate | discriminate].
  destruct (files_delete_fault F (db w) name); [discriminate |].
  destruct (styles_delete_fault F _ name); [discriminate |].
  intros [= <-]. cbn [extend with_db with_map db map trace].
  split; [done |]. split.
  { destruct has_map; [| congruence]. by apply cleanup_run in Ec as [_ ->]. }
  split; [done |]. split.
  - rewrite getMapStyle_run. unfold stored_style, without.
    cbn [extend with_db with_map db styles]. rewrite lookup_delete_eq.
    by destruct (styles_get_fault H _ name).
  - intros Hg. rewrite getMapFile_run. cbn [extend with_db with_map db] in *.
    rewrite Hg. unfold without. cbn [files]. by rewrite lookup_delete_eq.
Qed.

(** X7: [removeMap] is not atomic.  When it throws it has reported nothing;
    the error of a failed deletion of the archive leaves the whole storage
    as it was although the layers of the map are already removed, and the
    error of a failed deletion of the style leaves the style stored although
    the archive is deleted. *)
Theorem failed_removal_is_partial (has_map : bool) (name : string)
    (onProgress : bool) (w w1 : World H) (e : JsError) :
  removeMap F has_map name onProgress w = (Throw e, w1) ->
  trace w1 = trace w
  /\ (db w1 = db w \/ (db w1 = without_file name (db w)
                       /\ styles_delete_fault F (db w1) name = Some e))
  /\ (forallb string_id (map_layers (map w)) = true ->
      has_map = true ->
      map w1 = cleaned name (map w)).
Proof.
  rewrite removeMap_run.
  destruct (if has_map then _cleanup name (map w) else (Ret tt, map w))
    as [[[] | e' |] m1] eqn:Ec; [| | discriminate].
  - assert (Hm : forallb string_id (map_layers (map w)) = true ->
                 has_map = true -> m1 = cleaned name (map w)).
    { intros _ ->. by apply cleanup_run in Ec as [_ ->]. }
    destruct (files_delete_fault F (db w) name).
    { intros [= <- <-]. cbn [with_map trace db map]. auto. }
    destruct (styles_delete_fault F _ name) eqn:Es; [| discriminate].
    intros [= <- <-]. cbn [with_db with_map trace db map]. auto.
  - intros [= <- <-]. cbn [with_map trace db map]. split; [done |].
    split; [by left |]. intros Hs ->. by rewrite (cleanup_ok _ _ Hs) in Ec.
Qed.

(** X8: after a [removeMap] that returned, [loadMap] for the same name only
    tells that the map is not found and leaves the map as it is. *)
Theorem removed_map_cannot_be_loaded (has_map : bool) (name : string)
    (onProgress onProgress' : bool) (w w1 : World H) :
  removeMap F has_map name onProgress w = (Ret tt, w1) ->
  files_get_fault H (db w1) name = None ->
  loadMap name onProgress' w1
  = (Ret tt, extend w1 (EAlert ("Map " +:+ name +:+ " not found!"))).
Proof.
  intros Hr Hg.
  assert (Hd : files (db w1) !! name = None).
  { rewrite removeMap_run in Hr.
    destruct (if has_map then _cleanup name (map w) else (Ret tt, map w))
      as [[[] | e |] m1]; [| discriminate | discriminate].
    destruct (files_delete_fault F (db w) name); [discriminate |].
    destruct (styles_delete_fault F _ name); [discriminate |].
    injection Hr as <-. cbn [extend with_db with_map db without files].
    apply lookup_delete_eq. }
  unfold loadMap.
  assert (Hf : getMapFile name w1 = (Ret None, w1)).
  { rewrite getMapFile_run, Hg. by rewrite Hd. }
  by rewrite (bind_run _ _ _ _ _ Hf).
Qed.
End RemoveMap.

Lemma removed_map_is_cleared_witness :
  let w1 := snd (removeMap no_faults true "paris" true shown_world) in
  removeMap no_faults true "paris" true shown_world = (Ret tt, w1)
  /\ db w1 = without "paris" two_archives
  /\ map w1 = cleaned "paris" stale_map
  /\ getMapStyle "paris" w1 = (Ret None, w1).
Proof.
  intros w1.
  assert (Hr : removeMap no_faults true "paris" true shown_world = (Ret tt, w1)).
  { vm_compute. reflexivity. }
  destruct (removed_map_is_cleared no_faults true "paris" true shown_world w1 Hr)
    as (Hd & Hm & _ & Hs & _).
  split; [exact Hr |]. split; [exact Hd |]. split; [exact Hm | exact Hs].
Defined.

Lemma failed_removal_is_partial_witness :
  let w1 := snd (removeMap locked_files true "paris" true shown_world) in
  removeMap locked_files true "paris" true shown_world = (Throw closed_error, w1)
  /\ trace w1 = []
  /\ map w1 = cleaned "paris" stale_map
  /\ List.map (layer_key (H := test_host)) (map_layers (map w1)) = ["base"].
Proof.
  intros w1.
  assert (Hr : removeMap locked_files true "paris" true shown_world
               = (Throw closed_error, w1)).
  { vm_compute. reflexivity. }
  destruct (failed_removal_is_partial locked_files true "paris" true shown_world w1
              closed_error Hr) as (Ht & _ & Hm).
  split; [exact Hr |]. split; [exact Ht |].
  split; [apply Hm; vm_compute; reflexivity |]. vm_compute. reflexivity.
Defined.

Lemma removed_map_cannot_be_loaded_witness :
  let w1 := snd (removeMap no_faults true "paris" true shown_world) in
  loadMap "paris" true w1 = (Ret tt, extend w1 (EAlert "Map paris not found!")).
Proof.
  intros w1.
  assert (Hr : removeMap no_faults true "paris" true shown_world = (Ret tt, w1)).
  { vm_compute. reflexivity. }
  assert (Hg : files_get_fault test_host (db w1) "paris" = None).
  { vm_compute. reflexivity. }
  exact (removed_map_cannot_be_loaded no_faults true "paris" true true
           shown_world w1 Hr Hg).
Defined.

(** ** [unloadMap] and [_cleanup] *)

Section Unload.
Context {H : Host}.
Variable name : string.

Lemma cleanup_layer_keeps (l0 : JsVal) (m m' : MapState) (o : Outcome unit) :
  cleanup_layer name l0 m = (o, m') ->
  map_sources m' = map_sources m
  /\ (forall l, In l (map_layers m') -> In l (map_layers m))
  /\ (forall l, In l (map_layers m) -> string_id l = true ->
                prefixed name l = false -> In l (map_layers m')).
Proof.
  unfold cleanup_layer.
  destruct (get_prop l0 "id") as [| | | | s | |] eqn:E;
    try (intros [= <- <-]; done).
  destruct (startsWith s (name +:+ "-")) eqn:Es; [| intros [= <- <-]; done].
  intros [= <- <-]. cbn [engine_removeLayer map_layers map_sources].
  split; [done |]. split.
  - by intros l [? _]%filter_In.
  - intros l Hin Hs Hp. apply filter_In. split; [done |].
    destruct (has_key s l) eqn:Hk; [| done]. exfalso.
    unfold has_key, layer_key, string_id, prefixed in *.
    destruct (get_prop l "id"); try discriminate. cbn in Hk.
    apply String.eqb_eq in Hk as ->. congruence.
Qed.

Lemma cleanup_layers_keep (ls : list JsVal) :
  forall (m m' : MapState) (o : Outcome unit),
    forEach (cleanup_layer name) ls m = (o, m') ->
    map_sources m' = map_sources m
    /\ (forall l, In l (map_layers m') -> In l (map_layers m))
    /\ (forall l, In l (map_layers m) -> string_id l = true ->
                  prefixed name l = false -> In l (map_layers m')).
Proof.
  induction ls as [| l0 ls IH]; intros m m' o Hr.
  - by injection Hr as <- <-.
  - cbn [forEach] in Hr.
    apply bind_inv in Hr as [([] & m1 & H0 & Hr) | [(e & H0 & ->) | [H0 ->]]];
      [| by apply cleanup_layer_keeps in H0 | by apply cleanup_layer_keeps in H0].
    apply cleanup_layer_keeps in H0 as (Hs0 & Hsub0 & Hkeep0).
    apply IH in Hr as (Hs & Hsub & Hkeep).
    split; [congruence |]. split; [auto |]. auto.
Qed.

(** However [_cleanup] ends, it adds no layer, keeps the layers that are not
    prefixed and keeps the other sources. *)
Lemma cleanup_keeps (m m' : MapState) (o : Outcome unit) :
  _cleanup name m = (o, m') ->
  (forall l, In l (map_layers m') -> In l (map_layers m))
  /\ (forall l, In l (map_layers m) -> string_id l = true ->
                prefixed name l = false -> In l (map_layers m'))
  /\ (forall id, id <> source_id name ->
                 map_sources m' !! id = map_sources m !! id).
Proof.
  unfold _cleanup. unfold bind at 1, map_getStyle_layers. fold (source_id name).
  intros Hr.
  apply bind_inv in Hr as [([] & m1 & Hf & Hr) | [(e & Hf & ->) | [Hf ->]]].
  - apply cleanup_layers_keep in Hf as (Hs & Hsub & Hkeep).
    unfold bind, map_getSource, map_removeSource, engine_removeSource in Hr.
    destruct (map_sources m1 !! source_id name) eqn:El.
    + rewrite ?El in Hr.
      destruct (existsb (uses_source (source_id name)) (map_layers m1)).
      * injection Hr as <- <-. split; [done |]. split; [done |].
        intros id _. by rewrite Hs.
      * injection Hr as <- <-. cbn [map_layers map_sources].
        split; [done |]. split; [done |].
        intros id Hne. by rewrite lookup_delete_ne, Hs.
    + injection Hr as <- <-. split; [done |]. split; [done |].
      intros id _. by rewrite Hs.
  - apply cleanup_layers_keep in Hf as (Hs & Hsub & Hkeep).
    split; [done |]. split; [done |]. intros id _. by rewrite Hs.
  - apply cleanup_layers_keep in Hf as (Hs & Hsub & Hkeep).
    split; [done |]. split; [done |]. intros id _. by rewrite Hs.
Qed.

(** X9: however [unloadMap] ends, the storage, the server and the trace are
    as before; no layer is added; every layer whose id is a string that does
    not start with [name-] is still in the map; and every source other than
    [name-source] is as before. *)
Theorem unload_keeps_the_rest (w w1 : World H) (o : Outcome unit) :
  unloadMap name w = (o, w1) ->
  db w1 = db w /\ server w1 = server w /\ trace w1 = trace w
  /\ (forall l, In l (map_layers (map w1)) -> In l (map_layers (map w)))
  /\ (forall l, In l (map_layers (map w)) -> string_id l = true ->
                prefixed name l = false -> In l (map_layers (map w1)))
  /\ (forall id, id <> source_id name ->
                 map_sources (map w1) !! id = map_sources (map w) !! id).
Proof.
  unfold unloadMap. intros [Hc ->]%on_map_inv.
  cbn [with_map db server trace]. split; [done |]. split; [done |].
  split; [done |]. by apply cleanup_keeps in Hc.
Qed.

Lemma cleaned_string (m : MapState) :
  forallb string_id (map_layers m) = true ->
  forallb string_id (map_layers (cleaned name m)) = true.
Proof.
  intros Hs. apply forallb_forall. intros l [Hin _]%filter_In.
  by apply (proj1 (forallb_forall _ _) Hs).
Qed.

Lemma cleaned_idem (m : MapState) :
  cleaned name (cleaned name m) = cleaned name m.
Proof.
  unfold cleaned. cbn [map_layers map_sources].
  rewrite filter_filter_and.
  rewrite (List.filter_ext (fun x => negb (prefixed name x) && negb (prefixed name x))
             (fun x => negb (prefixed name x))) by (intros x; apply andb_diag).
  destruct (existsb _ _); [done |]. by rewrite delete_delete_eq.
Qed.

(** X10: [unloadMap] is idempotent: after an [unloadMap] that returned, a
    second one for the same name returns and changes nothing. *)
Theorem unload_twice (w w1 : World H) :
  unloadMap name w = (Ret tt, w1) -> unloadMap name w1 = (Ret tt, w1).
Proof.
  unfold unloadMap. intros [Hc Hw]%on_map_inv.
  apply cleanup_run in Hc as [Hs Hc]. rewrite Hc in Hw. subst w1.
  rewrite (on_map_run _ (with_map w (cleaned name (map w))) _ _
             (cleanup_ok name _ (cleaned_string _ Hs))).
  cbn [with_map map]. by rewrite cleaned_idem.
Qed.

(** X11: [unloadMap] keeps the archive in storage: when the archive can be
    read, [loadMap] after [unloadMap] does exactly what [loadMap] does
    without it. *)
Theorem unload_then_load (onProgress : bool) (w wu : World H) (blob : Blob) :
  unloadMap name w = (Ret tt, wu) ->
  stored w name blob ->
  loadMap name onProgress wu = loadMap name onProgress w.
Proof.
  unfold unloadMap. intros [Hc Hw]%on_map_inv Hst.
  apply cleanup_run in Hc as [Hs Hc]. rewrite Hc in Hw. subst wu.
  assert (Hst' : stored (with_map w (cleaned name (map w))) name blob) by exact Hst.
  unfold loadMap.
  rewrite (bind_run _ _ _ _ _ (getMapFile_stored _ _ _ Hst)).
  rewrite (bind_run _ _ _ _ _ (getMapFile_stored _ _ _ Hst')).
  rewrite (bind_run _ _ _ _ _
             (on_map_run _ _ _ _ (cleanup_ok name (map w) Hs))).
  rewrite (bind_run _ _ _ _ _
             (on_map_run _ (with_map w (cleaned name (map w))) _ _
                (cleanup_ok name _ (cleaned_string _ Hs)))).
  cbn [with_map map]. by rewrite cleaned_idem.
Qed.
End Unload.

Lemma unload_keeps_the_rest_witness :
  let w1 := snd (unloadMap "paris" shown_world) in
  unloadMap "paris" shown_world = (Ret tt, w1)
  /\ db w1 = two_archives
  /\ In (VObj [("id", VStr "base"); ("type", VStr "background")])
        (map_layers (map w1)).
Proof.
  intros w1.
  assert (Hr : unloadMap "paris" shown_world = (Ret tt, w1)).
  { vm_compute. reflexivity. }
  destruct (unload_keeps_the_rest "paris" shown_world w1 (Ret tt) Hr)
    as (Hd & _ & _ & _ & Hk & _).
  split; [exact Hr |]. split; [exact Hd |].
  apply Hk; [left; reflexivity | reflexivity | reflexivity].
Defined.

Lemma unload_twice_witness :
  let w1 := snd (unloadMap "paris" shown_world) in
  unloadMap "paris" shown_world = (Ret tt, w1)
  /\ unloadMap "paris" w1 = (Ret tt, w1).
Proof.
  intros w1.
  assert (Hr : unloadMap "paris" shown_world = (Ret tt, w1)).
  { vm_compute. reflexivity. }
  split; [exact Hr |]. exact (unload_twice "paris" shown_world w1 Hr).
Defined.

Lemma unload_then_load_witness :
  let wu := snd (unloadMap "paris" stale_world) in
  unloadMap "paris" stale_world = (Ret tt, wu)
  /\ loadMap "paris" true wu = loadMap "paris" true stale_world.
Proof.
  intros wu.
  assert (Hr : unloadMap "paris" stale_world = (Ret tt, wu)).
  { vm_compute. reflexivity. }
  assert (Hs : stored stale_world "paris" four_bytes).
  { split; vm_compute; reflexivity. }
  split; [exact Hr |].
  exact (unload_then_load "paris" true stale_world wu four_bytes Hr Hs).
Defined.

(** ** Names that extend other names *)

Lemma length_append (a b : string) :
  String.length (a +:+ b) = (String.length a + String.length b)%nat.
Proof. induction a as [| c a IH]; simpl; [done | by rewrite IH]. Qed.

Lemma prefix_empty (s : string) : String.prefix "" s = true.
Proof. by destruct s. Qed.

Lemma prefix_length (a : string) :
  forall s, String.prefix a s = true -> (String.length a <= String.length s)%nat.
Proof.
  induction a as [| c a IH]; intros s; [simpl; lia |].
  destruct s as [| c' s]; simpl; [discriminate |].
  destruct (ascii_dec c c'); [| discriminate].
  intros Hp%IH. lia.
Qed.

Lemma prefix_trans (a : string) :
  forall b c, String.prefix a b = true -> String.prefix b c = true ->
              String.prefix a c = true.
Proof.
  induction a as [| x a IH]; intros b c; [intros; apply prefix_empty |].
  destruct b as [| y b]; simpl; [discriminate |].
  destruct c as [| z c]; simpl; [by destruct (ascii_dec x y) |].
  destruct (ascii_dec x y) as [-> |]; [| discriminate].
  destruct (ascii_dec y z) as [-> |]; [| discriminate].
  destruct (ascii_dec z z); [| done]. apply IH.
Qed.

Lemma prefix_append (a b : string) : String.prefix a (a +:+ b) = true.
Proof.
  induction a as [| x a IH]; simpl; [apply prefix_empty |].
  by destruct (ascii_dec x x).
Qed.

(** A string that starts with [a-] has a dash in it. *)
Lemma prefix_dash_occurs (a : string) :
  forall s, String.prefix (a +:+ "-") s = true ->
            In "-"%char (list_ascii_of_string s).
Proof.
  induction a as [| x a IH]; intros s.
  - destruct s as [| c s]; [discriminate |].
    change (String.prefix ("" +:+ "-") (String c s))
      with (if ascii_dec "-" c then String.prefix "" s else false).
    destruct (ascii_dec "-" c) as [<- |]; [by left | discriminate].
  - destruct s as [| c s]; simpl; [discriminate |].
    destruct (ascii_dec x c); [| discriminate]. intros Hp%IH. by right.
Qed.

Section Interference.
Context {H : Host}.

Lemma longer_name_prefixed (name other : string) (l : JsVal) :
  startsWith other (name +:+ "-") = true ->
  prefixed other l = true -> prefixed name l = true.
Proof.
  unfold prefixed, startsWith. intros Ho.
  destruct (get_prop l "id"); try done. intros Hp.
  apply (prefix_trans _ other); [done |].
  apply (prefix_trans _ (other +:+ "-")); [apply prefix_append | done].
Qed.

Lemma longer_name_source (name other : string) :
  startsWith other (name +:+ "-") = true -> source_id other <> source_id name.
Proof.
  unfold startsWith, source_id. intros Hl%prefix_length Heq.
  apply (f_equal String.length) in Heq.
  rewrite !length_append in Heq. rewrite length_append in Hl.
  change (String.length "-") with 1%nat in Hl. lia.
Qed.

(** X12: names interfere.  When the name of another map starts with
    [name-], an [unloadMap] of [name] that returns has removed all the
    layers of the other map as well, while the source of the other map is
    left in the style. *)
Theorem unload_removes_longer_names (name other : string) (w w1 : World H) :
  startsWith other (name +:+ "-") = true ->
  unloadMap name w = (Ret tt, w1) ->
  forallb (fun l => negb (prefixed other l)) (map_layers (map w1)) = true
  /\ map_sources (map w1) !! source_id other
     = map_sources (map w) !! source_id other.
Proof.
  intros Ho Hr. unfold unloadMap in Hr. apply on_map_inv in Hr as [Hc _].
  split.
  - apply cleanup_run in Hc as [_ ->].
    apply forallb_forall. intros l [_ Hn]%filter_In.
    destruct (prefixed other l) eqn:Hp; [| done].
    by rewrite (longer_name_prefixed _ _ _ Ho Hp) in Hn.
  - apply (cleanup_keeps name _ _ _ Hc). by apply longer_name_source.
Qed.
End Interference.

Lemma unload_removes_longer_names_witness :
  let w1 := snd (unloadMap "paris" twin_world) in
  unloadMap "paris" twin_world = (Ret tt, w1)
  /\ map_layers (map w1) = []
  /\ is_Some (map_sources (map w1) !! "paris-nord-source").
Proof.
  intros w1.
  assert (Hr : unloadMap "paris" twin_world = (Ret tt, w1)).
  { vm_compute. reflexivity. }
  destruct (unload_removes_longer_names "paris" "paris-nord" twin_world w1 eq_refl Hr)
    as [_ Hs].
  split; [exact Hr |]. split; [vm_compute; reflexivity |].
  change "paris-nord-source" with (source_id "paris-nord"). rewrite Hs.
  vm_compute. eauto.
Defined.

(** ** The layer [background] *)

Section Background.
Context {H : Host}.

Lemma vector_plan_head (metadata : JsVal) (sourceId name : string) :
  exists rest,
    fst (vector_plan metadata sourceId name) = (background_layer, true) :: rest.
Proof.
  unfold vector_plan.
  destruct (num_pos _); [| eauto].
  destruct (vector_layers metadata); eauto.
  destruct (find_layer POLY_LAYERS items); [eauto |].
  destruct (find_layer LINE_LAYERS items); [eauto |].
  destruct (debug_plan _ _ _ _ _). eauto.
Qed.

Lemma background_not_prefixed (name : string) :
  prefixed name background_layer = false.
Proof.
  unfold prefixed, startsWith. cbn [get_prop background_layer assoc_get].
  change (default VUndefined (assoc_get "id" _)) with (VStr "background").
  destruct (String.prefix (name +:+ "-") "background") eqn:E; [| done].
  apply prefix_dash_occurs in E. cbn in E. intuition discriminate.
Qed.

(** The first layer [_addVectorLayers] proposes is accepted by a style that
    has no layer [background]. *)
Lemma background_added (metadata : JsVal) (sourceId name : string)
    (m : MapState) :
  engine_getLayer m (VStr "background") = None ->
  layer_valid H background_layer (map_sources m) = true ->
  In background_layer
     (map_layers (add_candidates (fst (vector_plan metadata sourceId name)) m)).
Proof.
  intros Hn Hv.
  destruct (vector_plan_head metadata sourceId name) as [rest ->].
  change (add_candidates ((background_layer, true) :: rest) m)
    with (add_candidates rest (add_candidate (background_layer, true) m)).
  apply add_candidates_in. apply add_candidate_in. right. split; [| done].
  unfold accepts. cbn [fst].
  change (get_prop background_layer "id") with (VStr "background").
  rewrite Hn, Hv. reflexivity.
Qed.

(** X13: [unloadMap] does not undo [loadMap].  For a vector archive without
    a stored style, on a map that has no layer [background] and whose engine
    accepts that layer, [loadMap] adds the layer [background], and the
    [unloadMap] that follows leaves it in the map. *)
Theorem background_outlives_unload (name : string) (onProgress : bool)
    (w w1 w2 : World H) (blob : Blob) (header : Header) :
  stored w name blob ->
  pm_getHeader H (new_BlobSource blob name) = inr header ->
  is_vector header = true ->
  stored_style (db w) name = None ->
  engine_getLayer (map w) (VStr "background") = None ->
  (forall sources, layer_valid H background_layer sources = true) ->
  loadMap name onProgress w = (Ret tt, w1) ->
  unloadMap name w1 = (Ret tt, w2) ->
  In background_layer (map_layers (map w1))
  /\ In background_layer (map_layers (map w2)).
Proof.
  intros Hst Hh Hv Hstyle Hbg Hvalid Hl Hu.
  unfold loadMap in Hl.
  rewrite (bind_run _ _ _ _ _ (getMapFile_stored _ _ _ Hst)) in Hl.
  apply bind_ret_inv in Hl as ([] & wc & Hc & Hl).
  apply on_map_inv in Hc as [Hc Hwc].
  apply load_layers_inv in Hl as (header' & metadata & ms & Hh' & Hm & Ha & Hly & Hd).
  rewrite Hh in Hh'. injection Hh' as <-.
  assert (Hdc : db wc = db w) by by rewrite Hwc.
  rewrite Hdc in Hly.
  unfold layers_helper in Hly. rewrite Hv, Hstyle in Hly. cbn [vector_helper] in Hly.
  rewrite (follows_vector metadata (source_id name) name ms) in Hly.
  injection Hly as _ Hw1.
  apply cleanup_run in Hc as [_ Hc].
  apply addSource_run in Ha as (_ & Hlayers & _).
  assert (Hms : engine_getLayer ms (VStr "background") = None).
  { apply getLayer_None. rewrite Hlayers, Hc. intros Hin.
    apply (proj1 (getLayer_None (map w) (VStr "background")) Hbg).
    apply in_map_iff in Hin as (l & Hk & [Hin _]%filter_In).
    apply in_map_iff. eauto. }
  assert (H1 : In background_layer (map_layers (map w1))).
  { rewrite <- Hw1. by apply background_added. }
  split; [done |].
  unfold unloadMap in Hu. apply on_map_inv in Hu as [Hu _].
  apply (cleanup_keeps name _ _ _ Hu); [done | reflexivity |].
  apply background_not_prefixed.
Qed.
End Background.

Lemma background_outlives_unload_witness :
  let w1 := snd (loadMap "paris" true vector_world) in
  let w2 := snd (unloadMap "paris" w1) in
  loadMap "paris" true vector_world = (Ret tt, w1)
  /\ unloadMap "paris" w1 = (Ret tt, w2)
  /\ In background_layer (map_layers (map w2))
  /\ map_layers (map vector_world)
     = [VObj [("id", VStr "base"); ("type", VStr "raster")]].
Proof.
  intros w1 w2.
  assert (Hl : loadMap "paris" true vector_world = (Ret tt, w1)).
  { vm_compute. reflexivity. }
  assert (Hu : unloadMap "paris" w1 = (Ret tt, w2)).
  { vm_compute. reflexivity. }
  assert (Hs : stored vector_world "paris" four_bytes).
  { split; vm_compute; reflexivity. }
  split; [exact Hl |]. split; [exact Hu |]. split; [| reflexivity].
  refine (proj2 (background_outlives_unload "paris" true vector_world w1 w2
                   four_bytes _ Hs eq_refl _ _ _ _ Hl Hu)).
  - vm_compute. reflexivity.
  - vm_compute. reflexivity.
  - vm_compute. reflexivity.
  - intros sources. reflexivity.
Defined.

(** ** [toggleMap] *)

Lemma assoc_get_app_ne (k k' : string) (v : JsVal) (fields : list (string * JsVal)) :
  k <> k' -> assoc_get k (fields ++ [(k', v)]) = assoc_get k fields.
Proof.
  intros Hne. induction fields as [| [k1 v1] rest IH]; simpl.
  - by destruct (String.eqb_spec k k').
  - by rewrite IH.
Qed.

Lemma get_prop_set_prop_ne (fields : list (string * JsVal)) (k k' : string)
    (v : JsVal) :
  k <> k' -> get_prop (VObj (set_prop fields k' v)) k = get_prop (VObj fields) k.
Proof.
  intros Hne. unfold get_prop, set_prop.
  by rewrite assoc_get_app_ne, assoc_get_filter_ne.
Qed.

Lemma strict_eq_prim_str (a : JsVal) (s : string) :
  strict_eq_prim a (VStr s) = true <-> a = VStr s.
Proof.
  destruct a; simpl; try (split; [discriminate | discriminate]).
  rewrite String.eqb_eq. split; congruence.
Qed.

Lemma set_visibility_other (value : string) (l : JsVal) (k : string) :
  k <> "layout" -> get_prop (set_visibility value l) k = get_prop l k.
Proof.
  intros Hne. unfold set_visibility.
  destruct (strict_eq_prim (visibility l) (VStr value)); [done |].
  destruct l; try done. by apply get_prop_set_prop_ne.
Qed.

Lemma set_visibility_read (value : string) (fields : list (string * JsVal)) :
  visibility (set_visibility value (VObj fields)) = VStr value.
Proof.
  unfold set_visibility.
  destruct (strict_eq_prim (visibility (VObj fields)) (VStr value)) eqn:E.
  - by apply strict_eq_prim_str.
  - unfold visibility. by rewrite !get_prop_set_prop.
Qed.

Lemma set_visibility_idem (value : string) (l : JsVal) :
  set_visibility value (set_visibility value l) = set_visibility value l.
Proof.
  destruct l; try done.
  unfold set_visibility at 1. rewrite set_visibility_read.
  by rewrite (proj2 (strict_eq_prim_str _ _) eq_refl).
Qed.

Section ToggleFacts.
Context {H : Host}.
Variable name : string.
Variable visible : bool.

Lemma set_visibility_key (value k : string) (l : JsVal) :
  has_key k (set_visibility value l) = has_key k l.
Proof.
  unfold has_key, layer_key. by rewrite set_visibility_other.
Qed.

(** The layers after the callback has run on the layers [ls]. *)
Lemma toggle_layers_run (ls : list JsVal) :
  forall m : MapState,
    forallb string_id ls = true ->
    forEach (toggle_layer name visible) ls m =
    (Ret tt,
     {| map_layers :=
          List.map (fun l' => if doomed name ls l'
                              then set_visibility (visibility_value visible) l'
                              else l')
                   (map_layers m);
        map_sources := map_sources m |}).
Proof.
  induction ls as [| l0 ls IH]; intros m Hs.
  - cbn [forEach doomed existsb]. unfold ret. f_equal. destruct m as [layers srcs].
    cbn [map_layers map_sources]. f_equal. symmetry. apply List.map_id.
  - cbn [forallb] in Hs. apply andb_prop in Hs as [H0 Hs].
    cbn [forEach]. unfold bind.
    assert (Hstep : toggle_layer name visible l0 m =
      (Ret tt,
       {| map_layers :=
            List.map (fun l' => if prefixed name l0 && has_key (layer_key l0) l'
                                then set_visibility (visibility_value visible) l'
                                else l')
                     (map_layers m);
          map_sources := map_sources m |})).
    { unfold toggle_layer, prefixed, string_id, layer_key in *.
      destruct (get_prop l0 "id") as [| | | | s | |]; try discriminate.
      cbn [to_string]. destruct (startsWith s (name +:+ "-")); [reflexivity |].
      unfold ret. f_equal. destruct m as [layers srcs].
      cbn [map_layers map_sources andb]. f_equal. symmetry. apply List.map_id. }
    rewrite Hstep, (IH _ Hs). cbn [map_layers map_sources]. f_equal. f_equal.
    rewrite List.map_map. apply List.map_ext. intros l'.
    unfold doomed. cbn [existsb]. fold (doomed name ls l').
    destruct (prefixed name l0 && has_key (layer_key l0) l') eqn:E0; cbn [orb].
    + rewrite set_visibility_idem. by destruct (existsb _ ls).
    + done.
Qed.

Lemma toggle_layers_string (ls : list JsVal) :
  forall m m' : MapState,
    forEach (toggle_layer name visible) ls m = (Ret tt, m') ->
    forallb string_id ls = true.
Proof.
  induction ls as [| l0 ls IH]; intros m m' Hr; [done |].
  cbn [forEach] in Hr. apply bind_ret_inv in Hr as ([] & m1 & H0 & Hr).
  cbn [forallb]. rewrite (IH _ _ Hr), andb_true_r.
  unfold toggle_layer, string_id in *.
  by destruct (get_prop l0 "id").
Qed.

(** [toggleMap] returns exactly on the styles whose layer ids are strings,
    and then the style is the toggled one. *)
Lemma toggleMap_run (m m' : MapState) :
  toggleMap name visible m = (Ret tt, m') <->
  forallb string_id (map_layers m) = true /\ m' = toggled name visible m.
Proof.
  unfold toggleMap, bind, map_getStyle_layers.
  assert (Hok : forallb string_id (map_layers m) = true ->
                forEach (toggle_layer name visible) (map_layers m) m
                = (Ret tt, toggled name visible m)).
  { intros Hs. rewrite (toggle_layers_run _ _ Hs). unfold toggled. f_equal. f_equal.
    apply List.map_ext_in. intros l' Hin.
    by rewrite (doomed_prefixed name _ _ Hs Hin). }
  split.
  - intros Hr. pose proof (toggle_layers_string _ _ _ Hr) as Hs.
    split; [done |]. rewrite (Hok Hs) in Hr. congruence.
  - intros [Hs ->]. by apply Hok.
Qed.

Lemma toggled_layers (m : MapState) :
  forallb string_id (map_layers m) = true ->
  Forall2 (toggled_layer name visible)
          (map_layers m) (map_layers (toggled name visible m)).
Proof.
  unfold toggled. cbn [map_layers]. intros Hs.
  induction (map_layers m) as [| l ls IH]; cbn [List.map]; constructor.
  - cbn [forallb] in Hs. apply andb_prop in Hs as [H0 _].
    unfold toggled_layer. destruct (prefixed name l) eqn:Hp; [| by split].
    split; [intros k Hk; by apply set_visibility_other |].
    unfold string_id in H0. destruct l; try done. apply set_visibility_read.
  - apply IH. cbn [forallb] in Hs. by apply andb_prop in Hs as [_ ?].
Qed.

Lemma toggled_keys (ls ls' : list JsVal) :
  Forall2 (toggled_layer name visible) ls ls' ->
  List.map layer_key ls' = List.map layer_key ls.
Proof.
  induction 1 as [| l l' ls ls' [Hk _] _ IH]; [done |].
  cbn [List.map]. f_equal; [| done]. unfold layer_key. by rewrite Hk.
Qed.

(** X14: when [toggleMap] returns, the style has the same sources and the
    same layers in the same order, each with all its properties but
    [layout]; the layers whose id starts with [name-] have the visibility
    asked for, and the other layers are untouched. *)
Theorem toggle_sets_visibility (m m' : MapState) :
  toggleMap name visible m = (Ret tt, m') ->
  map_sources m' = map_sources m
  /\ Forall2 (toggled_layer name visible) (map_layers m) (map_layers m')
  /\ List.map layer_key (map_layers m') = List.map layer_key (map_layers m).
Proof.
  intros [Hs ->]%toggleMap_run. split; [done |].
  pose proof (toggled_layers m Hs) as Hf. split; [done |].
  by apply toggled_keys.
Qed.
End ToggleFacts.

Lemma Forall2_chain {A} (R1 R2 R3 : A -> A -> Prop) (l1 : list A) :
  (forall a b c, R1 a b -> R2 b c -> R3 a c) ->
  forall l2 l3, Forall2 R1 l1 l2 -> Forall2 R2 l2 l3 -> Forall2 R3 l1 l3.
Proof.
  intros Hc. induction l1 as [| a l1 IH]; intros l2 l3 H12 H23.
  - inversion H12; subst. inversion H23; subst. constructor.
  - inversion H12; subst. inversion H23; subst. constructor; eauto.
Qed.

Section ToggleTwice.
Context {H : Host}.
Variable name : string.

Lemma toggled_layer_prefixed (visible : bool) (l l' : JsVal) :
  toggled_layer name visible l l' ->
  prefixed name l' = prefixed name l /\ string_id l' = string_id l.
Proof.
  intros [Hk _]. unfold prefixed, string_id. by rewrite Hk.
Qed.

Lemma toggled_string (visible : bool) (ls ls' : list JsVal) :
  Forall2 (toggled_layer name visible) ls ls' ->
  forallb string_id ls = true -> forallb string_id ls' = true.
Proof.
  induction 1 as [| l l' ls ls' Hl _ IH]; [done |].
  cbn [forallb]. intros [H0 Hs]%andb_prop.
  apply toggled_layer_prefixed in Hl as [_ ->]. by rewrite H0, IH.
Qed.

Lemma toggled_layer_twice (v1 v2 : bool) (a b c : JsVal) :
  toggled_layer name v1 a b -> toggled_layer name v2 b c ->
  toggled_layer name v2 a c.
Proof.
  intros Hab Hbc.
  destruct (toggled_layer_prefixed _ _ _ Hab) as [Hp _].
  destruct Hab as [Hk1 Hv1], Hbc as [Hk2 Hv2]. rewrite Hp in Hv2. split.
  - intros k Hk. by rewrite Hk2, Hk1.
  - destruct (prefixed name a); [done | congruence].
Qed.

(** X15: the last call wins.  After a [toggleMap] that returned, a second
    one for the same name returns as well, and the style is related to the
    style before the first call as after the second call alone: whatever
    the first call asked for, the prefixed layers have the visibility of the
    second and the other layers are untouched. *)
Theorem toggle_last_wins (v1 v2 : bool) (m m1 : MapState) :
  toggleMap name v1 m = (Ret tt, m1) ->
  exists m2,
    toggleMap name v2 m1 = (Ret tt, m2)
    /\ map_sources m2 = map_sources m
    /\ Forall2 (toggled_layer name v2) (map_layers m) (map_layers m2).
Proof.
  intros [Hs ->]%toggleMap_run.
  pose proof (toggled_layers name v1 m Hs) as H1.
  pose proof (toggled_string _ _ _ H1 Hs) as Hs1.
  exists (toggled name v2 (toggled name v1 m)).
  split; [by apply toggleMap_run |]. split; [done |].
  pose proof (toggled_layers name v2 _ Hs1) as H2.
  eapply Forall2_chain; [| exact H1 | exact H2].
  intros a b c. apply toggled_layer_twice.
Qed.
End ToggleTwice.

Lemma toggle_sets_visibility_witness :
  let m' := snd (toggleMap (H := test_host) "paris" true hidden_map) in
  toggleMap (H := test_host) "paris" true hidden_map = (Ret tt, m')
  /\ List.map visibility (map_layers m') = [VUndefined; VStr "visible"]
  /\ Forall2 (toggled_layer "paris" true) (map_layers hidden_map) (map_layers m').
Proof.
  intros m'.
  assert (Hr : toggleMap (H := test_host) "paris" true hidden_map = (Ret tt, m')).
  { vm_compute. reflexivity. }
  split; [exact Hr |]. split; [vm_compute; reflexivity |].
  exact (proj1 (proj2 (toggle_sets_visibility "paris" true hidden_map m' Hr))).
Defined.

Lemma toggle_last_wins_witness :
  let m1 := snd (toggleMap (H := test_host) "paris" true hidden_map) in
  toggleMap (H := test_host) "paris" true hidden_map = (Ret tt, m1)
  /\ exists m2,
       toggleMap (H := test_host) "paris" false m1 = (Ret tt, m2)
       /\ Forall2 (toggled_layer "paris" false) (map_layers hidden_map) (map_layers m2).
Proof.
  intros m1.
  assert (Hr : toggleMap (H := test_host) "paris" true hidden_map = (Ret tt, m1)).
  { vm_compute. reflexivity. }
  split; [exact Hr |].
  destruct (toggle_last_wins (H := test_host) "paris" true false hidden_map m1 Hr)
    as (m2 & H2 & _ & Hf).
  exists m2. split; [exact H2 | exact Hf].
Defined.

(** ** The protocol handler: what it leaves alone, cancellation, storage *)

Section HandlerFacts.
Context {H : Host}.

Lemma stays_ret {A} (a : A) : stays (H := H) (ret a).
Proof. by intros w o w' [= _ <-]. Qed.

Lemma stays_throw {A} (e : JsError) : stays (H := H) (throw (A := A) e).
Proof. by intros w o w' [= _ <-]. Qed.

Lemma stays_await {A} (r : JsError + A) : stays (H := H) (await r).
Proof. intros w o w' Hr. by apply await_inv in Hr as [-> _]. Qed.

Lemma stays_checkAborted (abort : AbortSignal) (point : nat) :
  stays (H := H) (checkAborted abort point).
Proof. intros w o w' Hr. by apply checkAborted_inv in Hr as [-> _]. Qed.

Lemma stays_bind {A B} (m : M H A) (k : A -> M H B) :
  stays m -> (forall a, stays (k a)) -> stays (bind m k).
Proof.
  intros Hm Hk w o w' Hr.
  apply bind_inv in Hr as [(a & w1 & H1 & H2) | [(e & H1 & _) | [H1 _]]].
  - apply Hm in H1 as ->. by apply Hk in H2.
  - by apply Hm in H1.
  - by apply Hm in H1.
Qed.

Lemma stays_metadata_request (abort : AbortSignal) (name : string) (p : BlobSource) :
  stays (H := H) (metadata_request abort name p).
Proof.
  unfold metadata_request.
  repeat (apply stays_bind; [| intros ?]);
    auto using stays_await, stays_checkAborted, stays_ret.
Qed.

Lemma stays_tile_request (abort : AbortSignal) (parts : list string) (p : BlobSource) :
  stays (H := H) (tile_request abort parts p).
Proof.
  unfold tile_request.
  repeat (apply stays_bind; [| intros ?]);
    auto using stays_await, stays_checkAborted.
  destruct a0; apply stays_ret.
Qed.

(** The handler once the archive has been looked up. *)
Lemma stays_dispatch (abort : AbortSignal) (name : string) (parts : list string)
    (b : option Blob) :
  stays (H := H)
    (match b with
     | None => throw (Error ("Map " +:+ name +:+ " not found in storage"))
     | Some blob =>
         do! checkAborted abort 1 in
         let p := new_BlobSource blob name in
         if (length parts =? 1)%nat then metadata_request abort name p
         else if (length parts =? 4)%nat then tile_request abort parts p
         else ret RUndefined
     end).
Proof.
  destruct b as [blob |]; [| apply stays_throw].
  apply stays_bind; [apply stays_checkAborted |]. intros _. cbn zeta.
  destruct (length parts =? 1)%nat; [apply stays_metadata_request |].
  destruct (length parts =? 4)%nat; [apply stays_tile_request | apply stays_ret].
Qed.

Lemma handler_catch_run (e : JsError) (w : World H) :
  handler_catch e w = (Throw e, w) /\ handler_log (Throw e) = []
  \/ handler_catch e w = (Throw e, extend w (EErrorLog "" (Some e)))
     /\ handler_log (Throw e) = [EErrorLog "" (Some e)].
Proof.
  unfold handler_catch, handler_log, bind.
  destruct (String.eqb (err_message e) "Aborted"); [by left | by right].
Qed.

(** The [try] block of the handler either leaves the world as it is, or
    fails with the error of the read that failed, which [getMapFile] has
    logged. *)
Lemma handler_try_run (abort : AbortSignal) (name : string) (parts : list string)
    (w w' : World H) (o : Outcome HandlerResult) :
  (do! checkAborted abort 0 in
   let! blob := getMapFile name in
   match blob with
   | None => throw (Error ("Map " +:+ name +:+ " not found in storage"))
   | Some blob =>
       do! checkAborted abort 1 in
       let p := new_BlobSource blob name in
       if (length parts =? 1)%nat then metadata_request abort name p
       else if (length parts =? 4)%nat then tile_request abort parts p
       else ret RUndefined
   end) w = (o, w') ->
  w' = w
  \/ exists e, files_get_fault H (db w) name = Some e
               /\ o = Throw e /\ w' = extend w (read_failure name e).
Proof.
  intros Hr.
  apply bind_inv in Hr as [([] & w1 & H0 & Hr) | [(e & H0 & _) | [H0 _]]];
    [| left; by apply stays_checkAborted in H0
     | left; by apply stays_checkAborted in H0].
  apply stays_checkAborted in H0 as ->.
  apply bind_inv in Hr as [(b & w1 & Hg & Hr) | [(e & Hg & ->) | [Hg _]]].
  - rewrite getMapFile_run in Hg.
    destruct (files_get_fault H (db w) name); [discriminate |].
    injection Hg as _ <-. left. by apply stays_dispatch in Hr.
  - rewrite getMapFile_run in Hg.
    destruct (files_get_fault H (db w) name) as [e' |]; [| discriminate].
    injection Hg as <- <-. right. by exists e'.
  - rewrite getMapFile_run in Hg.
    destruct (files_get_fault H (db w) name); discriminate.
Qed.

(** X16: the protocol handler only reads.  However a request ends, the
    database, the map, the server and the clock are as before, and the only
    effects are lines on the error console: the one of [getMapFile] when the
    read of the archive failed, and then the error the handler throws,
    unless its message is [Aborted]. *)
Theorem handler_reads_only (url : string) (abort : AbortSignal)
    (w w' : World H) (o : Outcome HandlerResult) :
  protocol_handler url abort w = (o, w') ->
  db w' = db w /\ map w' = map w /\ server w' = server w /\ clock w' = clock w
  /\ exists pre,
       trace w' = trace w ++ pre ++ handler_log o
       /\ (pre = []
           \/ exists e, files_get_fault H (db w) (request_name url) = Some e
                        /\ o = Throw e
                        /\ pre = [read_failure (request_name url) e]).
Proof.
  unfold protocol_handler. fold (request_name url). intros Hr.
  apply try_catch_inv in Hr as [(e & w1 & Hb & Hc) | [Hb Hn]].
  - assert (Hw' : w' = w1 /\ handler_log o = []
                  \/ w' = extend w1 (EErrorLog "" (Some e))
                     /\ handler_log o = [EErrorLog "" (Some e)]).
    { destruct (handler_catch_run e w1) as [[Hc' Hl] | [Hc' Hl]];
        rewrite Hc' in Hc; injection Hc as <- <-; auto. }
    apply handler_try_run in Hb as [-> | (e' & Hf & [= <-] & ->)].
    + destruct Hw' as [[-> ->] | [-> ->]]; cbn [extend db map server clock trace];
        (do 4 (split; [done |])); exists []; split; auto.
      by rewrite app_nil_r.
    + assert (Ho : o = Throw e) by (by apply handler_catch_throws in Hc).
      destruct Hw' as [[-> ->] | [-> ->]]; cbn [extend db map server clock trace];
        (do 4 (split; [done |])); exists [read_failure (request_name url) e];
        (split; [| right; by exists e]).
      * by rewrite app_nil_r.
      * by rewrite <- app_assoc.
  - assert (Hl : handler_log o = []).
    { destruct o as [r | e |]; [done | by destruct (Hn e) | done]. }
    rewrite Hl.
    apply handler_try_run in Hb as [-> | (e' & _ & -> & _)]; [| by destruct (Hn e')].
    do 4 (split; [done |]). exists []. split; [by rewrite app_nil_r | by left].
Qed.

Lemma checkAborted_ret (aborted : nat -> bool) (point : nat) (w w' : World H) :
  checkAborted (Some aborted) point w = (Ret tt, w') -> aborted point = false.
Proof. unfold checkAborted. by destruct (aborted point). Qed.

(** X17: a cancelled request delivers nothing and is silent.  When the
    handler returns a result, the signal was not aborted at any of the
    points where the handler polled it; and a request that is aborted from
    the start fails with the error [Aborted] without a line on the console
    and without a look at the storage. *)
Theorem cancelled_request_delivers_nothing (url : string) (aborted : nat -> bool)
    (w : World H) :
  (forall r w',
      protocol_handler url (Some aborted) w = (Ret r, w') ->
      forall point, (point < polled (length (url_parts url)))%nat ->
                    aborted point = false)
  /\ (aborted 0%nat = true ->
      protocol_handler url (Some aborted) w = (Throw (Error "Aborted"), w)).
Proof.
  split.
  - intros r w' Hr. unfold protocol_handler in Hr.
    apply try_catch_inv in Hr as [(e & w1 & _ & Hc) | [Hb _]];
      [by apply handler_catch_throws in Hc |].
    apply bind_ret_inv in Hb as ([] & w1 & H0%checkAborted_ret & Hb).
    apply bind_ret_inv in Hb as ([blob |] & w2 & _ & Hb); [| discriminate].
    apply bind_ret_inv in Hb as ([] & w3 & H1%checkAborted_ret & Hb).
    cbn zeta in Hb. unfold polled.
    destruct (length (url_parts url) =? 1)%nat.
    { unfold metadata_request in Hb.
      apply bind_ret_inv in Hb as (header & w4 & _ & Hb).
      apply bind_ret_inv in Hb as (metadata & w5 & _ & Hb).
      apply bind_ret_inv in Hb as ([] & w6 & H2%checkAborted_ret & _).
      intros [| [| [| point]]] Hp; [done | done | done | lia]. }
    destruct (length (url_parts url) =? 4)%nat.
    { unfold tile_request in Hb.
      apply bind_ret_inv in Hb as ([] & w4 & H2%checkAborted_ret & Hb).
      apply bind_ret_inv in Hb as (response & w5 & _ & Hb).
      apply bind_ret_inv in Hb as ([] & w6 & H3%checkAborted_ret & _).
      intros [| [| [| [| point]]]] Hp; [done | done | done | done | lia]. }
    intros [| [| point]] Hp; [done | done | lia].
  - intros Ha. unfold protocol_handler, try_catch, bind, checkAborted.
    by rewrite Ha.
Qed.

(** X18: how the handler fails on the storage.  For a request that is not
    cancelled, an archive that is not stored gives the error [Map <name> not
    found in storage], logged once; a read of the storage that fails gives
    the error of the read, logged twice, by [getMapFile] and by the handler. *)
Theorem handler_storage_failures (url : string) (abort : AbortSignal)
    (w : World H) :
  not_aborted abort ->
  (files_get_fault H (db w) (request_name url) = None ->
   files (db w) !! request_name url = None ->
   protocol_handler url abort w
   = (Throw (not_in_storage (request_name url)),
      extend w (EErrorLog "" (Some (not_in_storage (request_name url))))))
  /\ (forall e,
        files_get_fault H (db w) (request_name url) = Some e ->
        err_message e <> "Aborted" ->
        protocol_handler url abort w
        = (Throw e,
           extend (extend w (read_failure (request_name url) e))
                  (EErrorLog "" (Some e)))).
Proof.
  intros Ha. split.
  - intros Hf Hn. unfold protocol_handler. fold (request_name url).
    unfold try_catch, bind at 1. rewrite (checkAborted_ok _ _ _ Ha).
    unfold bind at 1. rewrite getMapFile_run, Hf, Hn. reflexivity.
  - intros e Hf Hm. unfold protocol_handler. fold (request_name url).
    unfold try_catch, bind at 1. rewrite (checkAborted_ok _ _ _ Ha).
    unfold bind at 1. rewrite getMapFile_run, Hf.
    unfold handler_catch, bind.
    apply String.eqb_neq in Hm. rewrite Hm. reflexivity.
Qed.
End HandlerFacts.

Lemma handler_reads_only_witness :
  let w' := snd (protocol_handler "offline-pmtiles://paris" None closed_world) in
  protocol_handler "offline-pmtiles://paris" None closed_world
  = (Throw closed_error, w')
  /\ db w' = empty_db
  /\ trace w' = [read_failure "paris" closed_error; EErrorLog "" (Some closed_error)].
Proof.
  intros w'.
  assert (Hr : protocol_handler "offline-pmtiles://paris" None closed_world
               = (Throw closed_error, w')).
  { vm_compute. reflexivity. }
  destruct (handler_reads_only "offline-pmtiles://paris" None closed_world w'
              (Throw closed_error) Hr) as (Hd & _).
  split; [exact Hr |]. split; [exact Hd |]. vm_compute. reflexivity.
Defined.

Lemma cancelled_request_delivers_nothing_witness :
  let w := archive_world empty_reader "paris" [Byte.x50; Byte.x4d] in
  protocol_handler "offline-pmtiles://paris/3/4/2" (Some (fun _ => false)) w
  = (Ret RNoTile, w)
  /\ (3 < polled (length (url_parts "offline-pmtiles://paris/3/4/2")))%nat
  /\ protocol_handler "offline-pmtiles://paris/3/4/2" (Some (fun _ => true)) w
     = (Throw (Error "Aborted"), w).
Proof.
  intros w.
  assert (Hr : protocol_handler "offline-pmtiles://paris/3/4/2"
                 (Some (fun _ => false)) w = (Ret RNoTile, w)).
  { vm_compute. reflexivity. }
  assert (Hp : (3 < polled (length (url_parts "offline-pmtiles://paris/3/4/2")))%nat).
  { vm_compute. lia. }
  pose proof (proj1 (cancelled_request_delivers_nothing
                       "offline-pmtiles://paris/3/4/2" (fun _ => false) w)
                _ _ Hr 3%nat Hp) as _.
  split; [exact Hr |]. split; [exact Hp |].
  exact (proj2 (cancelled_request_delivers_nothing
                  "offline-pmtiles://paris/3/4/2" (fun _ => true) w) eq_refl).
Defined.

Lemma handler_storage_failures_witness :
  protocol_handler "offline-pmtiles://paris" None idle_world
  = (Throw (not_in_storage "paris"),
     extend idle_world (EErrorLog "" (Some (not_in_storage "paris"))))
  /\ protocol_handler "offline-pmtiles://paris" None closed_world
     = (Throw closed_error,
        extend (extend closed_world (read_failure "paris" closed_error))
               (EErrorLog "" (Some closed_error))).
Proof.
  split.
  - refine (proj1 (handler_storage_failures "offline-pmtiles://paris" None
                     idle_world I) _ _); vm_compute; reflexivity.
  - refine (proj2 (handler_storage_failures "offline-pmtiles://paris" None
                     closed_world I) closed_error _ _).
    + vm_compute. reflexivity.
    + vm_compute. discriminate.
Defined.

(** ** Strings, numerals and URLs *)

Lemma substring_all (s : string) : String.substring 0 (String.length s) s = s.
Proof. induction s as [| c s IH]; simpl; [done | by rewrite IH]. Qed.

Lemma drop_string_append (a b : string) :
  drop_string (String.length a) (a +:+ b) = b.
Proof.
  unfold drop_string. induction a as [| c a IH]; simpl.
  - rewrite Nat.sub_0_r. apply substring_all.
  - exact IH.
Qed.

Lemma remove_first_unfold (pat s : string) :
  remove_first pat s =
  if String.prefix pat s then drop_string (String.length pat) s
  else match s with
       | EmptyString => EmptyString
       | String c rest => String c (remove_first pat rest)
       end.
Proof. by destruct s. Qed.

(** Removing the scheme from a URL that starts with it. *)
Lemma remove_first_prefix (pat s : string) : remove_first pat (pat +:+ s) = s.
Proof.
  rewrite remove_first_unfold, prefix_append. apply drop_string_append.
Qed.












Lemma split_head_free (sep : ascii) (s : string) :
  forall p ps, split sep s = p :: ps -> free_of sep p = true.
Proof.
  unfold free_of. induction s as [| c s IH]; intros p ps; cbn [split].
  - by intros [= <- <-].
  - destruct (Ascii.eqb_spec c sep) as [-> | Hne]; [by intros [= <- <-] |].
    assert (Hc : negb (Ascii.eqb c sep) = true).
    { apply negb_true_iff. by apply Ascii.eqb_neq. }
    destruct (split sep s) as [| p' ps'] eqn:E.
    + intros [= <- <-]. simpl. by rewrite Hc.
    + intros [= <- <-]. simpl. by rewrite Hc, (IH p' ps').
Qed.

Lemma split_single_free (sep : ascii) (s : string) :
  length (split sep s) = 1%nat -> free_of sep s = true.
Proof.
  unfold free_of. induction s as [| c s IH]; [done |]. cbn [split].
  destruct (Ascii.eqb_spec c sep) as [-> | Hne].
  - pose proof (split_length_pos sep s). simpl. lia.
  - assert (Hc : negb (Ascii.eqb c sep) = true).
    { apply negb_true_iff. by apply Ascii.eqb_neq. }
    destruct (split sep s) as [| p' ps'] eqn:E.
    + pose proof (split_length_pos sep s) as Hp. rewrite E in Hp. simpl in Hp. lia.
    + simpl. intros Hl. by rewrite Hc, IH.
Qed.

Section UrlFacts.
Context {H : Host}.




(** X20: an archive whose name has a slash cannot be served.  The URL of
    the source [loadMap] adds for it is not a metadata request: the handler
    looks for an archive of another name and never answers with a TileJSON
    document. *)
Theorem slash_in_name_breaks_source (name : string) (abort : AbortSignal)
    (w : World H) :
  free_of "/" name = false ->
  request_name (source_url name) <> name
  /\ length (url_parts (source_url name)) <> 1%nat
  /\ (forall r w',
        protocol_handler (source_url name) abort w = (Ret r, w') ->
        forall t, r <> RTileJson t).
Proof.
  intros Hn.
  assert (Hp : url_parts (source_url name) = split "/" name).
  { unfold url_parts, source_url. by rewrite remove_first_prefix. }
  assert (Hl : length (url_parts (source_url name)) <> 1%nat).
  { rewrite Hp. intros Hl%split_single_free. congruence. }
  split; [| split; [done |]].
  - unfold request_name. rewrite Hp.
    destruct (split "/" name) as [| p ps] eqn:E.
    + pose proof (split_length_pos "/" name) as Hpos. rewrite E in Hpos.
      simpl in Hpos. lia.
    + cbn [lookup list_lookup default from_option id]. intros ->.
      apply split_head_free in E. congruence.
  - intros r w' Hr t ->.
    apply handler_result_shape in Hr as (_ & H4 & Hother).
    destruct (Nat.eq_dec (length (url_parts (source_url name))) 4%nat) as [E4 | N4].
    + destruct (H4 E4) as [? | [? ?]]; discriminate.
    + discriminate (Hother Hl N4).
Qed.
End UrlFacts.


Lemma slash_in_name_breaks_source_witness :
  request_name (source_url "fr/paris") = "fr"
  /\ request_name (source_url "fr/paris") <> "fr/paris".
Proof.
  split; [vm_compute; reflexivity |].
  exact (proj1 (slash_in_name_breaks_source (H := test_host) "fr/paris" None
                  idle_world eq_refl)).
Defined.

(** ** [loadMap]: what it leaves alone, failures, and what it builds *)

Section LoadFacts.
Context {H : Host}.

Lemma keeps_ret {A} (a : A) : keeps_storage (H := H) (ret a).
Proof. by intros w o w' [= _ <-]. Qed.

Lemma keeps_await {A} (r : JsError + A) : keeps_storage (H := H) (await r).
Proof. intros w o w' Hr. by apply await_inv in Hr as [-> _]. Qed.

Lemma keeps_emit (e : Effect) : keeps_storage (H := H) (emit e).
Proof. by intros w o w' [= _ <-]. Qed.

Lemma keeps_on_map {A} (f : ST MapState A) : keeps_storage (H := H) (on_map f).
Proof. intros w o w' [_ ->]%on_map_inv. done. Qed.

Lemma keeps_bind {A B} (m : M H A) (k : A -> M H B) :
  keeps_storage m -> (forall a, keeps_storage (k a)) -> keeps_storage (bind m k).
Proof.
  intros Hm Hk w o w' Hr.
  apply bind_inv in Hr as [(a & w1 & H1 & H2) | [(e & H1 & _) | [H1 _]]].
  - apply Hm in H1 as (Hd & Hs & Hc). apply Hk in H2 as (Hd' & Hs' & Hc').
    split; [congruence |]. split; congruence.
  - by apply Hm in H1.
  - by apply Hm in H1.
Qed.

Lemma keeps_getMapFile (name : string) : keeps_storage (H := H) (getMapFile name).
Proof.
  intros w o w'. rewrite getMapFile_run.
  destruct (files_get_fault H (db w) name); by intros [= _ <-].
Qed.

Lemma keeps_getMapStyle (name : string) : keeps_storage (H := H) (getMapStyle name).
Proof. intros w o w'. rewrite getMapStyle_run. by intros [= _ <-]. Qed.

Lemma keeps_report_load (onProgress : bool) (code : Code) (message : string) :
  keeps_storage (H := H) (report_load onProgress code message).
Proof. unfold report_load. destruct onProgress; apply keeps_emit. Qed.

Lemma keeps_load_layers (name : string) (onProgress : bool) (blob : Blob) :
  keeps_storage (H := H) (load_layers name onProgress blob).
Proof.
  unfold load_layers. cbn zeta.
  apply keeps_bind; [apply keeps_await | intros header].
  apply keeps_bind; [apply keeps_await | intros metadata].
  apply keeps_bind; [apply keeps_on_map | intros _].
  apply keeps_bind; [| intros _; apply keeps_report_load].
  destruct (is_vector header); [| apply keeps_on_map].
  apply keeps_bind; [apply keeps_getMapStyle | intros style; apply keeps_on_map].
Qed.

(** X21: [loadMap] works on the map only, and not atomically.  However it
    ends, the database, the server and the clock are as before.  When the
    stored archive cannot be read as a PMTiles archive, [loadMap] fails with
    the error of the reader, and the layers and the source it showed for
    that name before are already removed from the map. *)
Theorem load_touches_only_the_map (name : string) (onProgress : bool)
    (w : World H) :
  (forall o w',
      loadMap name onProgress w = (o, w') ->
      db w' = db w /\ server w' = server w /\ clock w' = clock w)
  /\ (forall blob e,
        stored w name blob ->
        forallb string_id (map_layers (map w)) = true ->
        pm_getHeader H (new_BlobSource blob name) = inl e
        \/ (is_Some (match pm_getHeader H (new_BlobSource blob name) with
                     | inr header => Some header
                     | inl _ => None
                     end)
            /\ pm_getMetadata H (new_BlobSource blob name) = inl e) ->
        loadMap name onProgress w = (Throw e, with_map w (cleaned name (map w)))).
Proof.
  split.
  - intros o w'. revert w o w'. change (keeps_storage (loadMap name onProgress)).
    unfold loadMap. apply keeps_bind; [apply keeps_getMapFile |].
    intros [blob |]; [| apply keeps_emit].
    apply keeps_bind; [apply keeps_on_map | intros _; apply keeps_load_layers].
  - intros blob e Hst Hs Hfail. unfold loadMap.
    rewrite (bind_run _ _ _ _ _ (getMapFile_stored _ _ _ Hst)).
    rewrite (bind_run _ _ _ _ _ (on_map_run _ _ _ _ (cleanup_ok name (map w) Hs))).
    unfold load_layers. cbn zeta.
    destruct Hfail as [Hh | [Hh Hm]].
    + by rewrite Hh.
    + destruct (pm_getHeader H (new_BlobSource blob name)) as [| header];
        [by destruct Hh |].
      rewrite bind_await_inr. by rewrite Hm.
Qed.
End LoadFacts.

Lemma load_touches_only_the_map_witness :
  let w := script_world None no_reader [] (one_archive "paris" four_bytes) stale_map in
  loadMap "paris" true w
  = (Throw (Error "Wrong magic number for PMTiles archive"),
     with_map w (cleaned "paris" stale_map))
  /\ db (snd (loadMap "paris" true w)) = one_archive "paris" four_bytes.
Proof.
  intros w.
  assert (Hs : stored w "paris" four_bytes).
  { split; vm_compute; reflexivity. }
  destruct (load_touches_only_the_map "paris" true w) as [Hk Hf].
  split.
  - apply (Hf four_bytes _ Hs); [vm_compute; reflexivity | by left].
  - refine (proj1 (Hk _ _ _)). vm_compute. reflexivity.
Defined.

Section LoadResult.
Context {H : Host}.
Variable name : string.

(** After [_cleanup], an id that starts with [name-] is free. *)
Lemma cleaned_fresh (m : MapState) (suffix : string) :
  forallb string_id (map_layers m) = true ->
  ~ In (name +:+ String "-" suffix)
       (List.map layer_key (map_layers (cleaned name m))).
Proof.
  intros Hs (l & Hk & [Hin Hn]%filter_In)%in_map_iff.
  pose proof (proj1 (forallb_forall _ _) Hs l Hin) as Hl.
  unfold string_id, layer_key, prefixed in *.
  destruct (get_prop l "id"); try discriminate. cbn [to_string] in Hk. subst.
  unfold startsWith in Hn. by rewrite prefix_dash in Hn.
Qed.

(** X22: what [loadMap] builds for a raster archive.  When the archive is
    stored and read as a raster archive, the layer ids of the map are
    strings, no layer outside the prefix holds on to the source
    [name-source], and the engine accepts the source and the layer, then
    [loadMap] returns, and the map is the cleaned map with the source
    [name-source] and, on top of the other layers, the layer
    [name-raster]; one status, [COMPLETE], is reported. *)
Theorem load_raster_result (onProgress : bool) (w : World H) (blob : Blob)
    (header : Header) (metadata : JsVal) :
  let spec := archive_source name header metadata in
  stored w name blob ->
  pm_getHeader H (new_BlobSource blob name) = inr header ->
  pm_getMetadata H (new_BlobSource blob name) = inr metadata ->
  is_vector header = false ->
  forallb string_id (map_layers (map w)) = true ->
  map_sources (cleaned name (map w)) !! source_id name = None ->
  source_valid H spec = true ->
  layer_valid H (raster_layer (source_id name) name)
    (<[source_id name := spec]> (map_sources (cleaned name (map w)))) = true ->
  loadMap name onProgress w
  = (Ret tt,
     extend (with_map w (raster_shown name spec (map w)))
            (loaded_effect name onProgress header metadata)).
Proof.
  intros spec Hst Hh Hm Hv Hs Hfree Hsv Hlv. unfold loadMap.
  rewrite (bind_run _ _ _ _ _ (getMapFile_stored _ _ _ Hst)).
  rewrite (bind_run _ _ _ _ _ (on_map_run _ _ _ _ (cleanup_ok name (map w) Hs))).
  rewrite (load_layers_run name onProgress blob _ header metadata Hh Hm).
  cbn [with_map map db]. fold spec.
  rewrite (addSource_ok name spec _ Hfree), Hsv.
  unfold layers_helper. rewrite Hv.
  unfold _addRasterLayer, map_addLayer, engine_addLayer.
  cbn [map_layers map_sources].
  assert (Hfresh : engine_getLayer
                     {| map_layers := map_layers (cleaned name (map w));
                        map_sources :=
                          <[source_id name := spec]> (map_sources (cleaned name (map w))) |}
                     (get_prop (raster_layer (source_id name) name) "id") = None).
  { apply getLayer_None. cbn [map_layers].
    change (to_string (num_str H) (get_prop (raster_layer (source_id name) name) "id"))
      with (name +:+ String "-" "raster").
    by apply cleaned_fresh. }
  rewrite Hfresh, Hlv. reflexivity.
Qed.
End LoadResult.

Lemma load_raster_result_witness :
  loadMap "paris" true stale_world
  = (Ret tt,
     extend (with_map stale_world
               (raster_shown "paris"
                  {| src_type := "raster"; src_url := "offline-pmtiles://paris";
                     src_tileSize := 256; src_attribution := VUndefined |}
                  stale_map))
            (EProgress {| st_code := COMPLETE;
                          st_message := "Map paris loaded (Raster)! Layers: 1";
                          st_progress := None |}))
  /\ List.map (layer_key (H := test_host)) (map_layers (raster_shown "paris"
        {| src_type := "raster"; src_url := "offline-pmtiles://paris";
           src_tileSize := 256; src_attribution := VUndefined |} stale_map))
     = ["base"; "paris-raster"].
Proof.
  split; [| vm_compute; reflexivity].
  assert (Hs : stored stale_world "paris" four_bytes).
  { split; vm_compute; reflexivity. }
  refine (load_raster_result "paris" true stale_world four_bytes
            {| minZoom := num_of_Z 0; maxZoom := num_of_Z 14;
               minLon := num_of_Z 0; minLat := num_of_Z 0;
               maxLon := num_of_Z 0; maxLat := num_of_Z 0;
               tileType := num_of_Z 2 |} VNull Hs eq_refl eq_refl eq_refl _ _ eq_refl eq_refl).
  - vm_compute. reflexivity.
  - vm_compute. reflexivity.
Defined.

Section Bottom.
Context {H : Host}.

Lemma debug_plan_flags (sourceId name : string) (polyLayer lineLayer : option JsVal)
    (ils : list (nat * JsVal)) :
  Forall (fun c : Candidate => snd c = false)
         (fst (debug_plan sourceId name polyLayer lineLayer ils)).
Proof.
  induction ils as [| [i l] ils IH]; cbn [debug_plan]; [constructor |].
  destruct (debug_plan sourceId name polyLayer lineLayer ils) as [cs o].
  destruct l; try constructor; destruct (drawn polyLayer lineLayer _);
    cbn [fst] in *; try done; by constructor.
Qed.

Lemma optional_layer_flags (f : JsVal -> JsVal) (found : option JsVal) :
  Forall (fun c : Candidate => snd c = false) (optional_layer f found).
Proof. destruct found; repeat constructor. Qed.

(** The layers [_addVectorLayers] proposes: the background at the bottom,
    then layers for the top. *)
Lemma vector_plan_shape (metadata : JsVal) (sourceId name : string) :
  exists rest,
    fst (vector_plan metadata sourceId name) = (background_layer, true) :: rest
    /\ Forall (fun c : Candidate => snd c = false) rest.
Proof.
  unfold vector_plan.
  destruct (num_pos _); [| eexists; split; [done | repeat constructor]].
  destruct (vector_layers metadata);
    try (eexists; split; [done | constructor]).
  destruct (find_layer POLY_LAYERS items) as [| polyLayer];
    [eexists; split; [done | constructor] |].
  destruct (find_layer LINE_LAYERS items) as [| lineLayer];
    [eexists; split; [done | apply optional_layer_flags] |].
  pose proof (debug_plan_flags sourceId name polyLayer lineLayer
                (imap (fun i l => (i, l)) items)) as Hd.
  destruct (debug_plan _ _ _ _ _) as [cs o]. cbn [fst] in *.
  eexists. split; [done |].
  apply Forall_app. split; [apply optional_layer_flags |].
  apply Forall_app. split; [apply optional_layer_flags | done].
Qed.

Lemma add_candidate_top (c : Candidate) (m : MapState) (h : JsVal) :
  snd c = false -> head (map_layers m) = Some h ->
  head (map_layers (add_candidate c m)) = Some h.
Proof.
  intros Hc Hh. unfold add_candidate, engine_addLayer. rewrite Hc.
  cbn [truthy].
  repeat (match goal with |- context [if ?b then _ else _] => destruct b end);
    try done.
  cbn [map_layers]. by destruct (map_layers m).
Qed.

Lemma add_candidates_top (cs : list Candidate) :
  Forall (fun c : Candidate => snd c = false) cs ->
  forall (m : MapState) (h : JsVal),
    head (map_layers m) = Some h ->
    head (map_layers (add_candidates cs m)) = Some h.
Proof.
  induction 1 as [| c cs Hc _ IH]; intros m h Hh; [done |].
  change (add_candidates (c :: cs) m) with (add_candidates cs (add_candidate c m)).
  apply IH. by apply add_candidate_top.
Qed.

Lemma background_bottom (m : MapState) :
  engine_getLayer m (VStr "background") = None ->
  layer_valid H background_layer (map_sources m) = true ->
  (forall l0, head (map_layers m) = Some l0 -> truthy (get_prop l0 "id") = true) ->
  head (map_layers (add_candidate (background_layer, true) m))
  = Some background_layer.
Proof.
  intros Hn Hv Hid. unfold add_candidate, engine_addLayer. cbn [fst snd].
  change (get_prop background_layer "id") with (VStr "background").
  rewrite Hn, Hv. cbn [is_string negb].
  rewrite bool_decide_eq_false_2 by (by intros [? ?]).
  destruct (map_layers m) as [| l0 ls] eqn:E; cbn [head opt_id truthy].
  - done.
  - rewrite (Hid l0 eq_refl).
    assert (Hk : has_key (to_string (num_str H) (get_prop l0 "id")) l0 = true).
    { unfold has_key, layer_key. apply String.eqb_refl. }
    rewrite bool_decide_eq_true_2.
    + cbn [map_layers insert_before]. by rewrite Hk.
    + unfold engine_getLayer. rewrite E. cbn [List.find]. rewrite Hk. eauto.
Qed.

(** X23: [_addVectorLayers] puts the layer [background] at the bottom.
    However it ends, when the style had no layer [background], the engine
    accepts that layer and the id of the bottom layer, if there is one, is
    not empty, the bottom layer of the style is then [background]; and when
    the style had a layer [background], its bottom layer is as before. *)
Theorem background_is_at_the_bottom (metadata : JsVal) (sourceId name : string)
    (m m' : MapState) (o : Outcome unit) :
  _addVectorLayers metadata sourceId name m = (o, m') ->
  (engine_getLayer m (VStr "background") = None ->
   layer_valid H background_layer (map_sources m) = true ->
   (forall l0, head (map_layers m) = Some l0 -> truthy (get_prop l0 "id") = true) ->
   head (map_layers m') = Some background_layer)
  /\ (is_Some (engine_getLayer m (VStr "background")) ->
      head (map_layers m') = head (map_layers m)).
Proof.
  rewrite (follows_vector metadata sourceId name m). intros [= _ <-].
  destruct (vector_plan_shape metadata sourceId name) as (rest & -> & Hrest).
  change (add_candidates ((background_layer, true) :: rest) m)
    with (add_candidates rest (add_candidate (background_layer, true) m)).
  split.
  - intros Hn Hv Hid. apply add_candidates_top; [done |].
    by apply background_bottom.
  - intros Hb.
    assert (Hsame : add_candidate (background_layer, true) m = m).
    { unfold add_candidate. by apply addLayer_existing. }
    rewrite Hsame.
    destruct (map_layers m) as [| l0 ls] eqn:E.
    + unfold engine_getLayer in Hb. rewrite E in Hb. by destruct Hb.
    + apply add_candidates_top; [done |]. by rewrite E.
Qed.
End Bottom.

Lemma background_is_at_the_bottom_witness :
  let m' := snd (_addVectorLayers (H := test_host) VNull "paris-source" "paris"
                   base_map) in
  _addVectorLayers (H := test_host) VNull "paris-source" "paris" base_map
  = (Ret tt, m')
  /\ List.map (layer_key (H := test_host)) (map_layers m')
     = ["background"; "base"; "paris-fallback-fill"]
  /\ head (map_layers m') = Some background_layer.
Proof.
  intros m'.
  assert (Hr : _addVectorLayers (H := test_host) VNull "paris-source" "paris"
                 base_map = (Ret tt, m')).
  { vm_compute. reflexivity. }
  split; [exact Hr |]. split; [vm_compute; reflexivity |].
  pose proof (proj1 (background_is_at_the_bottom (H := test_host) VNull
                       "paris-source" "paris" base_map m' (Ret tt) Hr)
                eq_refl eq_refl) as Hb.
  assert (Hid : forall l0, head (map_layers base_map) = Some l0 ->
                           truthy (get_prop l0 "id") = true).
  { intros l0 [= <-]. reflexivity. }
  exact (Hb Hid).
Defined.

(** ** [downloadMap]: what it leaves alone *)

Section Preserve.
Context {H : Host}.
Variable R : World H -> World H -> Prop.
Hypothesis R_refl : forall w, R w w.
Hypothesis R_trans : forall w1 w2 w3, R w1 w2 -> R w2 w3 -> R w1 w3.
Hypothesis R_io :
  forall w s t,
    R w {| server := s; db := db w; map := map w; clock := clock w; trace := t |}.

Lemma preserves_ret {A} (a : A) : preserves R (ret a).
Proof. intros w o w' [= _ <-]. apply R_refl. Qed.

Lemma preserves_throw {A} (e : JsError) : preserves R (throw (A := A) e).
Proof. intros w o w' [= _ <-]. apply R_refl. Qed.

Lemma preserves_out_of_fuel {A} : preserves R (out_of_fuel (A := A)).
Proof. intros w o w' [= _ <-]. apply R_refl. Qed.

Lemma preserves_await {A} (r : JsError + A) : preserves R (await r).
Proof. intros w o w' Hr. apply await_inv in Hr as [-> _]. apply R_refl. Qed.

Lemma preserves_now : preserves R now.
Proof. intros w o w' [= _ <-]. apply R_refl. Qed.

Lemma preserves_emit (e : Effect) : preserves R (emit e).
Proof. intros w o w' [= _ <-]. apply R_io. Qed.

Lemma preserves_report (onProgress : bool) (code : Code) (message : string)
    (progress : option Fixed) :
  preserves R (report onProgress code message progress).
Proof. apply preserves_emit. Qed.

Lemma preserves_fetch (req : Request) : preserves R (fetch req).
Proof.
  intros w o w'. unfold fetch.
  destruct (fetch_step H (server w) req) as [[e | r] s']; intros [= _ <-];
    apply R_io.
Qed.

Lemma preserves_bind {A B} (m : M H A) (k : A -> M H B) :
  preserves R m -> (forall a, preserves R (k a)) -> preserves R (bind m k).
Proof.
  intros Hm Hk w o w' Hr.
  apply bind_inv in Hr as [(a & w1 & H1 & H2) | [(e & H1 & _) | [H1 _]]].
  - eapply R_trans; [by apply Hm in H1 | by apply Hk in H2].
  - by apply Hm in H1.
  - by apply Hm in H1.
Qed.

Lemma preserves_try_catch {A} (m : M H A) (h : JsError -> M H A) :
  preserves R m -> (forall e, preserves R (h e)) -> preserves R (try_catch m h).
Proof.
  intros Hm Hh w o w' Hr.
  apply try_catch_inv in Hr as [(e & w1 & H1 & H2) | [H1 _]].
  - eapply R_trans; [by apply Hm in H1 | by apply Hh in H2].
  - by apply Hm in H1.
Qed.
End Preserve.

Ltac preserves_step :=
  match goal with
  | |- preserves _ (bind _ _) => apply preserves_bind; [assumption .. | | intros ?]
  | |- preserves _ (try_catch _ _) =>
      apply preserves_try_catch; [assumption .. | | intros ?]
  | |- preserves _ (ret _) => apply preserves_ret; auto
  | |- preserves _ (throw _) => apply preserves_throw; auto
  | |- preserves _ out_of_fuel => apply preserves_out_of_fuel; auto
  | |- preserves _ (await _) => apply preserves_await; auto
  | |- preserves _ now => apply preserves_now; auto
  | |- preserves _ (emit _) => apply preserves_emit; auto
  | |- preserves _ (fetch _) => apply preserves_fetch; auto
  | |- preserves _ (report _ _ _ _) => apply preserves_report; auto
  | |- preserves _ (if ?b then _ else _) => destruct b
  | |- preserves _ (match ?x with _ => _ end) => destruct x
  end.

Section DownloadFrame.
Context {H : Host}.
Variable name : string.
Variable R : World H -> World H -> Prop.
Hypothesis R_refl : forall w, R w w.
Hypothesis R_trans : forall w1 w2 w3, R w1 w2 -> R w2 w3 -> R w1 w3.
Hypothesis R_io :
  forall w s t,
    R w {| server := s; db := db w; map := map w; clock := clock w; trace := t |}.
Hypothesis R_put_file :
  forall w rec t,
    file_name rec = name ->
    R w {| server := server w;
           db := {| files := <[name := rec]> (files (db w)); styles := styles (db w) |};
           map := map w; clock := clock w; trace := t |}.

Lemma preserves_saveMapFile (blob : Blob) : preserves R (saveMapFile name blob).
Proof.
  intros w o w'. rewrite saveMapFile_run. cbn zeta.
  destruct (files_put_fault H (db w) _); intros [= _ <-];
    [apply R_io | by apply R_put_file].
Qed.

Lemma preserves_chunk_loop (fuel : nat) (url : string) (onProgress : bool)
    (totalSize : Z) :
  forall st, preserves R (chunk_loop fuel url onProgress totalSize st).
Proof.
  induction fuel as [| fuel IH]; intros st; cbn [chunk_loop].
  - repeat preserves_step.
  - destruct (receivedLength st <? totalSize); [| by apply preserves_ret].
    apply preserves_bind; [assumption .. | | apply IH].
    unfold chunk_step. repeat preserves_step.
Qed.

Lemma preserves_download_data (fuel : nat) (url : string) (onProgress : bool) :
  preserves R (download_data fuel url onProgress).
Proof.
  unfold download_data, download_chunked.
  repeat first [by apply preserves_chunk_loop | preserves_step].
Qed.

(** The style step, when it may write the style of [name]. *)
Lemma preserves_download_style (onProgress : bool) (styleSource : JsVal) :
  (forall style, preserves R (saveMapStyle name style)) ->
  preserves R (download_style name onProgress styleSource).
Proof.
  intros Hsave. unfold download_style.
  repeat first [by apply Hsave | preserves_step].
Qed.

Lemma preserves_bind_ret {A B} (a : A) (k : A -> M H B) :
  preserves R (k a) -> preserves R (bind (ret a) k).
Proof. intros Hk w o w' Hr. by apply (Hk w o w'). Qed.

(** The style step for a style source that is ignored. *)
Lemma preserves_ignored_style (onProgress : bool) (styleSource : JsVal) :
  style_ignored styleSource = true ->
  preserves R (download_style name onProgress styleSource).
Proof.
  intros Hi. unfold download_style.
  destruct (truthy styleSource); [| by apply preserves_ret].
  apply preserves_bind; [assumption .. | by apply preserves_report | intros _].
  destruct styleSource as [| | b | n | s | items | fields];
    try discriminate; cbn [style_ignored typeof_object] in *;
    rewrite ?Hi; cbn [negb];
    apply preserves_bind_ret; cbn [truthy]; by apply preserves_ret.
Qed.

Lemma preserves_downloadMap (fuel : nat) (url : option string)
    (onProgress : bool) (styleSource : JsVal) :
  preserves R (download_style name onProgress styleSource) ->
  preserves R (downloadMap fuel url name onProgress styleSource).
Proof.
  intros Hstyle. unfold downloadMap, download_try, download_catch.
  repeat first [ by apply Hstyle | by apply preserves_download_data
               | by apply preserves_saveMapFile | preserves_step ].
Qed.
End DownloadFrame.

Section DownloadFrameFacts.
Context {H : Host}.
Variable name : string.

Lemma same_but_trans (w1 w2 w3 : World H) :
  same_but name w1 w2 -> same_but name w2 w3 -> same_but name w1 w3.
Proof.
  intros (Hm & Hc & Ho) (Hm' & Hc' & Ho').
  split; [congruence |]. split; [congruence |].
  intros other Hne. destruct (Ho other Hne), (Ho' other Hne). split; congruence.
Qed.

Lemma same_but_saveMapStyle (style : JsVal) :
  preserves (same_but name) (saveMapStyle (H := H) name style).
Proof.
  intros w o w'. rewrite saveMapStyle_run. cbn zeta.
  destruct (styles_put_fault H (db w) _); intros [= _ <-]; [done |].
  split; [done |]. split; [done |]. intros other Hne.
  cbn [db files styles]. by rewrite lookup_insert_ne.
Qed.

(** X24: [downloadMap] touches one name only.  However it ends, the map and
    the clock are as before, and so are the archive and the style stored
    under every other name. *)
Theorem download_touches_one_name (fuel : nat) (url : option string)
    (onProgress : bool) (styleSource : JsVal) (w w' : World H)
    (o : Outcome unit) :
  downloadMap fuel url name onProgress styleSource w = (o, w') ->
  map w' = map w /\ clock w' = clock w
  /\ forall other, other <> name ->
       files (db w') !! other = files (db w) !! other
       /\ styles (db w') !! other = styles (db w) !! other.
Proof.
  revert w o w'.
  change (preserves (same_but name)
            (downloadMap fuel url name onProgress styleSource)).
  assert (Hio : forall (w : World H) s t,
             same_but name w {| server := s; db := db w; map := map w;
                                clock := clock w; trace := t |}) by done.
  assert (Hput : forall (w : World H) rec t,
             file_name rec = name ->
             same_but name w
               {| server := server w;
                  db := {| files := <[name := rec]> (files (db w));
                           styles := styles (db w) |};
                  map := map w; clock := clock w; trace := t |}).
  { intros w rec t _. split; [done |]. split; [done |]. intros other Hne.
    cbn [db files styles]. by rewrite lookup_insert_ne. }
  apply (preserves_downloadMap name (same_but name));
    [done | apply same_but_trans | done | done |].
  apply (preserves_download_style name (same_but name));
    [done | apply same_but_trans | done |].
  apply same_but_saveMapStyle.
Qed.

(** X25: what [downloadMap] does with the style source.  A style source
    that is falsy, a blank string, or neither a string nor an object is
    ignored: however the call ends, the table of styles is as before.  A
    style source that is an object is stored as it is when the call
    returns, and [getMapStyle] then returns it. *)
Theorem download_style_handling (fuel : nat) (url : string)
    (onProgress : bool) (styleSource : JsVal) (w w' : World H) :
  (forall o url',
      style_ignored styleSource = true ->
      downloadMap fuel url' name onProgress styleSource w = (o, w') ->
      styles (db w') = styles (db w))
  /\ (str_truthy url = true ->
      typeof_object styleSource = true ->
      truthy styleSource = true ->
      downloadMap fuel (Some url) name onProgress styleSource w = (Ret tt, w') ->
      (exists rec, styles (db w') !! name = Some rec /\ style_doc rec = styleSource)
      /\ (styles_get_fault H (db w') name = None ->
          getMapStyle name w' = (Ret (Some styleSource), w'))).
Proof.
  split.
  - intros o url' Hi. revert w o w'.
    change (preserves same_styles
              (downloadMap fuel url' name onProgress styleSource)).
    assert (Htrans : forall w1 w2 w3 : World H,
               same_styles w1 w2 -> same_styles w2 w3 -> same_styles w1 w3).
    { unfold same_styles. congruence. }
    apply (preserves_downloadMap name same_styles); [done | done | done | done |].
    by apply (preserves_ignored_style name same_styles).
  - intros Hu Hobj Htruthy Hr.
    assert (Hst : exists rec, styles (db w') !! name = Some rec
                              /\ style_doc rec = styleSource).
    { unfold downloadMap, url_missing in Hr. rewrite Hu in Hr. cbn [negb] in Hr.
      apply bind_ret_inv in Hr as ([] & w0 & _ & Hr).
      apply try_catch_inv in Hr as [(e & w1 & _ & Hc) | [Hb _]].
      { unfold download_catch in Hc. apply bind_inv in Hc.
        destruct Hc as [(a & w2 & _ & Ht) | [(e' & _ & Ht) | [_ Ht]]]; discriminate. }
      unfold download_try in Hb.
      apply bind_ret_inv in Hb as (blob & w1 & _ & Hb).
      apply bind_ret_inv in Hb as ([] & w2 & _ & Hb).
      apply bind_ret_inv in Hb as ([] & w3 & _ & Hb).
      apply bind_ret_inv in Hb as ([] & w4 & Hs & Hb).
      apply report_inv in Hb as (_ & _ & -> & _).
      unfold download_style in Hs. rewrite Htruthy in Hs.
      apply bind_ret_inv in Hs as ([] & w5 & _ & Hs).
      assert (Hsave : (do! saveMapStyle name styleSource in
                       report onProgress PROGRESS
                         ("Saved custom style for " +:+ name +:+ ".") None) w5
                      = (Ret tt, w4)).
      { destruct styleSource; try discriminate; cbn [typeof_object] in Hs;
          apply bind_ret_inv in Hs as (j & w6 & [= <- <-] & Hs);
          by rewrite Htruthy in Hs. }
      apply bind_ret_inv in Hsave as ([] & w6 & Hsave & Hrep).
      apply report_inv in Hrep as (_ & _ & -> & _).
      rewrite saveMapStyle_run in Hsave. cbn zeta in Hsave.
      destruct (styles_put_fault H (db w5) _); [discriminate |].
      injection Hsave as <-. cbn [db styles].
      eexists. split; [apply lookup_insert_eq | done]. }
    split; [done |]. intros Hg. rewrite getMapStyle_run. unfold stored_style.
    rewrite Hg. destruct Hst as (rec & -> & <-). done.
Qed.
End DownloadFrameFacts.

Lemma download_touches_one_name_witness :
  let w' := snd (downloadMap 0 (Some "https://example.org/a.pmtiles") "nice" true
                   VUndefined style_less_world) in
  downloadMap 0 (Some "https://example.org/a.pmtiles") "nice" true VUndefined
    style_less_world = (Ret tt, w')
  /\ map w' = stale_map
  /\ files (db w') !! "paris" = files two_archives !! "paris"
  /\ file_blob <$> files (db w') !! "nice" = Some four_bytes.
Proof.
  intros w'.
  assert (Hr : downloadMap 0 (Some "https://example.org/a.pmtiles") "nice" true
                 VUndefined style_less_world = (Ret tt, w')).
  { vm_compute. reflexivity. }
  destruct (download_touches_one_name "nice" 0 _ true VUndefined style_less_world
              w' (Ret tt) Hr) as (Hm & _ & Ho).
  split; [exact Hr |]. split; [exact Hm |].
  split; [apply Ho; discriminate | vm_compute; reflexivity].
Defined.

Lemma download_style_handling_witness :
  let style := VObj [("version", VNum (num_of_Z 8))] in
  let w1 := snd (downloadMap 0 (Some "https://example.org/a.pmtiles") "nice" true
                   (VStr "  ") style_less_world) in
  let w2 := snd (downloadMap 0 (Some "https://example.org/a.pmtiles") "nice" true
                   style style_less_world) in
  styles (db w1) = styles two_archives
  /\ downloadMap 0 (Some "https://example.org/a.pmtiles") "nice" true style
       style_less_world = (Ret tt, w2)
  /\ getMapStyle "nice" w2 = (Ret (Some style), w2).
Proof.
  intros style w1 w2.
  assert (H1 : downloadMap 0 (Some "https://example.org/a.pmtiles") "nice" true
                 (VStr "  ") style_less_world = (Ret tt, w1)).
  { vm_compute. reflexivity. }
  assert (H2 : downloadMap 0 (Some "https://example.org/a.pmtiles") "nice" true
                 style style_less_world = (Ret tt, w2)).
  { vm_compute. reflexivity. }
  split.
  - exact (proj1 (download_style_handling "nice" 0 "" true (VStr "  ")
                    style_less_world w1) (Ret tt) _ eq_refl H1).
  - split; [exact H2 |].
    refine (proj2 (proj2 (download_style_handling "nice" 0
                            "https://example.org/a.pmtiles" true style
                            style_less_world w2) eq_refl eq_refl eq_refl H2) _).
    vm_compute. reflexivity.
Defined.

(** ** [downloadMap]: the [Content-Range] header, and the one write *)



Section ContentRange.
Context {H : Host}.

End ContentRange.


Section WritesOnce.
Context {H : Host}.
Variable name : string.

Lemma writes_once_of_emits {A} (m : M H A) : emits no_put m -> writes_once name m.
Proof.
  intros Hm w o w' Hr. apply Hm in Hr as (es & T & F & D).
  exists es. split; [done |]. left. auto.
Qed.

Lemma writes_once_bind_l {A B} (m : M H A) (k : A -> M H B) :
  emits no_put m -> (forall a, writes_once name (k a)) ->
  writes_once name (bind m k).
Proof.
  intros Hm Hk w o w' Hr.
  apply bind_inv in Hr as [(a & w1 & H1 & H2) | [(e & H1 & _) | [H1 _]]].
  - apply Hm in H1 as (es1 & T1 & F1 & D1).
    apply Hk in H2 as (es2 & T2 & Hcase).
    exists (es1 ++ es2). split; [by rewrite T2, T1, app_assoc |].
    destruct Hcase as [[F2 D2] | (pre & rec & post & -> & Fpre & Fpost & Hn & D2)].
    + left. split; [by apply Forall_app |]. by rewrite D2, (D1 F1).
    + right. exists (es1 ++ pre), rec, post.
      split; [by rewrite app_assoc |]. split; [by apply Forall_app |].
      split; [done |]. split; [done |]. by rewrite D2, (D1 F1).
  - by apply (writes_once_of_emits _ Hm) in H1.
  - by apply (writes_once_of_emits _ Hm) in H1.
Qed.

Lemma writes_once_bind_r {A B} (m : M H A) (k : A -> M H B) :
  writes_once name m -> (forall a, emits no_put (k a)) ->
  writes_once name (bind m k).
Proof.
  intros Hm Hk w o w' Hr.
  apply bind_inv in Hr as [(a & w1 & H1 & H2) | [(e & H1 & _) | [H1 _]]];
    [| by apply Hm in H1 | by apply Hm in H1].
  apply Hm in H1 as (es1 & T1 & Hcase).
  apply Hk in H2 as (es2 & T2 & F2 & D2).
  exists (es1 ++ es2). split; [by rewrite T2, T1, app_assoc |].
  destruct Hcase as [[F1 D1] | (pre & rec & post & -> & Fpre & Fpost & Hn & D1)].
  - left. split; [by apply Forall_app |]. by rewrite (D2 F2).
  - right. exists pre, rec, (post ++ es2).
    split; [by rewrite <- app_assoc |]. split; [done |].
    split; [by apply Forall_app |]. split; [done |]. by rewrite (D2 F2).
Qed.

Lemma writes_once_try_catch {A} (m : M H A) (h : JsError -> M H A) :
  writes_once name m -> (forall e, emits no_put (h e)) ->
  writes_once name (try_catch m h).
Proof.
  intros Hm Hh w o w' Hr.
  apply try_catch_inv in Hr as [(e & w1 & H1 & H2) | [H1 _]];
    [| by apply Hm in H1].
  apply Hm in H1 as (es1 & T1 & Hcase).
  apply Hh in H2 as (es2 & T2 & F2 & D2).
  exists (es1 ++ es2). split; [by rewrite T2, T1, app_assoc |].
  destruct Hcase as [[F1 D1] | (pre & rec & post & -> & Fpre & Fpost & Hn & D1)].
  - left. split; [by apply Forall_app |]. by rewrite (D2 F2).
  - right. exists pre, rec, (post ++ es2).
    split; [by rewrite <- app_assoc |]. split; [done |].
    split; [by apply Forall_app |]. split; [done |]. by rewrite (D2 F2).
Qed.

Lemma writes_once_saveMapFile (blob : Blob) :
  writes_once name (saveMapFile (H := H) name blob).
Proof.
  intros w o w'. rewrite saveMapFile_run. cbn zeta.
  destruct (files_put_fault H (db w) _); intros [= _ <-].
  - eexists. split; [done |]. left. split; [by repeat constructor | done].
  - eexists. cbn [trace]. split; [by rewrite <- app_assoc |].
    right. eexists [], _, [_]. split; [done |]. split; [constructor |].
    split; [by repeat constructor |]. done.
Qed.

Lemma no_put_report (onProgress : bool) (code : Code) (message : string)
    (progress : option Fixed) :
  emits (H := H) no_put (report onProgress code message progress).
Proof. apply emits_report; intros; exact I. Qed.

(** X27: [downloadMap] writes the table of archives at most once, and never
    takes the write back.  However the call ends, either it has written no
    archive and the table is as before, or it has written one record, under
    [name], which is what the table holds under [name] at the end: a failure
    in the style step leaves the archive stored. *)
Theorem download_writes_once (fuel : nat) (url : option string)
    (onProgress : bool) (styleSource : JsVal) (w w' : World H)
    (o : Outcome unit) :
  downloadMap fuel url name onProgress styleSource w = (o, w') ->
  exists es,
    trace w' = trace w ++ es
    /\ (Forall no_put es /\ files (db w') = files (db w)
        \/ exists pre rec post,
             es = pre ++ EPutFile rec :: post
             /\ Forall no_put pre /\ Forall no_put post
             /\ file_name rec = name
             /\ files (db w') = <[name := rec]> (files (db w))).
Proof.
  revert w o w'.
  change (writes_once name (downloadMap fuel url name onProgress styleSource)).
  unfold downloadMap.
  destruct (url_missing url); [apply writes_once_of_emits, no_put_report |].
  apply writes_once_bind_l; [apply no_put_report | intros _].
  apply writes_once_try_catch.
  - unfold download_try.
    apply writes_once_bind_l.
    { eapply emits_weaken; [| apply download_data_emits]. by intros e [_ ?]. }
    intros blob. apply writes_once_bind_l; [apply no_put_report | intros _].
    apply writes_once_bind_r; [apply writes_once_saveMapFile | intros _].
    apply emits_bind; [| intros _; apply no_put_report].
    eapply emits_weaken; [| apply download_style_emits]. by intros e [_ ?].
  - intros e. unfold download_catch.
    apply emits_bind; [| intros _; apply emits_throw].
    destruct (String.eqb _ _); apply no_put_report.
Qed.
End WritesOnce.

Lemma download_writes_once_witness :
  let w' := snd (downloadMap 0 (Some "https://example.org/a.pmtiles") "nice" true
                   (VStr "https://example.org/style.json") style_less_world) in
  downloadMap 0 (Some "https://example.org/a.pmtiles") "nice" true
    (VStr "https://example.org/style.json") style_less_world
  = (Throw (TypeError "Failed to fetch"), w')
  /\ file_blob <$> files (db w') !! "nice" = Some four_bytes
  /\ exists es, trace w' = trace style_less_world ++ es.
Proof.
  intros w'.
  assert (Hr : downloadMap 0 (Some "https://example.org/a.pmtiles") "nice" true
                 (VStr "https://example.org/style.json") style_less_world
               = (Throw (TypeError "Failed to fetch"), w')).
  { vm_compute. reflexivity. }
  destruct (download_writes_once "nice" 0 _ true _ style_less_world w' _ Hr)
    as (es & T & _).
  split; [exact Hr |]. split; [vm_compute; reflexivity |]. by exists es.
Defined.

(** ** [BlobSource.getBytes]: consecutive reads *)

(** X28: reads of a [BlobSource] compose.  For non-negative offsets and
    lengths, the bytes of two consecutive ranges, one after the other, are
    the bytes of the range they cover together, also where the ranges reach
    past the end of the blob; and the range from 0 of the size of the blob
    is the whole blob. *)
Theorem getBytes_consecutive (src : BlobSource) (offset a b : Z) :
  0 <= offset -> 0 <= a -> 0 <= b ->
  (exists first second,
      getBytes None src offset a = inr first
      /\ getBytes None src (offset + a) b = inr second
      /\ getBytes None src offset (a + b) = inr (first ++ second))
  /\ getBytes None src 0 (blob_size (bs_blob src)) = inr (bs_blob src).
Proof.
  intros Ho Ha Hb. unfold getBytes, arrayBuffer. split.
  - eexists _, _. split; [reflexivity |]. split; [reflexivity |]. f_equal.
    rewrite !blob_slice_take_drop by lia.
    rewrite Z2Nat.inj_add by lia. rewrite (Z2Nat.inj_add offset a) by lia.
    rewrite <- take_take_drop. f_equal. f_equal. apply drop_drop.
  - f_equal. rewrite (blob_slice_take_drop _ 0) by (unfold blob_size; lia).
    unfold blob_size. rewrite Nat2Z.id. cbn [Z.to_nat drop]. apply firstn_all.
Qed.

Lemma getBytes_consecutive_witness :
  let src := new_BlobSource ten_bytes "archive" in
  exists first second,
    getBytes None src 7 2 = inr first
    /\ getBytes None src 9 5 = inr second
    /\ getBytes None src 7 7 = inr (first ++ second)
    /\ length (first ++ second) = 3%nat.
Proof.
  intros src.
  destruct (getBytes_consecutive src 7 2 5 ltac:(lia) ltac:(lia) ltac:(lia))
    as [(first & second & H1 & H2 & H3) _].
  exists first, second. split; [exact H1 |]. split; [exact H2 |].
  split; [exact H3 |].
  assert (E : getBytes None src 7 7 = inr [Byte.x2a; Byte.x2a; Byte.x2a])
    by (vm_compute; reflexivity).
  change (7 + 2) with 9 in H2. change (2 + 5) with 7 in H3.
  rewrite H3 in E. injection E as ->. reflexivity.
Defined.

(** ** [getStorageUsage] *)


